(* ===== verification/_CoqProject ===== *)
-Q . S2P
Prelude.v
BinStr.v
JsNum.v
Canvas.v
JsString.v
Encode.v
Decode.v
Roundtrip.v
Depth.v
Resample.v
App.v
Alpha.v
View.v
Browser.v
Runs.v
Text.v
Doubles.v
Numbers.v
