(* ===== verification/Prelude.v ===== *)
(** * StegoScale: a verification library for the LSB steganography codec

    ** The program

    StegoScale is a browser application that hides a text message in the
    low bits of an image's colour channels and reads it back.  It has two
    source files.

    - [src/src/utils/steganography.ts] is the codec.  [encodeLSB] turns the
      message into a frame (a 32-digit binary length header followed by the
      binary digits of every character, [stringToBin]) and walks the RGBA
      buffer of a canvas, replacing the [k] low bits of every colour byte by
      the next [k] digits of the frame and skipping every fourth (alpha)
      byte.  [decodeLSB] walks a buffer the same way, collects the low bits,
      reads the header, validates it against the size of the buffer, collects
      the payload and rebuilds the characters ([binToString]).  [scaleImage]
      draws an image into a canvas of scaled size, to create capacity.
    - [src/src/App.tsx] is a React component: eleven state variables, an
      effect that recomputes the capacity shown, an effect that clears
      results when the mode changes, and the handlers for loading an image
      ([handleImageUpload]: a [FileReader], then an [Image], each with a
      callback), resetting, downloading the result, and processing
      ([handleProcess], asynchronous: it sets the busy flag, waits, then
      scales and encodes or decodes and stores the result or the error).
      The JSX it returns shows the state and wires the handlers to the
      controls.

    ** The files and what they model

    - [Prelude] (this file): the [result] type for operations that throw,
      with its bind, the hint and rewrite databases and the tactics shared
      by all files, induction on a buffer one pixel at a time
      ([list_ind4]), and [eventually], the inevitability of a property
      along every run of a relation, with its rule for proofs by a measure.
    - [BinStr]: strings of binary digits as [list bool], most significant
      digit first, with the string primitives the codec calls on them
      ([toString2] for [n.toString(2)], [parseInt2] for [parseInt(s, 2)]
      with NaN as [None], [padStart], [padEnd], [substring]) and the
      reference big-endian field [be_bits].
    - [JsNum]: the number operations, on [Z] and [Q]: ToInt32 ([wrap32],
      [toInt32]), the operators [<<], [&], [|] ([js_shl], [js_and],
      [js_or]) with their 32-bit wrap-around written out, the clamped store
      into a [Uint8ClampedArray] ([store8]), [String.fromCharCode], the
      closed form [set_low] of "replace the low k bits", and
      [double_exact], the rationals a double holds exactly.
    - [Canvas]: [Image], [Canvas] (width, height, whether [getContext]
      succeeds, the pixel buffer as [list byte]), [SteganoResult], the four
      errors the codec throws and the [IndexSizeError] that [getImageData]
      raises on a canvas of zero width or height, [wf_canvas] (four bytes
      per pixel), the alpha test [is_alpha], the count of colour bytes
      [colour_count] and [opaque] (every alpha byte is 255).
    - [JsString]: string literals and template literals: [units] (the
      code units of an ASCII literal), [decimal] (an integer inside a
      template literal) and [downloadName], the name of a saved file.
    - [Encode]: [stringToBin], [lengthHeader], [fullBinary], the byte update
      [hide], the body and the loop of [encodeLSB] ([encode_body],
      [encode_loop]) and [encodeLSB] itself, statement by statement; the
      structural reference walk [embed].
    - [Decode]: [binToString] with its regular-expression match
      [match_groups], the extraction of low bits [low_bits], the body and
      loop shared by both [while] loops ([extract_body], [extract_loop]),
      [decodeLSB] itself; the reference stream [extract] and the frame
      parser [parse_frame] / [decode_spec].
    - [Roundtrip]: theorems relating [Encode] and [Decode]; [fits] (the
      frame of a message fits the colour bytes) and [canvas_capacity], the
      number of payload bytes a canvas holds.
    - [Depth]: when decoding succeeds ([carries]: the canvas carries the
      frame of the message), what a decoder can tell apart ([low_equiv]:
      same size, same low bits of the colour bytes), the low-bit streams
      of one buffer at two depths ([stream]), covers whose low bits are
      blank ([blank_cover]), and the depths the codec accepts although the
      view does not offer them (0, and 9 and more).
    - [Resample]: [scaleImage] with the smoothing settings it asks for
      ([Smoothing]) and [canvas_dim]; the class [Platform] states what the
      codec and the application assume of the browser's [drawImage] and
      [getContext]; [nearest_platform] (nearest-neighbour sampling) is an
      instance; [whole_dims] says that scaling truncates nothing.
    - [App]: [State] with one setter per [useState], [capacityEffect],
      [modeEffect], [renderEffects] (React's rule that an effect runs after
      a render in which one of its dependencies changed), [imageLoaded]
      ([img.onload]), [resetAll], [handleProcess] split at its [await] into
      [handleProcess_begin] and [handleProcess_resume]; [Event], [Sys] (the
      state and the closure of a waiting handler); [editMessage] and
      [clickProcess], the two handlers whose control the markup renders
      or enables under a condition (the editor in encode mode only, the
      process button with its [disabled] attribute); [dispatch] and
      [run].
    - [Alpha]: a canvas that stores colours premultiplied by alpha
      ([stored], [premultiplied_draw]), as a second instance
      [premultiplied_platform] of [Platform], and covers with
      transparency.
    - [View]: the JSX the component returns.  Every block that depends on
      the state is a function of [State] ([modeButtons], [preview],
      [scalePanel], [bitsPanel], [heading], [processFace], [editorPanel],
      [decodedPanel], [errorBanner], [resultPanel]) and [render] collects
      them.  One predicate per control says when a gesture on it is
      accepted ([editorShown], [depthButton], [sliderStop],
      [processButton], [downloadButton]); [enabled] collects them.
    - [Browser]: the component in its page.  [handleImageUpload] with its
      nested callbacks [reader.onload] ([readerLoaded]) and [img.onload],
      [downloadResult], the reset of the file input that ends [resetAll];
      a [File] with its path and what its content decodes to, and
      [selected], the value of the file input; the page state [Browser]
      (component, selection of the file input, callbacks that wait, files
      saved), the labelled steps [step] with their executable form
      [exec], and sequences of steps.
    - [Runs]: infinite runs of the page ([Run]: the state and the step at
      every instant, [run_ok]), the fairness of the event loop
      ([timer_fair]: a timer that is due fires; [queue_fair]: the oldest
      waiting callback runs), and [run_of], the run that takes a list of
      steps and then rests.
    - [Text]: the texts of the program.  [errorMessage] and
      [appErrorMessage] give every error the message of its [throw],
      [caught] is the expression [err.message || '...'] of the [catch]
      block, [errorString] the string the [error] state holds and
      [bannerText] the text of the banner.
    - [Doubles]: the numbers as IEEE 754 binary64 values, on the standard
      library's [SpecFloat]: [dyadic] and [ofZ] (the double nearest to a
      value), the operators [num_mul], [num_div], [num_sub], [num_gt],
      [Math_floor], [Math_max], and the conversion [toUint32] of an
      assignment to [canvas.width]; [canonical] is the normal form the
      exactness lemmas are stated with.
    - [Numbers]: the three computations of the source on doubles:
      [capacityDouble] (the capacity effect), [canvasDimDouble] (the
      dimensions [scaleImage] assigns) and [tooLongDouble] (the capacity
      check), with [sliderDouble], the number the slider reports.

    ** Correspondence of data and effects

    - A JavaScript string is the list of its UTF-16 code units ([jsstring],
      [list Z]); a string of binary digits is a [list bool].
    - A [Uint8ClampedArray] is a [list byte]; a write [data[i] = v] is
      stdpp's [<[i:=store8 v]>], a read is [byte_at] (both loops stay in
      range, which the loop conditions guarantee).
    - Numbers are exact in the codec and the component: integers in [Z],
      the capacity computations (which divide and multiply by fractional
      scales) in [Q] with [Qfloor] for [Math.floor].  Every integer the
      codec computes is far below 2^53, so doubles represent them exactly;
      scale factors are the slider's multiples of 0.5, which are exact in
      binary.  [Numbers] repeats the capacity effect, the canvas
      dimensions and the capacity check with the binary64 operations of
      [Doubles] and shows that they return the values of the exact model
      for images below 2^20 pixels each way.
    - An error is the statement that raised it ([Error], [AppError]); the
      string the component stores for it is [caught] of [Text], which is
      injective on errors, so the state keeps the error.  A string literal
      is the list of its code units ([units]), an integer in a template
      literal its decimal digits ([decimal]).
    - [throw] is the constructor [Throw] of [result]; a rejected promise is
      the same value, handled by the [catch] of [handleProcess].
    - The in-place mutation of the buffer is state passing: the loop state
      of [encode_loop] is the pair of the buffer and [bitIndex], that of
      [extract_loop] the pair of [binaryString] and [i].
    - The asynchronous [handleProcess] captures the state of the render in
      which the button was clicked; [Sys] keeps that closure as [pending]
      until the event [ProcessResumes] runs the continuation on the state
      current at that time.  State updates of the continuation are the
      functional updates React applies.
    - A conditional of the JSX is a JavaScript truthiness test: [option]
      for nullable values, [truthy] for strings.
    - A file is its path and what the browser makes of its content
      ([File]: the image its bytes decode to, or none); a callback that
      waits is a [Task]; the page runs waiting callbacks one at a time, in
      any order ([RunTask i]); a [change] event of the file input fires
      only when the path selected changes, so a file edited on disk under
      the same path is no new selection.  A saved download is the image of
      its data URL with the time stamp of its name.

    ** Fuel and bounds

    - [encode_loop] and [extract_loop] take fuel; [encodeLSB] and
      [decodeLSB] give them [length data], one unit per buffer index.  The
      termination theorems [encode_loop_terminates] and
      [extract_loop_terminates] show that any fuel of at least
      [length data - i] yields the same state, so no result depends on the
      fuel running out.  [match_groups] takes the length of its input as
      fuel and consumes eight digits per unit.
    - The bit depth is a [nat].  The application offers 1, 2, 3 and 4;
      theorems about encoding assume [k <= 8] (beyond 8 the value written
      does not fit a byte and the store clamps), theorems about decoding
      alone hold for [1 <= k <= 30] (beyond 30 the mask [(1 << k) - 1] wraps
      in 32-bit arithmetic).  Definitions are total for every [k].
    - Message lengths are below 2^32 wherever the header must be 32 digits
      wide; [lengthHeader_width] shows the header is longer otherwise.
    - Runs of the page need no fuel: [exec_all] recurses on the list of
      steps.  Inevitability is proved with the measure [work] (two units
      for a file being read, one for an image being decoded, one for a
      waiting handler), which every step the page takes by itself lowers.
      An infinite run is a function of the instant; its theorems are
      proved by induction on the distance to the instant fairness
      provides, and on the position of a callback in the queue.
    - Doubles have precision 53 and maximal exponent 1024.  The exactness
      lemmas of [Doubles] ask that operands and results have at most 53
      significant bits and exponents in [normal_exp] (between -1021 and
      918, so that nothing is subnormal or overflows); the capacity effect
      stays below 2^51 with exponents from -5 to 0 when the image has fewer
      than 2^20 pixels each way, the scale is at most 4 and the depth at
      most 8 ([in_bounds]).  Browsers refuse canvases far smaller than
      that.  [capacityDouble_rounds] shows that beyond the bound the
      result is rounded.

    ** The theorems

    - Round trip ([Roundtrip]): decoding an encoded canvas returns the
      message, for non-empty Latin-1 messages whose frame fits
      ([decode_encode_roundtrip]); the header written is the length
      ([encoded_header_correct]); a frame that does not fit, an empty
      message and a message outside Latin-1 do not round-trip
      ([decode_oversized_fails], [decode_empty_fails],
      [decode_non_latin1_differs]); the example
      [wrong_depth_can_succeed] is a cover on which decoding at another
      bit depth than the encoder's returns the message.
    - Depth ([Depth]): [decodeLSB] returns a message exactly when the
      canvas carries its frame ([decodeLSB_ok_iff]); its result depends
      only on the size of the canvas and the low bits of the colour bytes
      ([decodeLSB_low_bits_only], with [low_equiv] an equivalence and
      [decode_spec] proper for it); on a cover whose low
      bits are blank, decoding at another depth than the encoder's never
      returns the message ([wrong_depth_blank_cover]); depth 0 writes
      nothing and depths from 9 on lose digits to the clamped store
      ([encodeLSB_depth_zero], [hide_deep], [depth_nine_corrupts]).
    - Encoder ([Encode]): alpha bytes, upper bits and the bytes after the
      frame are untouched, so a channel moves by less than [2^k] and an
      opaque buffer stays opaque; the loop equals the reference walk; closed form and range of the byte written; widths of
      payload and header; the capacity reported; [encodeLSB] fails only
      without a context or on an empty canvas, never because of the length
      of the message.
    - Decoder ([Decode]): [decodeLSB] refines the frame parser on the
      extracted stream, errors included; the "too small" error is
      characterised exactly; the "ended prematurely" error is unreachable on
      a canvas buffer; shape of a successful result.
    - Resampler ([Resample]): dimensions and well-formedness of the canvas
      [scaleImage] returns, for every [Platform]; it returns an empty canvas
      rather than failing when a scaled dimension is zero; with whole
      scaled dimensions the canvas has exactly these ([scaleImage_whole]).
    - Application ([App]): invariants of every reachable state (capacity
      shown is current, the busy flag is set exactly while a handler waits,
      the settings stay within what the view offers); clicking the process
      button in encode mode on an opaque cover produces an image the
      decode path reads back when the scaled dimensions are whole
      ([offered_encode_decodes], [handleProcess_encode_decodes]), and an
      undecodable image at the fractional scales, because the capacity
      effect does not round the canvas dimensions as [scaleImage] does:
      whenever the frame does not fit the canvas
      ([processEncode_overestimate]), which happens for every image with
      odd sides at the positions 1.5, 2.5 and 3.5 of the slider and a
      message of the capacity shown ([half_scale_undecodable]; the example
      [offered_trace_undecodable] is a sequence of clicks that gets
      there), while
      with whole dimensions the capacity check refuses a message exactly
      when its frame does not fit ([guard_exact_whole_dims]) and at every
      scale it never refuses a message that fits
      ([guard_refuses_only_unfit]); the numbers of the capacity
      computation are exact in doubles ([capacity_numbers_exact]); what
      [resetAll] leaves behind; monotonicity and closed form of the
      capacity, and what a whole factor of scaling adds to it
      ([appCapacity_scaled]: n*n times the capacity plus 4 to 5 bytes
      for each of the n*n - 1 copies).
    - Numbers ([Doubles], [Numbers]): [dyadic] computes the normal form
      of every value of at most 53 bits ([dyadic_canonical]); products,
      quotients by powers of two, differences, [Math.floor], [Math.max]
      and comparisons of such values are exact ([num_mul_exact],
      [num_div_pow2], [num_sub_exact], [Math_floor_exact],
      [Math_max_zero], [num_gt_exact]); hence the capacity the program
      computes is the double of the model's capacity
      ([capacityDouble_exact]), the canvas gets the dimensions of the
      model ([canvasDimDouble_exact]), the capacity check decides as the
      model's guard ([tooLongDouble_exact]), and in every state the user
      can reach the [capacity] of the model is the number the component
      holds ([state_capacity_double]).
    - Texts ([Text]): two errors with the same stored string are the same
      error ([caught_identifies]); the banner shows every error and the
      fallback text stands only for a browser exception without message
      ([banner_shows_error]); downloads at different instants have
      different names ([downloadName_identifies], in [JsString]).
    - Transparency ([Alpha]): the premultiplying canvas satisfies the laws
      of [Platform]; it keeps nothing of the colours of transparent
      pixels ([stored_transparent]), so on it a fully transparent cover
      loses every message, at every scale and depth, while the encode
      path reports success ([transparent_cover_loses]); a half
      transparent cover loses it as well
      ([premultiplied_canvas_loses_message]).
    - View ([View]): the controls accept only what [offered] describes
      ([enabled_offered]) and a gesture on a disabled or absent control
      changes nothing ([disabled_ignored]), while the slider made inert
      in decode mode still moves with the keyboard
      ([inert_slider_moves]); the decode panel never hides a stored
      result ([reachable_decoded_shown]); the counter of the editor is red
      exactly when processing would refuse the message; a failed run
      leaves the result panel of an earlier run on screen
      ([failed_encode_keeps_result]).
    - Page ([Browser]): [step] and [exec] agree and steps are
      deterministic; the page refines the event model of [App], so every
      invariant of the component holds in every state a user can bring
      about ([page_refines_app]); the callbacks that wait always complete
      and leave the component idle ([callbacks_complete]); a waiting
      handler resumes with what it captured, whatever happens meanwhile
      ([handler_resumes_closure]); the journey encode, download, reset,
      upload, decode shows the message ([encode_download_upload_decode]);
      the reset makes the same file selectable again
      ([reset_clears_selection]); races between uploads, reset and a
      waiting handler ([upload_during_processing], [reset_during_upload],
      [exec_uploads_overtake]).
    - Fair runs ([Runs]): in every infinite run in which a due timer
      fires, an accepted click on the process button is followed by the
      continuation, which works with the values captured at the click
      ([process_completes_fair]), and in encode mode leaves a result image
      that decodes to the message typed at the click, whatever the user
      does in between ([encode_completes_fair]), and in decode mode the
      message or the error of the decode path ([decode_completes_fair]);
      in every run in which
      the oldest waiting callback runs, every upload of an image is
      followed by its [img.onload] ([upload_completes_fair]).

    ** Assumptions, and what is not modelled

    - The browser's image pipeline is assumed lossless for opaque images
      only: a data URL is identified with the image it encodes (PNG is
      lossless), drawing an opaque image at its natural size reproduces
      its pixels ([drawImage_natural]) and drawing it at any size gives
      opaque pixels ([drawImage_opaque]).  Nothing is assumed of pixels
      with transparency; [premultiplied_platform] models the rounding of a
      canvas that stores premultiplied colours, placed at [drawImage]
      (the same rounding at [putImageData] is not modelled separately).
    - The interpolation of [drawImage] at other sizes is left abstract in
      [Platform]; no theorem depends on the colours it produces, and the
      smoothing settings are passed to it without being interpreted.
    - Fairness is an assumption on the browser: the timer of
      [handleProcess] fires after its delay and the event loop serves the
      oldest waiting callback.  Callbacks may still run in any order;
      [queue_fair] only excludes runs in which the oldest one waits for
      ever.
    - A file chosen by the user is read without error (the code installs
      no [onerror], and a read error would leave the page waiting for
      nothing); a saved PNG decodes to the image of its data URL.  The
      inevitability theorem is about the steps the page takes by itself:
      it assumes the browser eventually runs every callback that waits,
      and that gestures stop arriving meanwhile; [handler_resumes_closure]
      covers the gestures that arrive while a handler waits.
    - Static markup, class names, icons, animations and the prose of the
      JSX (the Methodology Overview card) carry no behaviour and are not
      modelled; neither are layout and the rendering of pixels on screen.
    - Within one canvas, [putImageData] followed by [toDataURL] is taken
      to keep every byte: the model stores the buffer as it is.  This is
      what browsers do for opaque pixels; for pixels with transparency it
      is the assumption the instance of [Alpha] lifts at [drawImage].
    - The bit depth is a natural number.  The default value 1 of the
      parameter [bitsPerChannel] is not modelled (the component always
      passes the depth), nor are fractional or negative depths, which no
      control of the view produces.
    - Code units of a [jsstring] are integers without an upper bound;
      theorems that need them to be code units ask for [latin1] or for
      non-negative values, and nothing depends on the bound 2^16.
    - [canvas_dim] is the integer part of the exact product and does not
      wrap at 2^32 as the conversion of an assignment to [canvas.width]
      does; [canvasDimDouble_exact] shows that conversion and model agree
      below 2^20 pixels each way, and [capacityDouble_exact] does the
      same for the rationals of [appCapacity].
    - The message of the exception the browser raises on an empty canvas
      is the browser's own; [Text] takes it as a parameter ([domMessage])
      and assumes, where needed, that it is none of the program's
      messages ([foreign]; Chromium's text is an instance).
    - Of the arithmetic of doubles only the operations the capacity
      effect, [scaleImage] and the capacity check perform are modelled,
      on finite operands; the 32-bit operators of the codec stay on
      integers ([JsNum]), where their operands are exact.
    - The imports, the icons and the footer of [App.tsx] hold no
      computation; of the static text of the page only the two statements
      about the program's behaviour are modelled.
    - The delay inside [handleProcess] is an event boundary; its duration
      is not modelled, and neither is the value of [Date.now()] beyond
      being the stamp of a saved file.

    ** Planned extensions

    Decoding at another depth on covers that are not blank; depths from 24
    on, where the mask [255 << k] wraps; a bilinear [Platform] instance;
    a bound on the error of the capacity shown for images beyond
    [in_bounds]. *)

From Stdlib Require Import ZArith Lia List.
From stdpp Require Import base tactics list numbers.

(** ** Results of operations that may throw *)

Declare Scope steg_scope.
Delimit Scope steg_scope with steg.

Inductive result (E A : Type) : Type :=
| Ok (a : A)
| Throw (e : E).

Arguments Ok {E A} a.
Arguments Throw {E A} e.

Definition bind {E A B : Type} (c : result E A) (k : A -> result E B) : result E B :=
  match c with
  | Ok a => k a
  | Throw e => Throw e
  end.

Definition is_ok {E A : Type} (c : result E A) : bool :=
  match c with
  | Ok _ => true
  | Throw _ => false
  end.

Notation "'let!' x ':=' c 'in' k" := (bind c (fun x => k))
  (at level 10, x name, c at level 100, k at level 200) : steg_scope.

(** ** Inevitability

    [eventually R P s]: every maximal sequence of [R]-steps from [s] reaches
    a state in which [P] holds, and no state before that is stuck. *)

Section Eventually.
Context {St : Type} (R : St -> St -> Prop).

Inductive eventually (P : St -> Prop) (s : St) : Prop :=
| eventually_now : P s -> eventually P s
| eventually_next :
    (exists s', R s s') -> (forall s', R s s' -> eventually P s') -> eventually P s.

End Eventually.

(** ** Automation

    [steg_len] collects the equations that compute the length of a list
    (digit strings, buffers, frames); every file adds the length lemmas of
    its own operations.  [solve_len] closes a goal of linear arithmetic over
    such lengths, [len_in H] normalises a hypothesis.  [steg] collects the
    range and well-formedness facts that side conditions ask for. *)

Create HintDb steg discriminated.
Create Rewrite HintDb steg_len.

#[export] Hint Rewrite @length_app @length_take @length_drop @length_replicate
  @length_map @length_seq @length_insert @length_reverse : steg_len.

Ltac solve_len :=
  autorewrite with steg_len; cbn [length]; try done; lia.

Tactic Notation "len_in" hyp(H) :=
  autorewrite with steg_len in H; cbn [length] in H.

(** ** Generic lemmas *)

Lemma bind_ok {E A B : Type} (a : A) (k : A -> result E B) :
  bind (Ok a) k = k a.
Proof. reflexivity. Qed.

Lemma bind_throw {E A B : Type} (e : E) (k : A -> result E B) :
  bind (Throw e) k = Throw e.
Proof. reflexivity. Qed.

Lemma flat_map_ext_in {A B : Type} (f g : A -> list B) (l : list A) :
  (forall a, In a l -> f a = g a) -> flat_map f l = flat_map g l.
Proof.
  intros H. rewrite !flat_map_concat_map. f_equal. by apply map_ext_in.
Qed.

(** Induction on a list four elements at a time (one pixel of an RGBA
    buffer). *)
Lemma list_ind4 {A : Type} (P : list A -> Prop) :
  (forall l, (length l < 4)%nat -> P l) ->
  (forall a b c d l, P l -> P (a :: b :: c :: d :: l)) ->
  forall l, P l.
Proof.
  intros Hshort Hstep l. remember (length l) as n eqn:Hn. revert l Hn.
  induction (lt_wf n) as [n _ IH]. intros l ->.
  destruct l as [|a [|b [|c [|d l]]]]; try (apply Hshort; cbn; lia).
  apply Hstep, (IH (length l)); [cbn; lia | done].
Qed.

(** ** Lemmas on [eventually] *)

Section EventuallyLemmas.
Context {St : Type} (R : St -> St -> Prop).

Lemma eventually_mono (P Q : St -> Prop) s :
  (forall s, P s -> Q s) -> eventually R P s -> eventually R Q s.
Proof.
  intros HPQ. induction 1 as [s Hs|s Hex _ IH]; [by apply eventually_now, HPQ|].
  by apply eventually_next.
Qed.

Lemma eventually_trans (P : St -> Prop) s :
  eventually R (eventually R P) s -> eventually R P s.
Proof. induction 1 as [s Hs|s Hex _ IH]; [done | by apply eventually_next]. Qed.

(** The rule for proofs by a measure: from every state of an invariant [I]
    that does not satisfy [P] a step exists, and every step keeps [I] and
    lowers the measure. *)
Lemma eventually_measure (I P : St -> Prop) (m : St -> nat) :
  (forall s, I s ->
     P s \/ ((exists s', R s s') /\ forall s', R s s' -> I s' /\ (m s' < m s)%nat)) ->
  forall s, I s -> eventually R P s.
Proof.
  intros Hstep s. remember (m s) as n eqn:Hn. revert s Hn.
  induction (lt_wf n) as [n _ IH]. intros s -> Hs.
  destruct (Hstep s Hs) as [HP|[Hex Hnext]]; [by apply eventually_now|].
  apply eventually_next; [done|]. intros s' Hr.
  destruct (Hnext s' Hr) as [Hs' Hlt]. by apply (IH (m s')).
Qed.

End EventuallyLemmas.
