(* ===== verification/BinStr.v ===== *)
(** * BinStr: binary digit strings

    The codec manipulates JavaScript strings made of the characters '0' and
    '1' only.  They are modelled as [list bool] ('1' is [true]), most
    significant digit first, together with the string primitives the source
    calls on them: [Number.prototype.toString(2)], [parseInt(_, 2)],
    [padStart], [padEnd] and [substring].  [be_bits] is the reference
    definition of a fixed-width big-endian field, stated with [Z.testbit]. *)

From Stdlib Require Import ZArith Lia List.
From stdpp Require Import base tactics list numbers.
From S2P Require Import Prelude.

#[local] Open Scope Z_scope.

Definition bitstring : Type := list bool.

(** Binary digits of a positive number, most significant first. *)
Fixpoint pos_bits (p : positive) : bitstring :=
  match p with
  | xH => [true]
  | xO q => pos_bits q ++ [false]
  | xI q => pos_bits q ++ [true]
  end.

(** [n.toString(2)] for an integer [n >= 0].  Negative arguments (whose
    JavaScript rendering starts with a minus sign) are outside the domain:
    every call site of the program passes a non-negative number. *)
Definition toString2 (n : Z) : bitstring :=
  match n with
  | Zpos p => pos_bits p
  | _ => [false]
  end.

(** [s.padStart(n, c)] and [s.padEnd(n, c)] for a one-character filler. *)
Definition padStart {A : Type} (n : nat) (c : A) (s : list A) : list A :=
  replicate (n - length s) c ++ s.

Definition padEnd {A : Type} (n : nat) (c : A) (s : list A) : list A :=
  s ++ replicate (n - length s) c.

(** [s.substring(a, b)]: both indices are clamped to the length and swapped
    when [a > b]. *)
Definition substring {A : Type} (s : list A) (a b : nat) : list A :=
  let a' := Nat.min a (length s) in
  let b' := Nat.min b (length s) in
  take (Nat.max a' b' - Nat.min a' b') (drop (Nat.min a' b') s).

(** Value of a digit string read as an unsigned binary numeral. *)
Definition bin_value (s : bitstring) : Z :=
  fold_left (fun acc (b : bool) => 2 * acc + Z.b2z b) s 0.

(** [parseInt(s, 2)] on a digit string: [None] is NaN (the empty string). *)
Definition parseInt2 (s : bitstring) : option Z :=
  match s with
  | [] => None
  | _ => Some (bin_value s)
  end.

(** Reference definition: the [w]-bit big-endian field holding [n]. *)
Definition be_bits (w : nat) (n : Z) : bitstring :=
  map (fun i : nat => Z.testbit n (Z.of_nat (w - 1 - i))) (seq 0 w).

(** ** Lengths *)

Lemma length_padStart {A} n (c : A) s :
  length (padStart n c s) = Nat.max n (length s).
Proof. unfold padStart. solve_len. Qed.

Lemma length_padEnd {A} n (c : A) s :
  length (padEnd n c s) = Nat.max n (length s).
Proof. unfold padEnd. solve_len. Qed.

Lemma padStart_ge {A} n (c : A) s : (n <= length s)%nat -> padStart n c s = s.
Proof. intros H. unfold padStart. by replace (n - length s)%nat with 0%nat by lia. Qed.

Lemma padEnd_ge {A} n (c : A) s : (n <= length s)%nat -> padEnd n c s = s.
Proof.
  intros H. unfold padEnd. replace (n - length s)%nat with 0%nat by lia.
  apply app_nil_r.
Qed.

Lemma substring_take_drop {A} (s : list A) a b :
  (a <= b)%nat -> substring s a b = take (b - a) (drop a s).
Proof.
  intros Hab. unfold substring.
  destruct (decide (b <= length s)%nat) as [Hb|Hb].
  - do 2 f_equal; lia.
  - destruct (decide (a <= length s)%nat) as [Ha|Ha].
    + replace (Nat.min a (length s)) with a by lia.
      replace (Nat.min b (length s)) with (length s) by lia.
      replace (Nat.min a (length s)) with a by lia.
      rewrite !take_ge; [done | rewrite length_drop; lia ..].
    + rewrite !drop_ge by lia. by rewrite !take_nil.
Qed.

Lemma substring_prefix {A} (s : list A) n : substring s 0 n = take n s.
Proof. rewrite substring_take_drop by lia. by rewrite Nat.sub_0_r. Qed.

Lemma length_substring {A} (s : list A) a b :
  (a <= b <= length s)%nat -> length (substring s a b) = (b - a)%nat.
Proof.
  intros H. rewrite substring_take_drop by lia.
  solve_len.
Qed.

Lemma length_pos_bits p : length (pos_bits p) = Pos.size_nat p.
Proof. induction p; simpl; rewrite ?length_app, ?IHp; simpl; lia. Qed.

Lemma toString2_nonempty n : toString2 n <> [].
Proof.
  destruct n as [|p|p]; simpl; try done.
  destruct p; simpl; try done; by destruct (pos_bits p).
Qed.

Lemma length_be_bits w n : length (be_bits w n) = w.
Proof. unfold be_bits. solve_len. Qed.

#[export] Hint Rewrite @length_padStart @length_padEnd length_be_bits : steg_len.

(** ** Values *)

Lemma bin_value_snoc s b : bin_value (s ++ [b]) = 2 * bin_value s + Z.b2z b.
Proof. unfold bin_value. by rewrite fold_left_app. Qed.

Lemma bin_value_app s t :
  bin_value (s ++ t) = bin_value s * 2 ^ Z.of_nat (length t) + bin_value t.
Proof.
  induction t as [|b t IH] using rev_ind.
  - rewrite app_nil_r. simpl. unfold bin_value at 3. simpl. lia.
  - rewrite app_assoc, !bin_value_snoc, IH, length_app. simpl.
    rewrite Nat2Z.inj_add, Z.pow_add_r by lia. change (2 ^ Z.of_nat 1) with 2. lia.
Qed.

Lemma bin_value_cons b s :
  bin_value (b :: s) = Z.b2z b * 2 ^ Z.of_nat (length s) + bin_value s.
Proof.
  change (b :: s) with ([b] ++ s). rewrite bin_value_app.
  unfold bin_value at 1. simpl. lia.
Qed.

Lemma bin_value_range s : 0 <= bin_value s < 2 ^ Z.of_nat (length s).
Proof.
  induction s as [|b s IH] using rev_ind.
  - unfold bin_value. simpl. lia.
  - rewrite bin_value_snoc, length_app. simpl.
    rewrite Nat2Z.inj_add, Z.pow_add_r by lia. change (2 ^ Z.of_nat 1) with 2.
    destruct b; simpl; lia.
Qed.

Lemma bin_value_replicate_false n : bin_value (replicate n false) = 0.
Proof.
  induction n as [|n IH]; [done|].
  simpl. rewrite bin_value_cons, IH. simpl. lia.
Qed.

Lemma bin_value_padStart n s : bin_value (padStart n false s) = bin_value s.
Proof. unfold padStart. rewrite bin_value_app, bin_value_replicate_false. lia. Qed.

Lemma bin_value_padEnd n s :
  bin_value (padEnd n false s) = bin_value s * 2 ^ Z.of_nat (n - length s).
Proof.
  unfold padEnd. rewrite bin_value_app, bin_value_replicate_false, length_replicate. lia.
Qed.

Lemma bin_value_pos_bits p : bin_value (pos_bits p) = Zpos p.
Proof.
  induction p; simpl; rewrite ?bin_value_snoc, ?IHp; simpl; try lia.
  reflexivity.
Qed.

Lemma bin_value_toString2 n : 0 <= n -> bin_value (toString2 n) = n.
Proof.
  destruct n as [|p|p]; intros H; simpl; [done| apply bin_value_pos_bits | lia].
Qed.

Lemma parseInt2_nonempty s : s <> [] -> parseInt2 s = Some (bin_value s).
Proof. by destruct s. Qed.

Lemma parseInt2_toString2 n : 0 <= n -> parseInt2 (toString2 n) = Some n.
Proof.
  intros H. rewrite parseInt2_nonempty by apply toString2_nonempty.
  by rewrite bin_value_toString2.
Qed.

Lemma parseInt2_padStart n s :
  s <> [] -> parseInt2 (padStart n false s) = Some (bin_value s).
Proof.
  intros Hs. rewrite parseInt2_nonempty, bin_value_padStart; [done|].
  unfold padStart. intros [_ ?]%app_eq_nil. done.
Qed.

(** ** Fixed-width fields *)

Lemma bin_value_inj s t :
  length s = length t -> bin_value s = bin_value t -> s = t.
Proof.
  revert t. induction s as [|b s IH]; intros [|c t] Hlen Hval; try done.
  simpl in Hlen. rewrite !bin_value_cons in Hval.
  assert (Hl : length s = length t) by lia. rewrite Hl in Hval.
  pose proof (bin_value_range s) as Hs. pose proof (bin_value_range t) as Ht.
  rewrite Hl in Hs.
  assert (b = c) as -> by (destruct b, c; simpl in Hval; try done; lia).
  f_equal. apply IH; lia.
Qed.

Lemma length_pos_bits_le p (w : nat) :
  Zpos p < 2 ^ Z.of_nat w -> (length (pos_bits p) <= w)%nat.
Proof.
  revert w. induction p as [q IH|q IH|]; intros [|w] H; simpl in *;
    rewrite ?length_app; simpl; try lia.
  all: rewrite Nat2Z.inj_succ, Z.pow_succ_r in H by lia.
  all: try (specialize (IH w); lia).
Qed.

Lemma length_toString2_le n (w : nat) :
  (0 < w)%nat -> n < 2 ^ Z.of_nat w -> (length (toString2 n) <= w)%nat.
Proof.
  intros Hw H. destruct n as [|p|p]; simpl; try lia.
  by apply length_pos_bits_le.
Qed.

Lemma length_padStart_toString2 n (w : nat) :
  (0 < w)%nat -> n < 2 ^ Z.of_nat w ->
  length (padStart w false (toString2 n)) = w.
Proof.
  intros Hw H. rewrite length_padStart.
  pose proof (length_toString2_le n w Hw H). lia.
Qed.

Lemma padStart_toString2_bin_value s :
  s <> [] -> padStart (length s) false (toString2 (bin_value s)) = s.
Proof.
  intros Hs. pose proof (bin_value_range s) as Hr.
  assert (0 < length s)%nat by (destruct s; simpl; [done|lia]).
  apply bin_value_inj.
  - apply length_padStart_toString2; lia.
  - rewrite bin_value_padStart, bin_value_toString2; lia.
Qed.

Lemma be_bits_S w n :
  be_bits (S w) n = Z.testbit n (Z.of_nat w) :: be_bits w n.
Proof.
  unfold be_bits. rewrite <- cons_seq, <- seq_shift. cbn [map].
  rewrite map_map. f_equal; [f_equal; lia|].
  apply map_ext_in. intros i _. do 2 f_equal. lia.
Qed.

Lemma bin_value_be_bits w n : bin_value (be_bits w n) = n mod 2 ^ Z.of_nat w.
Proof.
  induction w as [|w IH].
  - simpl. by rewrite Z.mod_1_r.
  - rewrite be_bits_S, bin_value_cons, IH, length_be_bits.
    rewrite Z.testbit_spec' by lia.
    rewrite Nat2Z.inj_succ, Z.pow_succ_r by lia.
    rewrite (Z.mul_comm 2), Z.rem_mul_r by lia. lia.
Qed.

Lemma padStart_toString2_be_bits (w : nat) n :
  (0 < w)%nat -> 0 <= n < 2 ^ Z.of_nat w ->
  padStart w false (toString2 n) = be_bits w n.
Proof.
  intros Hw Hn. apply bin_value_inj.
  - rewrite length_be_bits. apply length_padStart_toString2; lia.
  - rewrite bin_value_padStart, bin_value_toString2, bin_value_be_bits by lia.
    by rewrite Z.mod_small.
Qed.

Lemma be_bits_mod w n : be_bits w (n mod 2 ^ Z.of_nat w) = be_bits w n.
Proof.
  apply bin_value_inj; [solve_len|].
  rewrite !bin_value_be_bits. apply Z.mod_mod. apply Z.pow_nonzero; lia.
Qed.

Lemma parseInt2_be_bits (w : nat) n :
  (0 < w)%nat -> parseInt2 (be_bits w n) = Some (n mod 2 ^ Z.of_nat w).
Proof.
  intros Hw. rewrite parseInt2_nonempty, bin_value_be_bits; [done|].
  intros E%(f_equal length). len_in E. lia.
Qed.

Lemma be_bits_bin_value s : be_bits (length s) (bin_value s) = s.
Proof.
  apply bin_value_inj; [apply length_be_bits|].
  rewrite bin_value_be_bits. apply Z.mod_small, bin_value_range.
Qed.
