(* ===== verification/JsNum.v ===== *)
(** * JsNum: the JavaScript number operations the codec relies on

    The source computes with IEEE doubles, applies the 32-bit integer
    operators [<<], [&] and [|] to them and stores the results in a
    [Uint8ClampedArray].  This file models those platform operations on
    exact integers ([Z]) and rationals ([Q]):
    - [wrap32] is ToInt32 (wrap-around into [-2^31, 2^31) ), [toInt32] extends
      it to NaN ([None]);
    - [js_shl], [js_and], [js_or] are the operators with their operand
      conversions written out;
    - [clamp8] and [store8] are an element write of an integer into a
      [Uint8ClampedArray];
    - [Qltb] and [Qfloor] stand for [<] and [Math.floor] on values that are
      quotients of small integers, for which double arithmetic is exact
      (all quantities are below 2^53 and divisors are powers of two);
    - [fromCharCode] is [String.fromCharCode] of one argument;
    - [double_exact] says that a rational is held exactly by a double.
    The lemmas give the closed forms the codec's proofs use. *)

From Stdlib Require Import ZArith Lia QArith Qround List.
From stdpp Require Import base tactics list numbers.
From coqutil Require Import Byte.
From S2P Require Import Prelude.

#[local] Open Scope Z_scope.

(** ToInt32: reduce modulo 2^32 into the signed range. *)
Definition wrap32 (z : Z) : Z := (z + 2 ^ 31) mod 2 ^ 32 - 2 ^ 31.

(** ToInt32 of a number that may be NaN. *)
Definition toInt32 (x : option Z) : Z :=
  match x with
  | Some z => wrap32 z
  | None => 0
  end.

(** [a << k]: the shift count is taken modulo 32, the result wraps. *)
Definition js_shl (a : Z) (k : nat) : Z :=
  wrap32 (wrap32 a * 2 ^ (Z.of_nat k mod 32)).

(** [a & b] and [a | b]. *)
Definition js_and (a b : Z) : Z := Z.land (wrap32 a) (wrap32 b).

Definition js_or (a b : Z) : Z := Z.lor (wrap32 a) (wrap32 b).

(** Writing an integer into a [Uint8ClampedArray] clamps it to [0, 255]. *)
Definition clamp8 (z : Z) : Z := Z.max 0 (Z.min 255 z).

Definition store8 (z : Z) : byte := byte.of_Z (clamp8 z).

(** [x < y] on exact rationals. *)
Definition Qltb (x y : Q) : bool := negb (Qle_bool y x).

(** [String.fromCharCode(x)]: ToUint16 of the argument, NaN gives 0. *)
Definition fromCharCode (x : option Z) : Z :=
  match x with
  | Some n => n mod 65536
  | None => 0
  end.

(** The value a byte takes when its [k] low bits are replaced by [v]. *)
Definition set_low (k : nat) (b v : Z) : Z := b - b mod 2 ^ Z.of_nat k + v.

(** ** ToInt32 *)

Lemma wrap32_small z : - 2 ^ 31 <= z < 2 ^ 31 -> wrap32 z = z.
Proof. intros H. unfold wrap32. rewrite Z.mod_small; lia. Qed.

Lemma wrap32_range z : - 2 ^ 31 <= wrap32 z < 2 ^ 31.
Proof. unfold wrap32. pose proof (Z.mod_pos_bound (z + 2 ^ 31) (2 ^ 32)). lia. Qed.

Lemma wrap32_idemp z : wrap32 (wrap32 z) = wrap32 z.
Proof. apply wrap32_small, wrap32_range. Qed.

Lemma pow2_le_mono (a b : nat) : (a <= b)%nat -> 2 ^ Z.of_nat a <= 2 ^ Z.of_nat b.
Proof. intros H. apply Z.pow_le_mono_r; lia. Qed.

Lemma pow2_pos (a : nat) : 0 < 2 ^ Z.of_nat a.
Proof. apply Z.pow_pos_nonneg; lia. Qed.

Lemma js_shl_exact a (k : nat) :
  (k < 32)%nat -> - 2 ^ 31 <= a < 2 ^ 31 ->
  - 2 ^ 31 <= a * 2 ^ Z.of_nat k < 2 ^ 31 ->
  js_shl a k = a * 2 ^ Z.of_nat k.
Proof.
  intros Hk Ha Hr. unfold js_shl.
  rewrite (Z.mod_small (Z.of_nat k)) by lia.
  by rewrite (wrap32_small a), wrap32_small.
Qed.

Lemma js_shl_1 (k : nat) : (k <= 30)%nat -> js_shl 1 k = 2 ^ Z.of_nat k.
Proof.
  intros Hk. pose proof (pow2_le_mono k 30 Hk). pose proof (pow2_pos k).
  rewrite js_shl_exact; lia.
Qed.

Lemma js_shl_255 (k : nat) : (k <= 23)%nat -> js_shl 255 k = 255 * 2 ^ Z.of_nat k.
Proof.
  intros Hk. pose proof (pow2_le_mono k 23 Hk). pose proof (pow2_pos k).
  rewrite js_shl_exact; lia.
Qed.

(** ** Masks on a byte *)

Lemma land_high_mask b k :
  0 <= k -> Z.land b (255 * 2 ^ k) = Z.land (b - b mod 2 ^ k) (Z.ones (k + 8)).
Proof.
  intros Hk.
  replace (b - b mod 2 ^ k) with (Z.shiftl (Z.shiftr b k) k).
  2:{ rewrite <- Z.ldiff_ones_r, Z.ldiff_land, <- Z.sub_land_same_l by lia.
      by rewrite Z.land_ones by lia. }
  change 255 with (Z.ones 8). rewrite <- Z.shiftl_mul_pow2 by lia.
  apply Z.bits_inj'. intros i Hi.
  rewrite !Z.land_spec, !Z.shiftl_spec, !Z.testbit_ones by lia.
  destruct (Z.leb_spec 0 (i - k)), (Z.ltb_spec (i - k) 8), (Z.leb_spec 0 i),
    (Z.ltb_spec i (k + 8)); try lia; rewrite ?andb_false_r; try done.
  - rewrite Z.shiftr_spec by lia. by replace (i - k + k) with i by lia.
  - by rewrite Z.testbit_neg_r by lia.
Qed.

Lemma lor_disjoint h v k :
  0 <= k -> 0 <= v < 2 ^ k -> Z.lor (h * 2 ^ k) v = h * 2 ^ k + v.
Proof.
  intros Hk Hv. symmetry. apply Z.add_nocarry_lor.
  rewrite <- Z.shiftl_mul_pow2 by lia.
  rewrite <- (Z.mod_small v (2 ^ k)), <- Z.land_ones by lia.
  apply Z.bits_inj'. intros i Hi. rewrite Z.land_spec, Z.bits_0.
  destruct (Z.lt_ge_cases i k).
  - by rewrite Z.shiftl_spec_low by lia.
  - rewrite Z.land_spec, Z.ones_spec_high by lia. by rewrite !andb_false_r.
Qed.

Section Byte.
Context (b : Z) (Hb : 0 <= b < 256).

Lemma js_and_byte_range m : 0 <= js_and b m <= b.
Proof using Hb.
  unfold js_and. rewrite (wrap32_small b) by lia. split.
  - apply Z.land_nonneg. lia.
  - destruct (decide (0 <= wrap32 m)) as [Hm|Hm].
    + pose proof (Z.add_lor_land b (wrap32 m)).
      pose proof (Z.lor_nonneg b (wrap32 m)).
      assert (wrap32 m <= Z.lor b (wrap32 m)); [|lia].
      rewrite Z.lor_comm. rewrite <- (Z.add_0_r (wrap32 m)) at 1.
      pose proof (Z.sub_lor_l_same_l b (wrap32 m)) as E.
      assert (0 <= Z.land b (Z.lnot (wrap32 m))) by (apply Z.land_nonneg; lia).
      lia.
    + pose proof (Z.sub_land_same_l b (wrap32 m)) as E.
      assert (0 <= Z.land b (Z.lnot (wrap32 m))) by (apply Z.land_nonneg; lia).
      lia.
Qed.

Lemma js_and_low (k : nat) :
  (k <= 30)%nat -> js_and b (js_shl 1 k - 1) = b mod 2 ^ Z.of_nat k.
Proof using Hb.
  intros Hk. pose proof (pow2_le_mono k 30 Hk). pose proof (pow2_pos k).
  unfold js_and. rewrite js_shl_1, !wrap32_small by lia.
  rewrite <- Z.land_ones by lia. by rewrite Z.ones_equiv, Z.sub_1_r.
Qed.

Lemma js_and_high (k : nat) :
  (k <= 23)%nat -> js_and b (js_shl 255 k) = b - b mod 2 ^ Z.of_nat k.
Proof using Hb.
  intros Hk. pose proof (pow2_le_mono k 23 Hk). pose proof (pow2_pos k).
  unfold js_and. rewrite js_shl_255, !wrap32_small by lia.
  rewrite land_high_mask, Z.land_ones by lia.
  pose proof (Z.mod_pos_bound b (2 ^ Z.of_nat k)).
  rewrite Z.mod_small; [done|].
  pose proof (Z.mod_le b (2 ^ Z.of_nat k)).
  rewrite Z.pow_add_r by lia. lia.
Qed.

Lemma high_part_multiple (k : nat) :
  b - b mod 2 ^ Z.of_nat k = b / 2 ^ Z.of_nat k * 2 ^ Z.of_nat k.
Proof. pose proof (pow2_pos k). rewrite Z.mod_eq by lia. lia. Qed.

Lemma set_low_range (k : nat) v :
  (k <= 8)%nat -> 0 <= v < 2 ^ Z.of_nat k -> 0 <= set_low k b v < 256.
Proof using Hb.
  intros Hk Hv. unfold set_low. rewrite high_part_multiple.
  pose proof (pow2_pos k) as Hp.
  assert (2 ^ Z.of_nat k * 2 ^ Z.of_nat (8 - k) = 256) as E.
  { rewrite <- Z.pow_add_r by lia. by replace (Z.of_nat k + Z.of_nat (8 - k)) with 8 by lia. }
  assert (0 <= b / 2 ^ Z.of_nat k) by (apply Z.div_pos; lia).
  assert (b / 2 ^ Z.of_nat k < 2 ^ Z.of_nat (8 - k)).
  { apply Z.div_lt_upper_bound; lia. }
  nia.
Qed.

Lemma js_or_set_low (k : nat) v :
  (k <= 8)%nat -> 0 <= v < 2 ^ Z.of_nat k ->
  js_or (js_and b (js_shl 255 k)) v = set_low k b v.
Proof using Hb.
  intros Hk Hv. pose proof (pow2_le_mono k 8 Hk).
  pose proof (set_low_range k 0 Hk ltac:(pose proof (pow2_pos k); lia)) as Hr.
  unfold set_low in *. rewrite js_and_high by lia.
  unfold js_or. rewrite !wrap32_small by lia.
  rewrite high_part_multiple. apply lor_disjoint; lia.
Qed.

End Byte.

Lemma set_low_mod (k : nat) b v :
  0 <= v < 2 ^ Z.of_nat k -> set_low k b v mod 2 ^ Z.of_nat k = v.
Proof.
  intros Hv. unfold set_low. rewrite high_part_multiple.
  rewrite Z.add_comm, Z.mod_add by lia. by apply Z.mod_small.
Qed.

Lemma set_low_div (k : nat) b v :
  0 <= v < 2 ^ Z.of_nat k -> set_low k b v / 2 ^ Z.of_nat k = b / 2 ^ Z.of_nat k.
Proof.
  intros Hv. unfold set_low. rewrite high_part_multiple.
  rewrite Z.add_comm, Z.div_add by lia. rewrite Z.div_small; lia.
Qed.

(** ** Clamped stores *)

(** ** Numbers that doubles hold exactly

    A JavaScript number is a double: [m * 2^-e] with a significand [m] of
    at most 53 bits.  On operands and results of this form the arithmetic
    of doubles is the arithmetic of rationals. *)
Definition double_exact (q : Q) : Prop :=
  exists (m : Z) (e : nat), Z.abs m < 2 ^ 53 /\ (e <= 1074)%nat
    /\ (q * inject_Z (2 ^ Z.of_nat e) == inject_Z m)%Q.

Lemma double_exact_intro (m : Z) (e : nat) q :
  Z.abs m < 2 ^ 53 -> (e <= 1074)%nat -> (q == inject_Z m / inject_Z (2 ^ Z.of_nat e))%Q ->
  double_exact q.
Proof.
  intros Hm He Hq. exists m, e. split_and!; [done..|]. rewrite Hq.
  field. intros E. pose proof (pow2_pos e). unfold Qeq in E. cbn in E. lia.
Qed.

#[export] Instance double_exact_proper : Proper (Qeq ==> iff) double_exact.
Proof.
  intros q q' Hq. unfold double_exact. by setoid_rewrite Hq.
Qed.

(** Two numbers that agree outside their [n] low bits differ by less than
    [2^n]. *)
Lemma ldiff_ones_close a b n :
  0 <= n -> Z.ldiff a (Z.ones n) = Z.ldiff b (Z.ones n) -> Z.abs (a - b) < 2 ^ n.
Proof.
  intros Hn. rewrite !Z.ldiff_ones_r, !Z.shiftl_mul_pow2, !Z.shiftr_div_pow2 by done.
  assert (0 < 2 ^ n) as Hp by (by apply Z.pow_pos_nonneg).
  intros E%Z.mul_cancel_r; [|lia].
  pose proof (Z.div_mod a (2 ^ n)). pose proof (Z.div_mod b (2 ^ n)).
  pose proof (Z.mod_pos_bound a (2 ^ n)). pose proof (Z.mod_pos_bound b (2 ^ n)). nia.
Qed.

Lemma clamp8_range z : 0 <= clamp8 z <= 255.
Proof. unfold clamp8. lia. Qed.

Lemma clamp8_id z : 0 <= z < 256 -> clamp8 z = z.
Proof. unfold clamp8. lia. Qed.

Lemma unsigned_store8 z : byte.unsigned (store8 z) = clamp8 z.
Proof.
  unfold store8. rewrite byte.unsigned_of_Z. unfold byte.wrap.
  pose proof (clamp8_range z). apply Z.mod_small. lia.
Qed.

Lemma byte_range (x : byte) : 0 <= byte.unsigned x < 256.
Proof. apply byte.unsigned_range. Qed.

#[export] Hint Resolve byte_range pow2_pos clamp8_range wrap32_range : steg.

(** ** Exact rationals *)

Lemma Qltb_lt x y : Qltb x y = true <-> (x < y)%Q.
Proof.
  unfold Qltb. rewrite negb_true_iff, <- not_true_iff_false, Qle_bool_iff.
  split; [apply Qnot_le_lt | apply Qlt_not_le].
Qed.

Lemma Qltb_inject a b : Qltb (inject_Z a) (inject_Z b) = (a <? b).
Proof.
  apply eq_true_iff_eq. rewrite Qltb_lt, <- Zlt_Qlt. symmetry. apply Z.ltb_lt.
Qed.

Lemma Qfloor_inject_div a b : Qfloor (inject_Z a / inject_Z b) = a / b.
Proof. symmetry. apply Zdiv_Qdiv. Qed.
