(* ===== verification/Canvas.v ===== *)
(** * Canvas: the data the codec works on (src/src/utils/steganography.ts)

    Images, canvases with their pixel buffer, the result record of
    [encodeLSB], the errors raised, [getImageData] with its exception on an
    empty canvas, the two small notions both walks share (the alpha test
    [(i + 1) % 4 === 0] and a numeric read of [data[i]]), and [opaque]
    buffers, whose alpha bytes are all 255. *)

From Stdlib Require Import ZArith Lia QArith Qround List.
From stdpp Require Import base tactics list numbers.
From coqutil Require Import Byte.
From S2P Require Import Prelude BinStr JsNum.

#[local] Open Scope Z_scope.

(** ** Data *)

(** A decoded raster image: what an [HTMLImageElement] or a PNG data URL
    holds.  PNG serialisation is lossless, so a data URL is identified with
    the image it encodes. *)
Record Image : Type := {
  img_width : nat;
  img_height : nat;
  img_pixels : list byte
}.

(** An [HTMLCanvasElement]: its size, whether [getContext('2d')] yields a
    context, and the RGBA bytes [getImageData(0, 0, width, height).data]
    returns (row-major, four bytes per pixel). *)
Record Canvas : Type := {
  width : nat;
  height : nat;
  context2d : bool;
  pixels : list byte
}.

Record SteganoResult : Type := {
  dataUrl : Image;
  capacity : Z;
  messageLength : nat
}.

(** The errors the two functions raise: one constructor per [throw], and
    the [IndexSizeError] exception [getImageData] raises on an empty
    rectangle. *)
Inductive Error : Type :=
| NoCanvasContext
| IndexSizeError
| ImageTooSmall
| NoValidMessage
| EndedPrematurely.

#[export] Instance byte_eq_decision : EqDecision byte := Byte.byte_eq_dec.

#[export] Instance Image_eq_dec : EqDecision Image.
Proof. solve_decision. Defined.

#[export] Instance Canvas_eq_dec : EqDecision Canvas.
Proof. solve_decision. Defined.

#[export] Instance Error_eq_dec : EqDecision Error.
Proof. solve_decision. Defined.

(** A string is the list of its UTF-16 code units. *)
Definition jsstring : Type := list Z.

Definition wf_canvas (c : Canvas) : Prop :=
  length (pixels c) = (4 * (width c * height c))%nat.

(** [ctx.getImageData(0, 0, canvas.width, canvas.height).data]: the call
    raises when the width or the height is zero. *)
Definition is_empty (c : Canvas) : bool := (width c =? 0)%nat || (height c =? 0)%nat.

Definition getImageData (c : Canvas) : result Error (list byte) :=
  if is_empty c then Throw IndexSizeError else Ok (pixels c).

Definition putImageData (c : Canvas) (data : list byte) : Canvas :=
  {| width := width c; height := height c; context2d := context2d c; pixels := data |}.

Definition toDataURL (c : Canvas) : Image :=
  {| img_width := width c; img_height := height c; img_pixels := pixels c |}.

(** [data[i]] read as a number: an index out of range gives [undefined],
    which the integer operators convert to 0. *)
Definition byte_at (data : list byte) (i : nat) : Z :=
  match data !! i with
  | Some b => byte.unsigned b
  | None => 0
  end.

(** The alpha test of both walks: [(i + 1) % 4 === 0]. *)
Definition is_alpha (i : nat) : bool := ((i + 1) mod 4 =? 0)%nat.

(** Number of colour (non-alpha) bytes among the indices [i, i + n). *)
Fixpoint colour_count (i n : nat) : nat :=
  match n with
  | O => O
  | S n' => (if is_alpha i then 0 else 1) + colour_count (S i) n'
  end.

(** Every pixel of the buffer has the alpha value [v]: the fourth byte of
    each group of four is [v].  A buffer is opaque when every alpha byte is
    255 and transparent when every alpha byte is 0. *)
Fixpoint alpha_all (v : Z) (data : list byte) : bool :=
  match data with
  | _ :: _ :: _ :: a :: rest => (byte.unsigned a =? v) && alpha_all v rest
  | _ => true
  end.

Definition opaque (data : list byte) : bool := alpha_all 255 data.

Definition transparent (data : list byte) : bool := alpha_all 0 data.

(** Latin-1 strings: every code unit is below 256. *)
Definition latin1 (s : jsstring) : Prop := Forall (fun c => 0 <= c < 256) s.

Definition zero_canvas (w h : nat) : Canvas :=
  {| width := w; height := h; context2d := true;
     pixels := replicate (4 * (w * h)) Byte.x00 |}.

(** ** Lemmas *)

Lemma is_alpha_true i : is_alpha i = true <-> (i mod 4 = 3)%nat.
Proof.
  unfold is_alpha. rewrite Nat.eqb_eq.
  pose proof (Nat.Div0.add_mod i 1 4) as E.
  pose proof (Nat.mod_upper_bound i 4 ltac:(lia)) as B.
  change (1 mod 4)%nat with 1%nat in E. rewrite E.
  destruct (decide (i mod 4 = 3)%nat) as [->|]; [by split|].
  rewrite Nat.mod_small by lia. lia.
Qed.

Lemma is_alpha_false i : is_alpha i = false <-> (i mod 4 <> 3)%nat.
Proof. rewrite <- is_alpha_true. by destruct (is_alpha i). Qed.

Lemma is_alpha_add4 i : is_alpha (i + 4) = is_alpha i.
Proof.
  apply eq_true_iff_eq. rewrite !is_alpha_true.
  replace (i + 4)%nat with (i + 1 * 4)%nat by lia. by rewrite Nat.Div0.mod_add.
Qed.

Lemma byte_at_range data i : 0 <= byte_at data i < 256.
Proof. unfold byte_at. destruct (data !! i); [apply byte_range | lia]. Qed.

Lemma byte_at_lookup data i b : data !! i = Some b -> byte_at data i = byte.unsigned b.
Proof. unfold byte_at. by intros ->. Qed.

Lemma wf_zero_canvas w h : wf_canvas (zero_canvas w h).
Proof. unfold wf_canvas. simpl. by rewrite length_replicate. Qed.

Lemma wf_putImageData c data :
  wf_canvas c -> length data = length (pixels c) -> wf_canvas (putImageData c data).
Proof. unfold wf_canvas. simpl. congruence. Qed.

Lemma is_empty_false c : is_empty c = false <-> (0 < width c * height c)%nat.
Proof.
  unfold is_empty. rewrite orb_false_iff, !Nat.eqb_neq. nia.
Qed.

Lemma is_empty_putImageData c data : is_empty (putImageData c data) = is_empty c.
Proof. done. Qed.

Lemma getImageData_ok c : is_empty c = false -> getImageData c = Ok (pixels c).
Proof. unfold getImageData. by intros ->. Qed.

#[export] Hint Resolve wf_zero_canvas wf_putImageData byte_at_range : steg.

Lemma colour_count_closed n : forall i,
  (colour_count i n + (i + n) / 4 = n + i / 4)%nat.
Proof.
  induction n as [|n IH]; intros i; cbn [colour_count].
  - by rewrite Nat.add_0_r.
  - specialize (IH (S i)). replace (S i + n)%nat with (i + S n)%nat in IH by lia.
    destruct (is_alpha i) eqn:Ha.
    + apply is_alpha_true in Ha.
      assert (S i / 4 = S (i / 4))%nat; [|lia].
      pose proof (Nat.div_mod_eq i 4). pose proof (Nat.div_mod_eq (S i) 4).
      pose proof (Nat.mod_upper_bound (S i) 4). lia.
    + apply is_alpha_false in Ha.
      assert (S i / 4 = i / 4)%nat; [|lia].
      pose proof (Nat.div_mod_eq i 4). pose proof (Nat.div_mod_eq (S i) 4).
      pose proof (Nat.mod_upper_bound (S i) 4). pose proof (Nat.mod_upper_bound i 4). lia.
Qed.

Lemma colour_count_0 n : colour_count 0 n = (n - n / 4)%nat.
Proof.
  pose proof (colour_count_closed n 0) as H.
  change (0 / 4)%nat with 0%nat in H. rewrite Nat.add_0_l in H. lia.
Qed.

Lemma colour_count_pixels p : colour_count 0 (4 * p) = (3 * p)%nat.
Proof.
  rewrite colour_count_0. replace (4 * p)%nat with (p * 4)%nat by lia.
  rewrite Nat.div_mul by lia. lia.
Qed.


(** ** Buffers of one alpha value *)

Lemma is_alpha_small i : (i < 3)%nat -> is_alpha i = false.
Proof. intros Hi. apply is_alpha_false. rewrite Nat.mod_small; lia. Qed.

Section Alpha.
Context (v : Z).

(** [alpha_all v] says that every alpha byte is [v]. *)
Lemma alpha_all_alpha data :
  alpha_all v data = true <->
  forall i, is_alpha i = true -> (i < length data)%nat -> byte_at data i = v.
Proof.
  induction data as [l Hl|a b c d l IH] using list_ind4.
  - split.
    + intros _ i Ha Hi. rewrite is_alpha_small in Ha by lia. done.
    + intros _. by destruct l as [|? [|? [|? [|? ?]]]]; cbn in Hl; try lia.
  - cbn [alpha_all]. rewrite andb_true_iff, Z.eqb_eq, IH. split.
    + intros [Hd Hrest] i Ha Hi. destruct (decide (i < 4)%nat) as [Hlt|Hge].
      * destruct (decide (i = 3%nat)) as [->|]; [done|]. rewrite is_alpha_small in Ha by lia. done.
      * replace i with (i - 4 + 4)%nat in Ha |- * by lia. rewrite is_alpha_add4 in Ha.
        replace (i - 4 + 4)%nat with (4 + (i - 4))%nat by lia.
        apply (Hrest (i - 4)%nat Ha). cbn in Hi. lia.
    + intros Hall. split; [apply (Hall 3%nat); [done | cbn; lia]|].
      intros i Ha Hi. apply (Hall (4 + i)%nat); [|cbn; lia].
      by rewrite Nat.add_comm, is_alpha_add4.
Qed.

(** Two buffers with the same alpha bytes have one alpha value together. *)
Lemma alpha_all_ext data data' :
  length data = length data' ->
  (forall i, is_alpha i = true -> data !! i = data' !! i) ->
  alpha_all v data = alpha_all v data'.
Proof.
  intros Hlen Hsame. apply eq_true_iff_eq. rewrite !alpha_all_alpha.
  unfold byte_at. split; intros Hall i Ha Hi.
  - rewrite <- Hsame by done. apply Hall; [done | lia].
  - rewrite Hsame by done. apply Hall; [done | lia].
Qed.

Lemma alpha_all_app l r :
  (length l mod 4 = 0)%nat -> alpha_all v (l ++ r) = alpha_all v l && alpha_all v r.
Proof.
  induction l as [l Hl|a b c d l IH] using list_ind4; intros Hm.
  - rewrite Nat.mod_small in Hm by done. by destruct l.
  - cbn [Datatypes.app alpha_all]. rewrite IH, andb_assoc; [done|].
    cbn [length] in Hm. replace (S (S (S (S (length l))))) with (length l + 1 * 4)%nat in Hm by lia.
    by rewrite Nat.Div0.mod_add in Hm.
Qed.

Lemma alpha_all_flat_map {A : Type} (f : A -> list byte) (l : list A) :
  (forall a, In a l -> (length (f a) mod 4 = 0)%nat /\ alpha_all v (f a) = true) ->
  alpha_all v (flat_map f l) = true.
Proof.
  induction l as [|a l IH]; intros Hf; [done|]. cbn [flat_map].
  destruct (Hf a ltac:(by left)) as [Hm Ho].
  rewrite alpha_all_app, Ho by done. apply IH. intros a' Ha'. apply Hf. by right.
Qed.

Lemma alpha_all_take4 data : alpha_all v data = true -> alpha_all v (take 4 data) = true.
Proof.
  destruct data as [|a [|b [|c [|d l]]]]; try done. cbn.
  intros [-> _]%andb_true_iff. done.
Qed.

Lemma alpha_all_drop data : forall n,
  alpha_all v data = true -> alpha_all v (drop (4 * n) data) = true.
Proof.
  induction data as [l Hl|a b c d l IH] using list_ind4; intros n.
  - intros _. destruct n as [|n]; [by destruct l as [|? [|? [|? [|? ?]]]]; cbn in Hl; try lia|].
    by rewrite drop_ge by lia.
  - destruct n as [|n]; [done|]. cbn [alpha_all]. intros [_ Hrest]%andb_true_iff.
    replace (4 * S n)%nat with (4 + 4 * n)%nat by lia. by apply IH.
Qed.

Lemma alpha_all_replicate (x : byte) n :
  byte.unsigned x = v -> alpha_all v (replicate (4 * n) x) = true.
Proof.
  intros Hx. induction n as [|n IH]; [done|].
  replace (4 * S n)%nat with (4 + 4 * n)%nat by lia. cbn [replicate Nat.add alpha_all].
  by rewrite Hx, Z.eqb_refl, IH.
Qed.

End Alpha.

Lemma opaque_replicate n : opaque (replicate (4 * n) Byte.xff) = true.
Proof. by apply alpha_all_replicate. Qed.
