(* ===== verification/JsString.v ===== *)
(** * JsString: string literals and template literals

    A string of the program is the list of its UTF-16 code units
    ([jsstring] of [Canvas]).  This file gives the literals of the source
    their code units ([units]; all literals are ASCII), an integer inside
    a template literal its decimal digits ([decimal]), and holds the one
    template literal that names something: [downloadName], the name of
    the file a download saves.  The lemmas show that literals and decimal
    numbers are read back from their code units. *)

From Stdlib Require Import ZArith Lia List String Ascii.
From stdpp Require Import base tactics list numbers pretty.
From S2P Require Import Prelude Canvas.

#[local] Open Scope Z_scope.

(** The code units of a string literal of the source (all its literals are
    ASCII). *)
Definition units (s : string) : jsstring :=
  map (fun c => Z.of_nat (nat_of_ascii c)) (list_ascii_of_string s).

(** A number that is an integer, inside a template literal: its decimal
    digits, with a minus sign when negative. *)
Definition decimal (z : Z) : jsstring := units (pretty z).

(** [`stega_image_${Date.now()}.png`]. *)
Definition downloadName (now : Z) : jsstring :=
  units "stega_image_" ++ decimal now ++ units ".png".

(** ** Reading literals back *)

Lemma units_app s1 s2 : units (s1 ++ s2) = units s1 ++ units s2.
Proof.
  unfold units. induction s1 as [|c s1 IH]; [done|]. cbn. by rewrite <- IH.
Qed.

#[export] Instance units_inj : Inj (=) (=) units.
Proof.
  intros s1. induction s1 as [|c1 s1 IH]; intros [|c2 s2]; try done.
  unfold units. cbn. intros [= Hc Hs].
  apply Nat2Z.inj in Hc. rewrite <- (ascii_nat_embedding c1), <- (ascii_nat_embedding c2), Hc.
  f_equal. by apply IH.
Qed.

#[export] Instance decimal_inj : Inj (=) (=) decimal.
Proof. intros z1 z2 H. by apply (inj pretty), (inj units). Qed.

Lemma units_nonempty c s : units (String c s) <> [].
Proof. done. Qed.

(** Downloads at different instants get different names, and every
    name ends in [.png]. *)
Theorem downloadName_identifies now1 now2 :
  (downloadName now1 = downloadName now2 -> now1 = now2)
  /\ units ".png" `suffix_of` downloadName now1.
Proof.
  split.
  - unfold downloadName. by intros ->%app_inv_head%app_inv_tail%(inj decimal).
  - unfold downloadName. rewrite app_assoc. by apply suffix_app_r.
Qed.
