(* ===== verification/Encode.v ===== *)
(** * Encode: [encodeLSB] and [stringToBin] (src/src/utils/steganography.ts)

    [encodeLSB] is modelled statement by statement; its [for] loop is the
    fuelled fixpoint [encode_loop] over the loop state [(data, bitIndex)],
    updating the buffer in place with stdpp's list insert.  [embed] is the
    structural reference definition of the same walk.  The theorems show
    that the loop computes [embed], what [embed] does to every byte of the
    buffer, and the shape of the frame that is written. *)

From Stdlib Require Import ZArith Lia QArith Qround List.
From stdpp Require Import base tactics list numbers.
From coqutil Require Import Byte.
From S2P Require Import Prelude BinStr JsNum Canvas.

#[local] Open Scope Z_scope.
#[local] Open Scope steg_scope.

(** ** The source's definitions *)

Definition stringToBin (str : jsstring) : bitstring :=
  concat (map (fun char => padStart 8 false (toString2 char)) str).

(** The new value of a colour byte: [(data[i] & mask) | valueToHide] with
    [valueToHide = parseInt(bitsToHide.padEnd(bitsPerChannel, '0'), 2)],
    written into the clamped array. *)
Definition hide (k : nat) (mask : Z) (old : Z) (bitsToHide : bitstring) : byte :=
  let valueToHide := parseInt2 (padEnd k false bitsToHide) in
  store8 (js_or (js_and old mask) (toInt32 valueToHide)).

(** One iteration of the [for] loop body at index [i], on the loop state
    [(data, bitIndex)]. *)
Definition encode_body (k : nat) (fullBinary : bitstring) (mask : Z) (i : nat)
    (st : list byte * nat) : list byte * nat :=
  let '(data, bitIndex) := st in
  if is_alpha i then (data, bitIndex)
  else
    let bitsToHide := substring fullBinary bitIndex (bitIndex + k) in
    (<[i := hide k mask (byte_at data i) bitsToHide]> data, (bitIndex + k)%nat).

(** The [for] loop from index [i]: every iteration increments [i], so
    [length data - i] units of fuel let it run to its exit. *)
Fixpoint encode_loop (fuel : nat) (k : nat) (fullBinary : bitstring) (mask : Z)
    (i : nat) (st : list byte * nat) : list byte * nat :=
  match fuel with
  | O => st
  | S fuel' =>
      if (i <? length (fst st))%nat && (snd st <? length fullBinary)%nat
      then encode_loop fuel' k fullBinary mask (S i) (encode_body k fullBinary mask i st)
      else st
  end.

Definition lengthHeader (message : jsstring) : bitstring :=
  padStart 32 false (toString2 (Z.of_nat (length message))).

Definition fullBinary (message : jsstring) : bitstring :=
  lengthHeader message ++ stringToBin message.

Definition encode_capacity (data : list byte) (k : nat) : Z :=
  Qfloor (inject_Z (Z.of_nat (length data)) * 3 / 4 * inject_Z (Z.of_nat k) / 8).

Definition encodeLSB (canvas : Canvas) (message : jsstring) (bitsPerChannel : nat)
    : result Error (Canvas * SteganoResult) :=
  if negb (context2d canvas) then Throw NoCanvasContext
  else
    let! data := getImageData canvas in
    let mask := js_shl 255 bitsPerChannel in
    let st := encode_loop (length data) bitsPerChannel (fullBinary message) mask 0 (data, 0%nat) in
    let canvas' := putImageData canvas (fst st) in
    Ok (canvas',
        {| dataUrl := toDataURL canvas';
           capacity := encode_capacity data bitsPerChannel;
           messageLength := length message |}).

(** ** Reference definitions *)

(** Embedding of a bit sequence by recursion on the buffer; [i] is the index
    of the head byte in the whole buffer. *)
Fixpoint embed (k : nat) (mask : Z) (i : nat) (bits : bitstring) (data : list byte)
    : list byte :=
  match data with
  | [] => []
  | b :: rest =>
      match bits with
      | [] => data
      | _ =>
          if is_alpha i then b :: embed k mask (S i) bits rest
          else hide k mask (byte.unsigned b) (take k bits)
                 :: embed k mask (S i) (drop k bits) rest
      end
  end.

(** The pixels [encodeLSB] leaves in the canvas. *)
Definition encoded_pixels (canvas : Canvas) (message : jsstring) (k : nat) : list byte :=
  embed k (js_shl 255 k) 0 (fullBinary message) (pixels canvas).

(** ** The loop computes [embed] *)

Lemma embed_nil k mask i data : embed k mask i [] data = data.
Proof. by destruct data. Qed.

Lemma length_embed k mask i bits data : length (embed k mask i bits data) = length data.
Proof.
  revert i bits. induction data as [|b rest IH]; intros i bits; [done|].
  destruct bits; [done|]. cbn [embed]. destruct (is_alpha i); simpl; by rewrite IH.
Qed.

#[export] Hint Rewrite length_embed : steg_len.

Lemma wf_encoded c m k : wf_canvas c -> wf_canvas (putImageData c (encoded_pixels c m k)).
Proof. intros H. apply wf_putImageData; [done | apply length_embed]. Qed.

#[export] Hint Resolve wf_encoded : steg.

Lemma encode_body_alpha k fb mask i st :
  is_alpha i = true -> encode_body k fb mask i st = st.
Proof. intros H. destruct st. unfold encode_body. by rewrite H. Qed.

Lemma encode_body_colour k fb mask i data bitIndex b :
  is_alpha i = false -> data !! i = Some b ->
  encode_body k fb mask i (data, bitIndex)
  = (<[i := hide k mask (byte.unsigned b) (take k (drop bitIndex fb))]> data,
     (bitIndex + k)%nat).
Proof.
  intros Ha Hb. unfold encode_body. rewrite Ha, (byte_at_lookup _ _ _ Hb).
  rewrite substring_take_drop by lia. do 4 f_equal. lia.
Qed.

Lemma embed_step k mask i bits data b :
  bits <> [] -> data !! i = Some b ->
  take i data ++ embed k mask i bits (drop i data)
  = if is_alpha i
    then take (S i) data ++ embed k mask (S i) bits (drop (S i) data)
    else take (S i) (<[i := hide k mask (byte.unsigned b) (take k bits)]> data)
         ++ embed k mask (S i) (drop k bits) (drop (S i) (<[i := hide k mask (byte.unsigned b) (take k bits)]> data)).
Proof.
  intros Hbits Hb. pose proof (lookup_lt_Some _ _ _ Hb) as Hlt.
  rewrite (drop_S _ _ _ Hb). destruct bits as [|c bits]; [done|]. cbn [embed].
  destruct (is_alpha i).
  - rewrite (take_S_r _ _ _ Hb), <- app_assoc. done.
  - rewrite drop_insert_lt by lia.
    erewrite take_S_r by (by apply list_lookup_insert_eq).
    rewrite take_insert_ge by lia. by rewrite <- app_assoc.
Qed.

Lemma encode_loop_embed k fb mask fuel : forall i data bitIndex,
  (length data - i <= fuel)%nat ->
  fst (encode_loop fuel k fb mask i (data, bitIndex))
  = take i data ++ embed k mask i (drop bitIndex fb) (drop i data).
Proof.
  induction fuel as [|fuel IH]; intros i data bitIndex Hfuel; cbn [encode_loop fst snd].
  - rewrite (take_ge data), (drop_ge data) by lia. simpl. by rewrite app_nil_r.
  - destruct (Nat.ltb_spec i (length data)) as [Hi|Hi]; cbn [andb].
    2:{ rewrite (take_ge data), (drop_ge data) by lia. simpl. by rewrite app_nil_r. }
    destruct (Nat.ltb_spec bitIndex (length fb)) as [Hb|Hb].
    2:{ rewrite (drop_ge fb) by lia. by rewrite embed_nil, take_drop. }
    destruct (lookup_lt_is_Some_2 data i Hi) as [b Hlk].
    assert (drop bitIndex fb <> []) as Hne.
    { intros E%(f_equal length). rewrite length_drop in E. simpl in E. lia. }
    rewrite (embed_step _ _ _ _ _ _ Hne Hlk).
    destruct (is_alpha i) eqn:Ha.
    + rewrite encode_body_alpha by done. apply IH. lia.
    + rewrite (encode_body_colour _ _ _ _ _ _ _ Ha Hlk), IH by (rewrite length_insert; lia).
      by rewrite drop_drop.
Qed.

Lemma encodeLSB_ok canvas message k :
  context2d canvas = true -> is_empty canvas = false ->
  encodeLSB canvas message k
  = Ok (putImageData canvas (encoded_pixels canvas message k),
        {| dataUrl := toDataURL (putImageData canvas (encoded_pixels canvas message k));
           capacity := encode_capacity (pixels canvas) k;
           messageLength := length message |}).
Proof.
  intros Hc He. unfold encodeLSB, encoded_pixels.
  rewrite Hc, getImageData_ok by done. cbn [negb bind].
  by rewrite encode_loop_embed by lia.
Qed.

Lemma encodeLSB_no_context canvas message k :
  context2d canvas = false -> encodeLSB canvas message k = Throw NoCanvasContext.
Proof. intros Hc. unfold encodeLSB. by rewrite Hc. Qed.

Lemma encodeLSB_empty canvas message k :
  context2d canvas = true -> is_empty canvas = true ->
  encodeLSB canvas message k = Throw IndexSizeError.
Proof. intros Hc He. unfold encodeLSB, getImageData. by rewrite Hc, He. Qed.

(** ** What [hide] does to one byte *)

Lemma length_padEnd_take {A} (k : nat) (c : A) (l : list A) :
  length (padEnd k c (take k l)) = k.
Proof. solve_len. Qed.

Lemma bin_value_chunk_range (k : nat) chunk :
  (length chunk <= k)%nat -> 0 <= bin_value (padEnd k false chunk) < 2 ^ Z.of_nat k.
Proof.
  intros H. pose proof (bin_value_range (padEnd k false chunk)) as R.
  rewrite length_padEnd in R. by replace (Nat.max k (length chunk)) with k in R by lia.
Qed.

Lemma toInt32_parseInt2_chunk (k : nat) chunk :
  (k <= 8)%nat -> (length chunk <= k)%nat ->
  toInt32 (parseInt2 (padEnd k false chunk)) = bin_value (padEnd k false chunk).
Proof.
  intros Hk Hc. pose proof (bin_value_chunk_range k chunk Hc) as R.
  pose proof (pow2_le_mono k 8 Hk).
  destruct (padEnd k false chunk) eqn:E; [done|].
  cbn [parseInt2 toInt32]. apply wrap32_small. lia.
Qed.

Lemma hide_set_low (k : nat) b chunk :
  (k <= 8)%nat -> (length chunk <= k)%nat -> 0 <= b < 256 ->
  byte.unsigned (hide k (js_shl 255 k) b chunk)
  = set_low k b (bin_value (padEnd k false chunk)).
Proof.
  intros Hk Hc Hb. pose proof (bin_value_chunk_range k chunk Hc) as R.
  unfold hide. rewrite unsigned_store8, toInt32_parseInt2_chunk by done.
  rewrite js_or_set_low by done. apply clamp8_id. by apply set_low_range.
Qed.

Lemma ldiff_ones_div a (k : nat) :
  Z.ldiff a (Z.ones (Z.of_nat k)) = a / 2 ^ Z.of_nat k * 2 ^ Z.of_nat k.
Proof.
  rewrite Z.ldiff_ones_r, Z.shiftl_mul_pow2, Z.shiftr_div_pow2 by lia. done.
Qed.

Lemma hide_upper_bits (k : nat) b chunk :
  (k <= 8)%nat -> (length chunk <= k)%nat -> 0 <= b < 256 ->
  Z.ldiff (byte.unsigned (hide k (js_shl 255 k) b chunk)) (Z.ones (Z.of_nat k))
  = Z.ldiff b (Z.ones (Z.of_nat k)).
Proof.
  intros Hk Hc Hb. rewrite hide_set_low, !ldiff_ones_div by done.
  by rewrite set_low_div by (by apply bin_value_chunk_range).
Qed.

Lemma hide_low_bits (k : nat) b chunk :
  (k <= 8)%nat -> (length chunk <= k)%nat -> 0 <= b < 256 ->
  byte.unsigned (hide k (js_shl 255 k) b chunk) mod 2 ^ Z.of_nat k
  = bin_value (padEnd k false chunk).
Proof.
  intros Hk Hc Hb. rewrite hide_set_low by done.
  apply set_low_mod. by apply bin_value_chunk_range.
Qed.

(** ** What [embed] does to the buffer *)

Lemma embed_alpha_lookup k mask data : forall i bits n,
  is_alpha (i + n) = true -> embed k mask i bits data !! n = data !! n.
Proof.
  induction data as [|b rest IH]; intros i bits n Ha; [done|].
  destruct bits as [|c bits]; [done|]. cbn [embed].
  destruct n as [|n].
  - rewrite Nat.add_0_r in Ha. by rewrite Ha.
  - replace (i + S n)%nat with (S i + n)%nat in Ha by lia.
    destruct (is_alpha i); simpl; by apply IH.
Qed.

(** The encoded buffer has the alpha values of the buffer it was made
    from: it is as opaque, and as transparent. *)
Lemma encoded_alpha v c m k :
  alpha_all v (encoded_pixels c m k) = alpha_all v (pixels c).
Proof.
  unfold encoded_pixels. apply alpha_all_ext; [apply length_embed|].
  intros i Ha. by apply embed_alpha_lookup.
Qed.

Lemma encoded_opaque c m k : opaque (encoded_pixels c m k) = opaque (pixels c).
Proof. apply encoded_alpha. Qed.

Lemma embed_upper_bits (k : nat) data : forall i bits n,
  (k <= 8)%nat ->
  Z.ldiff (byte_at (embed k (js_shl 255 k) i bits data) n) (Z.ones (Z.of_nat k))
  = Z.ldiff (byte_at data n) (Z.ones (Z.of_nat k)).
Proof.
  induction data as [|b rest IH]; intros i bits n Hk; [done|].
  destruct bits as [|c bits]; [done|]. cbn [embed].
  destruct (is_alpha i), n as [|n]; try done; unfold byte_at in *; simpl;
    try (by apply IH).
  apply hide_upper_bits; [done|solve_len|auto with steg].
Qed.

Lemma embed_drop_untouched k mask : forall n i bits data,
  (length bits <= k * colour_count i n)%nat ->
  drop n (embed k mask i bits data) = drop n data.
Proof.
  induction n as [|n IH]; intros i bits data Hlen.
  - simpl in Hlen. destruct bits; [|simpl in Hlen; lia]. by rewrite embed_nil.
  - destruct data as [|b rest]; [done|]. destruct bits as [|c bits]; [done|].
    cbn [embed colour_count] in *. destruct (is_alpha i); simpl; apply IH.
    + simpl in *. lia.
    + simpl in *. solve_len.
Qed.

(** ** Shape of the frame *)

Lemma length_lengthHeader message :
  Z.of_nat (length message) < 2 ^ 32 -> length (lengthHeader message) = 32%nat.
Proof. intros H. unfold lengthHeader. by apply length_padStart_toString2; [lia|]. Qed.

Lemma lengthHeader_be_bits message :
  Z.of_nat (length message) < 2 ^ 32 ->
  lengthHeader message = be_bits 32 (Z.of_nat (length message)).
Proof.
  intros H. unfold lengthHeader. apply padStart_toString2_be_bits; [lia|].
  split; [lia | done].
Qed.

Lemma stringToBin_cons c s :
  stringToBin (c :: s) = padStart 8 false (toString2 c) ++ stringToBin s.
Proof. reflexivity. Qed.

Lemma stringToBin_latin1 s :
  latin1 s -> stringToBin s = concat (map (be_bits 8) s).
Proof.
  induction 1 as [|c s Hc _ IH]; [done|].
  rewrite stringToBin_cons, IH. cbn [map concat]. f_equal.
  by apply padStart_toString2_be_bits; [lia|].
Qed.

Lemma length_stringToBin s : latin1 s -> length (stringToBin s) = (8 * length s)%nat.
Proof.
  intros H. rewrite stringToBin_latin1 by done.
  induction s as [|c s IH]; [done|]. inv H.
  cbn [map concat length]. rewrite length_app, length_be_bits, IH by done. lia.
Qed.

Lemma length_fullBinary message :
  latin1 message -> Z.of_nat (length message) < 2 ^ 32 ->
  length (fullBinary message) = (32 + 8 * length message)%nat.
Proof.
  intros Hl Hn. unfold fullBinary.
  by rewrite length_app, length_lengthHeader, length_stringToBin.
Qed.

(** ** Fuel *)

Lemma length_encode_body k fb mask i st :
  length (fst (encode_body k fb mask i st)) = length (fst st).
Proof.
  destruct st as [data bitIndex]. unfold encode_body.
  destruct (is_alpha i); cbn [fst]; [done | apply length_insert].
Qed.

Lemma encode_loop_fuel_S k fb mask fuel : forall i st,
  (length (fst st) - i <= fuel)%nat ->
  encode_loop (S fuel) k fb mask i st = encode_loop fuel k fb mask i st.
Proof.
  induction fuel as [|fuel IH]; intros i st Hfuel.
  - cbn [encode_loop]. destruct (Nat.ltb_spec i (length (fst st))); [lia | done].
  - change (encode_loop (S (S fuel)) k fb mask i st)
      with (if (i <? length (fst st))%nat && (snd st <? length fb)%nat
            then encode_loop (S fuel) k fb mask (S i) (encode_body k fb mask i st) else st).
    cbn [encode_loop]. destruct (_ && _); [|done].
    apply IH. rewrite length_encode_body. lia.
Qed.

Lemma encode_loop_fuel_ge k fb mask i st fuel :
  (length (fst st) - i <= fuel)%nat ->
  encode_loop fuel k fb mask i st = encode_loop (length (fst st) - i) k fb mask i st.
Proof.
  intros H. replace fuel with ((fuel - (length (fst st) - i)) + (length (fst st) - i))%nat by lia.
  induction (fuel - (length (fst st) - i))%nat as [|d IH]; [done|].
  cbn [Nat.add]. rewrite encode_loop_fuel_S by lia. exact IH.
Qed.

(** ** Properties of [encodeLSB] *)

Lemma encodeLSB_inv c m k c' r :
  encodeLSB c m k = Ok (c', r) ->
  context2d c = true /\ is_empty c = false
  /\ c' = putImageData c (encoded_pixels c m k)
  /\ r = {| dataUrl := toDataURL c'; capacity := encode_capacity (pixels c) k;
            messageLength := length m |}.
Proof.
  intros H. destruct (context2d c) eqn:Hc; [|by rewrite encodeLSB_no_context in H].
  destruct (is_empty c) eqn:He; [by rewrite encodeLSB_empty in H|].
  rewrite encodeLSB_ok in H by done. by inv H.
Qed.

(** C4. Alpha channel untouched: whatever the bit depth and the message,
    [encodeLSB] leaves every byte at an index [i] with [(i + 1) mod 4 = 0]
    as it was. *)
Theorem encodeLSB_alpha_untouched c m k c' r i :
  encodeLSB c m k = Ok (c', r) -> is_alpha i = true ->
  pixels c' !! i = pixels c !! i.
Proof.
  intros (_ & _ & -> & _)%encodeLSB_inv Ha. cbn [putImageData pixels].
  by apply embed_alpha_lookup.
Qed.

(** C5. Non-destructive upper bits: for a bit depth [k <= 8], at every
    index the encoded byte and the original byte agree outside their [k]
    low bits ([b & ~(2^k - 1)] is unchanged), so no channel value moves by
    [2^k] or more. *)
Theorem encodeLSB_upper_bits c m k c' r i :
  (k <= 8)%nat -> encodeLSB c m k = Ok (c', r) ->
  Z.ldiff (byte_at (pixels c') i) (Z.ones (Z.of_nat k))
  = Z.ldiff (byte_at (pixels c) i) (Z.ones (Z.of_nat k))
  /\ Z.abs (byte_at (pixels c') i - byte_at (pixels c) i) < 2 ^ Z.of_nat k.
Proof.
  intros Hk (_ & _ & -> & _)%encodeLSB_inv. cbn [putImageData pixels].
  split; [by apply embed_upper_bits | apply ldiff_ones_close; [lia | by apply embed_upper_bits]].
Qed.

(** C37. Writing stops with the frame: once the first [n] bytes of the
    buffer hold enough colour bytes for every bit of the frame
    ([k * colour_count 0 n] bits), all bytes from index [n] on are left as
    they were. *)
Theorem encodeLSB_tail_untouched c m k c' r n :
  encodeLSB c m k = Ok (c', r) ->
  (length (fullBinary m) <= k * colour_count 0 n)%nat ->
  drop n (pixels c') = drop n (pixels c).
Proof.
  intros (_ & _ & -> & _)%encodeLSB_inv Hn. cbn [putImageData pixels].
  by apply embed_drop_untouched.
Qed.

(** C11. The [for] loop of [encodeLSB] with its in-place writes computes the
    structural walk [embed]: started at index [i] with [bitIndex] bits
    consumed and at least [length data - i] units of fuel, it leaves the
    first [i] bytes alone and embeds the remaining bits in the rest. *)
Theorem encode_loop_refines_embed k fb mask fuel i data bitIndex :
  (length data - i <= fuel)%nat ->
  fst (encode_loop fuel k fb mask i (data, bitIndex))
  = take i data ++ embed k mask i (drop bitIndex fb) (drop i data).
Proof. apply encode_loop_embed. Qed.

(** C38. The fuel of the [for] loop is enough: any amount of fuel of at
    least [length data - i] gives the same final state, so the loop of
    [encodeLSB], run with [length data] units from index 0, stops because
    its condition fails and not because fuel ran out. *)
Theorem encode_loop_terminates k fb mask i st fuel :
  (length (fst st) - i <= fuel)%nat ->
  encode_loop fuel k fb mask i st = encode_loop (length (fst st) - i) k fb mask i st
  /\ encode_loop (S fuel) k fb mask i st = encode_loop fuel k fb mask i st.
Proof. intros H. split; [by apply encode_loop_fuel_ge | by apply encode_loop_fuel_S]. Qed.

(** ** More properties of the frame and of [hide] *)

Lemma length_toString2_ge n (w : nat) :
  2 ^ Z.of_nat w <= n -> (w < length (toString2 n))%nat.
Proof.
  intros H. pose proof (pow2_pos w).
  pose proof (bin_value_range (toString2 n)) as R.
  rewrite bin_value_toString2 in R by lia.
  destruct (decide (w < length (toString2 n))%nat) as [|Hle]; [done|].
  pose proof (pow2_le_mono (length (toString2 n)) w ltac:(lia)). lia.
Qed.

Lemma length_char_bits c :
  0 <= c -> (8 <= length (padStart 8 false (toString2 c)))%nat
  /\ (length (padStart 8 false (toString2 c)) = 8%nat <-> c < 256).
Proof.
  intros Hc. rewrite length_padStart. split; [lia|]. split.
  - intros E. destruct (decide (c < 256)) as [|Hge]; [done|].
    pose proof (length_toString2_ge c 8 ltac:(simpl; lia)). lia.
  - intros Hlt. pose proof (length_toString2_le c 8 ltac:(lia) ltac:(simpl; lia)). lia.
Qed.

Lemma length_stringToBin_ge s :
  Forall (fun c => 0 <= c) s -> (8 * length s <= length (stringToBin s))%nat.
Proof.
  induction 1 as [|c s Hc _ IH]; [done|].
  rewrite stringToBin_cons, length_app. cbn [length].
  destruct (length_char_bits c Hc) as [? _]. lia.
Qed.

(** C36. Width of the payload: every code unit contributes at least eight
    bits to [stringToBin], and exactly eight for each of them if and only if
    the string is Latin-1; a code unit of 256 or more makes the payload
    longer than the [8 * length] bits the header announces. *)
Theorem stringToBin_width s :
  Forall (fun c => 0 <= c) s ->
  (8 * length s <= length (stringToBin s))%nat
  /\ (length (stringToBin s) = (8 * length s)%nat <-> latin1 s).
Proof.
  intros Hs. split; [by apply length_stringToBin_ge|]. split; [|apply length_stringToBin].
  induction Hs as [|c s Hc Hs IH]; [by constructor|].
  rewrite stringToBin_cons, length_app. cbn [length]. intros E.
  destruct (length_char_bits c Hc) as [Hge Hiff].
  pose proof (length_stringToBin_ge s Hs).
  constructor; [split; [done | apply Hiff; lia] | apply IH; lia].
Qed.

(** Width of the header: the length header has exactly 32 bits and is
    the big-endian field of the message length as long as that length is
    below 2^32; from 2^32 on [padStart] no longer pads and the header is
    longer than 32 bits. *)
Theorem lengthHeader_width message :
  (Z.of_nat (length message) < 2 ^ 32 ->
     lengthHeader message = be_bits 32 (Z.of_nat (length message)))
  /\ (2 ^ 32 <= Z.of_nat (length message) -> (32 < length (lengthHeader message))%nat).
Proof.
  split; [apply lengthHeader_be_bits|]. intros H. unfold lengthHeader.
  rewrite length_padStart.
  pose proof (length_toString2_ge (Z.of_nat (length message)) 32 H). lia.
Qed.

(** Closed form of the byte written: for a bit depth [k <= 8], a chunk
    of at most [k] bits and a byte [b], the value stored is
    [b - b mod 2^k + v] where [v] is the chunk, right-padded with zeros to
    [k] bits, read in binary; it is below 256, so the clamped store never
    clamps. *)
Theorem hide_closed_form (k : nat) b chunk :
  (k <= 8)%nat -> (length chunk <= k)%nat -> 0 <= b < 256 ->
  byte.unsigned (hide k (js_shl 255 k) b chunk)
  = b - b mod 2 ^ Z.of_nat k + bin_value (padEnd k false chunk)
  /\ 0 <= js_or (js_and b (js_shl 255 k)) (toInt32 (parseInt2 (padEnd k false chunk))) < 256.
Proof.
  intros Hk Hc Hb. split; [by apply hide_set_low|].
  rewrite toInt32_parseInt2_chunk, js_or_set_low by (done || by apply bin_value_chunk_range).
  apply set_low_range; [done..|]. by apply bin_value_chunk_range.
Qed.

(** The capacity [encodeLSB] reports does not reserve the header: on a
    canvas buffer it is [floor (3 * width * height * k / 8)], four bytes
    more than the payload that can be decoded. *)
Theorem encodeLSB_capacity c m k c' r :
  wf_canvas c -> encodeLSB c m k = Ok (c', r) ->
  capacity r = 3 * Z.of_nat (width c * height c) * Z.of_nat k / 8
  /\ messageLength r = length m.
Proof.
  intros Hwf (_ & _ & _ & ->)%encodeLSB_inv. cbn [capacity messageLength]. split; [|done].
  unfold encode_capacity. rewrite Hwf, <- (Qfloor_inject_div _ 8). apply Qfloor_comp.
  rewrite !Nat2Z.inj_mul, !inject_Z_mult.
  change (inject_Z 3) with 3%Q. change (inject_Z 8) with 8%Q.
  change (inject_Z (Z.of_nat 4)) with 4%Q. field.
Qed.

(** C28. [encodeLSB] never rejects a message: it fails only without a
    context or on an empty canvas, and otherwise returns the canvas holding
    the reference walk [embed] of the frame over its buffer, whatever the
    length of the message. *)
Theorem encodeLSB_outcome c m k :
  encodeLSB c m k
  = if negb (context2d c) then Throw NoCanvasContext
    else if is_empty c then Throw IndexSizeError
    else Ok (putImageData c (encoded_pixels c m k),
             {| dataUrl := toDataURL (putImageData c (encoded_pixels c m k));
                capacity := encode_capacity (pixels c) k;
                messageLength := length m |}).
Proof.
  destruct (context2d c) eqn:Hc; [|by apply encodeLSB_no_context].
  destruct (is_empty c) eqn:He; [by apply encodeLSB_empty | by apply encodeLSB_ok].
Qed.

(** ** Witnesses *)

Lemma encodeLSB_alpha_untouched_witness :
  pixels (putImageData (zero_canvas 2 2) (encoded_pixels (zero_canvas 2 2) [65] 1)) !! 3%nat
  = pixels (zero_canvas 2 2) !! 3%nat.
Proof.
  apply (encodeLSB_alpha_untouched _ _ _ _ _ 3%nat (encodeLSB_ok (zero_canvas 2 2) [65] 1 eq_refl eq_refl)).
  reflexivity.
Defined.

Lemma encodeLSB_upper_bits_witness :
  Z.ldiff (byte_at (pixels (putImageData (zero_canvas 2 2)
                      (encoded_pixels (zero_canvas 2 2) [65] 2))) 0) (Z.ones (Z.of_nat 2))
  = Z.ldiff (byte_at (pixels (zero_canvas 2 2)) 0) (Z.ones (Z.of_nat 2))
  /\ Z.abs (byte_at (pixels (putImageData (zero_canvas 2 2)
                      (encoded_pixels (zero_canvas 2 2) [65] 2))) 0
            - byte_at (pixels (zero_canvas 2 2)) 0) < 2 ^ Z.of_nat 2.
Proof.
  apply (encodeLSB_upper_bits (zero_canvas 2 2) [65] 2 _ _ 0%nat ltac:(lia)
           (encodeLSB_ok (zero_canvas 2 2) [65] 2 eq_refl eq_refl)).
Defined.

Lemma encodeLSB_tail_untouched_witness :
  drop 14 (pixels (putImageData (zero_canvas 2 2) (encoded_pixels (zero_canvas 2 2) [65] 4)))
  = drop 14 (pixels (zero_canvas 2 2)).
Proof.
  apply (encodeLSB_tail_untouched _ _ _ _ _ 14%nat (encodeLSB_ok (zero_canvas 2 2) [65] 4 eq_refl eq_refl)).
  vm_compute. lia.
Defined.

Lemma encode_loop_refines_embed_witness :
  fst (encode_loop 8 1 [true; false; true] 254 0 (replicate 8 Byte.xff, 0%nat))
  = take 0 (replicate 8 Byte.xff)
    ++ embed 1 254 0 (drop 0 [true; false; true]) (drop 0 (replicate 8 Byte.xff)).
Proof. apply encode_loop_refines_embed. simpl. lia. Defined.

Lemma encode_loop_terminates_witness :
  encode_loop 10 1 [true; true] 254 0 (replicate 8 Byte.x00, 0%nat)
  = encode_loop (length (fst (replicate 8 Byte.x00, 0%nat)) - 0) 1 [true; true] 254 0
      (replicate 8 Byte.x00, 0%nat)
  /\ encode_loop 11 1 [true; true] 254 0 (replicate 8 Byte.x00, 0%nat)
     = encode_loop 10 1 [true; true] 254 0 (replicate 8 Byte.x00, 0%nat).
Proof. apply encode_loop_terminates. simpl. lia. Defined.

Lemma stringToBin_width_witness :
  (8 * length [65; 300]%Z <= length (stringToBin [65; 300]%Z))%nat
  /\ (length (stringToBin [65; 300]) = (8 * length [65; 300]%Z)%nat <-> latin1 [65; 300]).
Proof. apply stringToBin_width. repeat constructor; lia. Defined.

Lemma hide_closed_form_witness :
  byte.unsigned (hide 3 (js_shl 255 3) 255 [true; false])
  = 255 - 255 mod 2 ^ Z.of_nat 3 + bin_value (padEnd 3 false [true; false])
  /\ 0 <= js_or (js_and 255 (js_shl 255 3))
            (toInt32 (parseInt2 (padEnd 3 false [true; false]))) < 256.
Proof. apply hide_closed_form; simpl; lia. Defined.

Lemma encodeLSB_capacity_witness :
  capacity {| dataUrl := toDataURL (putImageData (zero_canvas 4 4)
                            (encoded_pixels (zero_canvas 4 4) [65] 1));
              capacity := encode_capacity (pixels (zero_canvas 4 4)) 1;
              messageLength := 1 |}
  = 3 * Z.of_nat (width (zero_canvas 4 4) * height (zero_canvas 4 4)) * Z.of_nat 1 / 8
  /\ messageLength {| dataUrl := toDataURL (putImageData (zero_canvas 4 4)
                            (encoded_pixels (zero_canvas 4 4) [65] 1));
              capacity := encode_capacity (pixels (zero_canvas 4 4)) 1;
              messageLength := 1 |} = length [65].
Proof.
  apply (encodeLSB_capacity _ _ _ _ _ (wf_zero_canvas 4 4)
           (encodeLSB_ok (zero_canvas 4 4) [65] 1 eq_refl eq_refl)).
Defined.

Lemma lengthHeader_width_witness :
  lengthHeader [65; 66] = be_bits 32 (Z.of_nat (length [65; 66]%Z)).
Proof. apply (proj1 (lengthHeader_width [65; 66])). simpl. lia. Defined.
