(* ===== verification/Decode.v ===== *)
(** * Decode: [decodeLSB] and [binToString] (src/src/utils/steganography.ts)

    [decodeLSB] is modelled statement by statement; both [while] loops are
    the fuelled fixpoint [extract_loop] over the loop state
    [(binaryString, i)], the second resuming from the state the first one
    left.  [extract] is the bit stream a buffer carries and [decode_spec] the
    frame parser over that stream; the theorems show that [decodeLSB]
    computes [decode_spec] and characterise each of its errors. *)

From Stdlib Require Import ZArith Lia QArith Qround List.
From stdpp Require Import base tactics list numbers.
From coqutil Require Import Byte.
From S2P Require Import Prelude BinStr JsNum Canvas.

#[local] Open Scope Z_scope.
#[local] Open Scope steg_scope.

(** ** The source's definitions *)

(** [bin.match(/.{1,8}/g) || []]: consecutive groups of eight characters, the
    last one possibly shorter.  Each group is non-empty, so [length bin]
    units of fuel reach the end of the string. *)
Fixpoint match_groups (fuel : nat) (bin : bitstring) : list bitstring :=
  match fuel with
  | O => []
  | S fuel' =>
      match bin with
      | [] => []
      | _ => take 8 bin :: match_groups fuel' (drop 8 bin)
      end
  end.

Definition binToString (bin : bitstring) : jsstring :=
  map (fun byte => fromCharCode (parseInt2 byte)) (match_groups (length bin) bin).

(** The chunk read from one colour byte:
    [(data[i] & bitMask).toString(2).padStart(bitsPerChannel, '0')]. *)
Definition low_bits (k : nat) (bitMask : Z) (data : list byte) (i : nat) : bitstring :=
  padStart k false (toString2 (js_and (byte_at data i) bitMask)).

(** Body of both [while] loops, on the loop state [(binaryString, i)]. *)
Definition extract_body (k : nat) (bitMask : Z) (data : list byte)
    (st : bitstring * nat) : bitstring * nat :=
  let '(binaryString, i) := st in
  ((if negb (is_alpha i) then binaryString ++ low_bits k bitMask data i else binaryString),
   S i).

(** [while (binaryString.length < required && i < data.length)]: every
    iteration increments [i], so [length data] units of fuel are enough. *)
Fixpoint extract_loop (fuel : nat) (k : nat) (bitMask : Z) (data : list byte)
    (required : Z) (st : bitstring * nat) : bitstring * nat :=
  match fuel with
  | O => st
  | S fuel' =>
      if (Z.of_nat (length (fst st)) <? required) && (snd st <? length data)%nat
      then extract_loop fuel' k bitMask data required (extract_body k bitMask data st)
      else st
  end.

Definition totalAvailableBits (data : list byte) (k : nat) : Q :=
  inject_Z (Z.of_nat (length data)) / 4 * 3 * inject_Z (Z.of_nat k).

Definition maxPossibleBytes (data : list byte) (k : nat) : Z :=
  Qfloor ((totalAvailableBits data k - 32) / 8).

Definition decodeLSB (canvas : Canvas) (bitsPerChannel : nat) : result Error jsstring :=
  if negb (context2d canvas) then Throw NoCanvasContext
  else
    let! data := getImageData canvas in
    let bitMask := js_shl 1 bitsPerChannel - 1 in
    if Qltb (totalAvailableBits data bitsPerChannel) 32 then Throw ImageTooSmall
    else
      let st1 := extract_loop (length data) bitsPerChannel bitMask data 32 ([], 0%nat) in
      let lengthBits := substring (fst st1) 0 32 in
      match parseInt2 lengthBits with
      | None => Throw NoValidMessage
      | Some messageLength =>
          if (messageLength <=? 0) || (maxPossibleBytes data bitsPerChannel <? messageLength)
          then Throw NoValidMessage
          else
            let requiredBits := 32 + messageLength * 8 in
            let st2 := extract_loop (length data) bitsPerChannel bitMask data requiredBits st1 in
            if Z.of_nat (length (fst st2)) <? requiredBits then Throw EndedPrematurely
            else
              let messageBits := substring (fst st2) 32 (Z.to_nat requiredBits) in
              Ok (binToString messageBits)
      end.

(** ** Reference definitions *)

(** The bit stream a buffer carries: the [k] low bits of every colour byte,
    most significant first; [i] is the index of the head byte. *)
Fixpoint extract (k : nat) (i : nat) (data : list byte) : bitstring :=
  match data with
  | [] => []
  | b :: rest =>
      (if is_alpha i then [] else be_bits k (byte.unsigned b)) ++ extract k (S i) rest
  end.

(** The frame parser: a 32-bit length, then that many groups of eight bits. *)
Definition parse_frame (maxBytes : Z) (stream : bitstring) : result Error jsstring :=
  match parseInt2 (take 32 stream) with
  | None => Throw NoValidMessage
  | Some n =>
      if (n <=? 0) || (maxBytes <? n) then Throw NoValidMessage
      else if Z.of_nat (length stream) <? 32 + n * 8 then Throw EndedPrematurely
      else Ok (binToString (take (Z.to_nat (n * 8)) (drop 32 stream)))
  end.

Definition decode_spec (canvas : Canvas) (k : nat) : result Error jsstring :=
  if negb (context2d canvas) then Throw NoCanvasContext
  else if is_empty canvas then Throw IndexSizeError
  else if Qltb (totalAvailableBits (pixels canvas) k) 32 then Throw ImageTooSmall
  else parse_frame (maxPossibleBytes (pixels canvas) k) (extract k 0 (pixels canvas)).

(** A one-pixel-row canvas holding, at depth 8, a header of 1 and the code
    unit 65. *)
Definition sample_canvas : Canvas :=
  {| width := 2; height := 1; context2d := true;
     pixels := map byte.of_Z [0; 0; 0; 255; 1; 65; 7; 255] |}.

(** ** The loops compute a prefix of [extract] *)

Lemma low_bits_be_bits (k : nat) data i b :
  (1 <= k <= 30)%nat -> data !! i = Some b ->
  low_bits k (js_shl 1 k - 1) data i = be_bits k (byte.unsigned b).
Proof.
  intros Hk Hb. unfold low_bits. rewrite (byte_at_lookup _ _ _ Hb).
  rewrite js_and_low by (auto with steg || lia).
  rewrite padStart_toString2_be_bits, be_bits_mod; [done|lia|].
  apply Z.mod_pos_bound. auto with steg.
Qed.

Lemma extract_drop_S k data i b :
  data !! i = Some b ->
  extract k i (drop i data)
  = (if is_alpha i then [] else be_bits k (byte.unsigned b)) ++ extract k (S i) (drop (S i) data).
Proof. intros Hb. by rewrite (drop_S _ _ _ Hb). Qed.

Lemma extract_body_spec (k : nat) data bs i b :
  (1 <= k <= 30)%nat -> data !! i = Some b ->
  extract_body k (js_shl 1 k - 1) data (bs, i)
  = (bs ++ (if is_alpha i then [] else be_bits k (byte.unsigned b)), S i).
Proof.
  intros Hk Hb. unfold extract_body.
  destruct (is_alpha i); cbn [negb]; [by rewrite app_nil_r|].
  by rewrite (low_bits_be_bits _ _ _ _ Hk Hb).
Qed.

Section Loop.
Context (k : nat) (data : list byte) (required : Z) (Hk : (1 <= k <= 30)%nat).

Lemma extract_loop_inv fuel : forall bs i,
  (length data - i <= fuel)%nat ->
  let st := extract_loop fuel k (js_shl 1 k - 1) data required (bs, i) in
  fst st ++ extract k (snd st) (drop (snd st) data) = bs ++ extract k i (drop i data)
  /\ (required <= Z.of_nat (length (fst st)) \/ (length data <= snd st)%nat).
Proof using Hk.
  induction fuel as [|fuel IH]; intros bs i Hfuel; cbn [extract_loop fst snd].
  - split; [done | right; lia].
  - destruct (Z.ltb_spec (Z.of_nat (length bs)) required) as [Hr|Hr]; cbn [andb].
    2:{ split; [done | by left]. }
    destruct (Nat.ltb_spec i (length data)) as [Hi|Hi].
    2:{ split; [done | by right]. }
    destruct (lookup_lt_is_Some_2 data i Hi) as [b Hb].
    rewrite (extract_body_spec _ _ _ _ _ Hk Hb), (extract_drop_S _ _ _ _ Hb), app_assoc.
    apply IH. lia.
Qed.

Lemma extract_loop_prefix fuel bs i (r : nat) :
  (length data - i <= fuel)%nat -> Z.of_nat r <= required ->
  take r (fst (extract_loop fuel k (js_shl 1 k - 1) data required (bs, i)))
  = take r (bs ++ extract k i (drop i data)).
Proof using Hk.
  intros Hfuel Hr. destruct (extract_loop_inv fuel bs i Hfuel) as [E [Hlen|Hend]].
  - rewrite <- E. by rewrite take_app_le by lia.
  - rewrite <- E. by rewrite (drop_ge data), app_nil_r by lia.
Qed.

Lemma extract_loop_short fuel bs i :
  (length data - i <= fuel)%nat ->
  (Z.of_nat (length (fst (extract_loop fuel k (js_shl 1 k - 1) data required (bs, i)))) <? required)
  = (Z.of_nat (length (bs ++ extract k i (drop i data))) <? required).
Proof using Hk.
  intros Hfuel. destruct (extract_loop_inv fuel bs i Hfuel) as [E H]. revert E H.
  generalize (extract_loop fuel k (js_shl 1 k - 1) data required (bs, i)).
  intros st E [Hlen|Hend]; rewrite <- E.
  - rewrite length_app. apply eq_true_iff_eq. rewrite !Z.ltb_lt. lia.
  - by rewrite (drop_ge data), app_nil_r by lia.
Qed.

Lemma extract_loop_total fuel bs i :
  (length data - i <= fuel)%nat ->
  let st := extract_loop fuel k (js_shl 1 k - 1) data required (bs, i) in
  fst st ++ extract k (snd st) (drop (snd st) data) = bs ++ extract k i (drop i data).
Proof using Hk. intros Hfuel. apply extract_loop_inv, Hfuel. Qed.

End Loop.

(** ** [decodeLSB] computes [decode_spec] *)

Section Phases.
Context (k : nat) (data : list byte) (Hk : (1 <= k <= 30)%nat).

#[local] Abbreviation mask := (js_shl 1 k - 1).
#[local] Abbreviation st1 := (extract_loop (length data) k mask data 32 ([], 0%nat)).
#[local] Abbreviation stream := (extract k 0 data).

Lemma phase1_total :
  fst st1 ++ extract k (snd st1) (drop (snd st1) data) = stream.
Proof using Hk. apply (extract_loop_total k data 32 Hk (length data) [] 0%nat). lia. Qed.

Lemma phase1_header : substring (fst st1) 0 32 = take 32 stream.
Proof using Hk.
  rewrite substring_prefix.
  apply (extract_loop_prefix k data 32 Hk (length data) [] 0%nat 32); lia.
Qed.

Lemma phase2_short required :
  (Z.of_nat (length (fst (extract_loop (length data) k mask data required st1))) <? required)
  = (Z.of_nat (length stream) <? required).
Proof using Hk.
  rewrite (surjective_pairing st1) at 1.
  rewrite extract_loop_short by (done || lia). by rewrite phase1_total.
Qed.

Lemma phase2_message n :
  0 < n ->
  substring (fst (extract_loop (length data) k mask data (32 + n * 8) st1)) 32
    (Z.to_nat (32 + n * 8))
  = substring stream 32 (Z.to_nat (32 + n * 8)).
Proof using Hk.
  intros Hn. rewrite !substring_take_drop by lia.
  rewrite !take_drop_commute. f_equal.
  replace (32 + (Z.to_nat (32 + n * 8) - 32))%nat with (Z.to_nat (32 + n * 8)) by lia.
  rewrite (surjective_pairing st1) at 1.
  rewrite extract_loop_prefix by (done || lia). by rewrite phase1_total.
Qed.

End Phases.

Lemma substring_frame_payload {A} (s : list A) n :
  0 < n -> substring s 32 (Z.to_nat (32 + n * 8)) = take (Z.to_nat (n * 8)) (drop 32 s).
Proof. intros Hn. rewrite substring_take_drop by lia. f_equal. lia. Qed.

Lemma decodeLSB_decode_spec canvas k :
  (1 <= k <= 30)%nat -> decodeLSB canvas k = decode_spec canvas k.
Proof.
  intros Hk. unfold decodeLSB, decode_spec, parse_frame, getImageData.
  destruct (context2d canvas); cbn [negb]; [|done].
  destruct (is_empty canvas); cbn [bind]; [done|].
  destruct (Qltb _ 32); [done|].
  rewrite phase1_header by done.
  destruct (parseInt2 (take 32 _)) as [n|]; [|done].
  destruct (Z.leb_spec n 0) as [Hn|Hn]; cbn [orb]; [done|].
  destruct (_ <? n); [done|].
  rewrite phase2_short by done.
  destruct (_ <? 32 + n * 8); [done|].
  by rewrite phase2_message, substring_frame_payload.
Qed.

(** ** Sizes *)

Lemma length_extract k data : forall i,
  length (extract k i data) = (k * colour_count i (length data))%nat.
Proof.
  induction data as [|b rest IH]; intros i; cbn [extract colour_count length]; [lia|].
  rewrite length_app, IH. destruct (is_alpha i); solve_len.
Qed.

Lemma length_extract_pixels k data p :
  length data = (4 * p)%nat -> length (extract k 0 data) = (3 * p * k)%nat.
Proof. intros H. rewrite length_extract, H, colour_count_pixels. lia. Qed.

Lemma totalAvailableBits_pixels data k p :
  length data = (4 * p)%nat ->
  (totalAvailableBits data k == inject_Z (3 * Z.of_nat p * Z.of_nat k))%Q.
Proof.
  intros H. unfold totalAvailableBits. rewrite H, Nat2Z.inj_mul.
  rewrite !inject_Z_mult. change (inject_Z (Z.of_nat 4)) with 4%Q.
  change (inject_Z 3) with 3%Q. field.
Qed.

Lemma maxPossibleBytes_pixels data k p :
  length data = (4 * p)%nat ->
  maxPossibleBytes data k = (3 * Z.of_nat p * Z.of_nat k - 32) / 8.
Proof.
  intros H. unfold maxPossibleBytes.
  rewrite (Qfloor_comp _ (inject_Z (3 * Z.of_nat p * Z.of_nat k - 32) / inject_Z 8)).
  - apply Qfloor_inject_div.
  - rewrite (totalAvailableBits_pixels _ _ _ H).
    unfold Z.sub. rewrite inject_Z_plus. reflexivity.
Qed.

Lemma too_small_pixels data k p :
  length data = (4 * p)%nat ->
  Qltb (totalAvailableBits data k) 32 = (3 * Z.of_nat p * Z.of_nat k <? 32).
Proof.
  intros H. rewrite <- Qltb_inject.
  unfold Qltb. by rewrite (totalAvailableBits_pixels _ _ _ H).
Qed.

(** ** [binToString] *)

Lemma match_groups_concat (groups : list bitstring) : forall fuel,
  Forall (fun g => length g = 8%nat) groups -> (length groups <= fuel)%nat ->
  match_groups fuel (concat groups) = groups.
Proof.
  induction groups as [|g groups IH]; intros fuel Hg Hfuel.
  - by destruct fuel.
  - inv Hg. destruct fuel as [|fuel]; [simpl in Hfuel; lia|].
    cbn [concat match_groups]. destruct (g ++ concat groups) eqn:E.
    { apply (f_equal length) in E. rewrite length_app in E. simpl in E. lia. }
    rewrite <- E. rewrite take_app_length', drop_app_length' by done.
    rewrite IH; [done..|simpl in Hfuel; lia].
Qed.

Lemma match_groups_fuel bin : forall fuel,
  (length bin <= fuel)%nat -> match_groups fuel bin = match_groups (length bin) bin.
Proof.
  induction bin as [bin IH] using (induction_ltof1 _ (@length bool)); unfold ltof in IH.
  intros fuel Hfuel. destruct bin as [|b bin]; [by destruct fuel|].
  destruct fuel as [|fuel]; [simpl in Hfuel; lia|].
  cbn [match_groups length]. f_equal.
  assert (length (drop 8 (b :: bin)) < length (b :: bin))%nat by (rewrite length_drop; simpl; lia).
  assert (length (drop 8 (b :: bin)) <= length bin)%nat by (rewrite length_drop; simpl; lia).
  rewrite (IH _ ltac:(done) fuel) by (simpl in *; lia).
  by rewrite (IH _ ltac:(done) (length bin)).
Qed.

Lemma concat_match_groups bin : concat (match_groups (length bin) bin) = bin.
Proof.
  induction bin as [bin IH] using (induction_ltof1 _ (@length bool)); unfold ltof in IH.
  destruct bin as [|b bin]; [done|]. cbn [match_groups length concat].
  assert (length (drop 8 (b :: bin)) < length (b :: bin))%nat by (rewrite length_drop; simpl; lia).
  rewrite (match_groups_fuel (drop 8 (b :: bin)) (length bin)) by (rewrite length_drop; simpl; lia).
  rewrite IH by done. apply take_drop.
Qed.

Lemma binToString_groups (cs : list Z) :
  Forall (fun c => 0 <= c < 256) cs ->
  binToString (concat (map (be_bits 8) cs)) = cs.
Proof.
  intros Hcs. unfold binToString. rewrite match_groups_concat.
  - rewrite map_map. rewrite <- (map_id cs) at 2. apply map_ext_Forall.
    eapply Forall_impl; [|exact Hcs]. intros c Hc. cbn beta in *.
    rewrite parseInt2_be_bits by lia. cbn [fromCharCode].
    change (2 ^ Z.of_nat 8) with 256. rewrite (Z.mod_small c 256) by lia.
    apply Z.mod_small. lia.
  - apply Forall_forall. intros g (c & <- & _)%in_map_iff. apply length_be_bits.
  - rewrite length_map.
    assert (length (concat (map (be_bits 8) cs)) = 8 * length cs)%nat; [|lia].
    clear Hcs. induction cs as [|c cs IH]; [done|].
    cbn [map concat length]. rewrite length_app, length_be_bits, IH. lia.
Qed.

Lemma match_groups_bounds fuel : forall bin,
  Forall (fun g => (0 < length g <= 8)%nat) (match_groups fuel bin).
Proof.
  induction fuel as [|fuel IH]; intros bin; cbn [match_groups]; [constructor|].
  destruct bin as [|b bin]; constructor; [|apply IH].
  cbn beta. rewrite length_take. cbn [length]. lia.
Qed.

Lemma fromCharCode_group g :
  (0 < length g <= 8)%nat -> 0 <= fromCharCode (parseInt2 g) < 256.
Proof.
  intros Hg. rewrite parseInt2_nonempty by (intros ->; simpl in Hg; lia).
  pose proof (bin_value_range g) as R.
  assert (2 ^ Z.of_nat (length g) <= 2 ^ 8) by (apply Z.pow_le_mono_r; lia).
  cbn [fromCharCode]. rewrite Z.mod_small; lia.
Qed.

Lemma binToString_latin1 bin : Forall (fun c => 0 <= c < 256) (binToString bin).
Proof.
  unfold binToString. apply Forall_map.
  eapply Forall_impl; [|apply match_groups_bounds]. intros g Hg. by apply fromCharCode_group.
Qed.

Lemma length_match_groups n : forall bin fuel,
  length bin = (8 * n)%nat -> (n <= fuel)%nat -> length (match_groups fuel bin) = n.
Proof.
  induction n as [|n IH]; intros bin fuel Hlen Hfuel.
  - destruct bin; [by destruct fuel | simpl in Hlen; lia].
  - destruct fuel as [|fuel]; [lia|]. destruct bin as [|b bin]; [simpl in Hlen; lia|].
    cbn [match_groups length]. f_equal. apply IH; [|lia].
    rewrite length_drop. simpl in *. lia.
Qed.

Lemma length_binToString bin n :
  length bin = (8 * n)%nat -> length (binToString bin) = n.
Proof.
  intros H. unfold binToString. rewrite length_map.
  apply length_match_groups; [done | lia].
Qed.

Lemma match_groups_full n : forall bin fuel,
  length bin = (8 * n)%nat ->
  Forall (fun g => length g = 8%nat) (match_groups fuel bin).
Proof.
  induction n as [|n IH]; intros bin fuel Hlen.
  - destruct bin; [by destruct fuel | simpl in Hlen; lia].
  - destruct fuel as [|fuel]; [done|]. destruct bin as [|b bin]; [done|].
    cbn [match_groups]. constructor; [|apply IH]; simpl in *; solve_len.
Qed.

Lemma group_of_code g :
  length g = 8%nat -> be_bits 8 (fromCharCode (parseInt2 g)) = g.
Proof.
  intros Hg. rewrite parseInt2_nonempty by (by destruct g).
  pose proof (bin_value_range g) as R. rewrite Hg in R.
  cbn [fromCharCode]. rewrite Z.mod_small by lia.
  rewrite <- Hg at 1. apply be_bits_bin_value.
Qed.

(** The digits are recovered from the code units when they come in whole
    groups of eight. *)
Lemma binToString_full bin n :
  length bin = (8 * n)%nat -> concat (map (be_bits 8) (binToString bin)) = bin.
Proof.
  intros Hlen. unfold binToString. rewrite map_map.
  pose proof (match_groups_full n bin (length bin) Hlen) as Hg.
  rewrite Forall_forall in Hg.
  rewrite (map_ext_in _ id), map_id; [apply concat_match_groups|].
  intros g Hin. by apply group_of_code, Hg.
Qed.

(** ** Fuel *)

Lemma extract_loop_fuel_S k mask data required fuel : forall st,
  (length data - snd st <= fuel)%nat ->
  extract_loop (S fuel) k mask data required st = extract_loop fuel k mask data required st.
Proof.
  induction fuel as [|fuel IH]; intros st Hfuel.
  - cbn [extract_loop]. destruct (Nat.ltb_spec (snd st) (length data)); [lia|].
    by rewrite andb_false_r.
  - change (extract_loop (S (S fuel)) k mask data required st)
      with (if (Z.of_nat (length (fst st)) <? required) && (snd st <? length data)%nat
            then extract_loop (S fuel) k mask data required (extract_body k mask data st)
            else st).
    cbn [extract_loop]. destruct (_ && _); [|done].
    apply IH. destruct st. cbn [extract_body snd] in *. lia.
Qed.

Lemma extract_loop_fuel_ge k mask data required st fuel :
  (length data - snd st <= fuel)%nat ->
  extract_loop fuel k mask data required st
  = extract_loop (length data - snd st) k mask data required st.
Proof.
  intros H.
  replace fuel with ((fuel - (length data - snd st)) + (length data - snd st))%nat by lia.
  induction (fuel - (length data - snd st))%nat as [|d IH]; [done|].
  cbn [Nat.add]. rewrite extract_loop_fuel_S by lia. exact IH.
Qed.

(** ** Errors *)

Lemma parse_frame_not_premature maxBytes stream :
  32 + 8 * maxBytes <= Z.of_nat (length stream) ->
  parse_frame maxBytes stream <> Throw EndedPrematurely.
Proof.
  intros H. unfold parse_frame. destruct (parseInt2 _) as [n|]; [|done].
  destruct (Z.leb_spec n 0); cbn [orb]; [done|].
  destruct (Z.ltb_spec maxBytes n); [done|].
  destruct (Z.ltb_spec (Z.of_nat (length stream)) (32 + n * 8)); [lia | done].
Qed.

Lemma decodeLSB_too_small_iff c k :
  decodeLSB c k = Throw ImageTooSmall
  <-> context2d c = true /\ is_empty c = false
      /\ Qltb (totalAvailableBits (pixels c) k) 32 = true.
Proof.
  unfold decodeLSB, getImageData.
  destruct (context2d c); cbn [negb]; [|by split; [|intros []]].
  destruct (is_empty c); cbn [bind]; [by split; [|intros (_ & ? & _)]|].
  destruct (Qltb _ 32); [done|].
  repeat case_match; by split; [|intros (_ & _ & ?)].
Qed.

Lemma decodeLSB_no_context_iff c k :
  decodeLSB c k = Throw NoCanvasContext <-> context2d c = false.
Proof.
  unfold decodeLSB, getImageData, bind. destruct (context2d c); cbn [negb]; [|done].
  split; [|done]. intros H. repeat case_match; simplify_eq.
Qed.

Lemma decodeLSB_ext c1 c2 k :
  context2d c1 = context2d c2 -> is_empty c1 = is_empty c2 -> pixels c1 = pixels c2 ->
  decodeLSB c1 k = decodeLSB c2 k.
Proof. intros Hc He Hp. unfold decodeLSB, getImageData. by rewrite Hc, He, Hp. Qed.

Lemma decodeLSB_latin1 c k s : decodeLSB c k = Ok s -> latin1 s.
Proof.
  unfold decodeLSB, getImageData, bind. intros H.
  repeat case_match; simplify_eq. apply binToString_latin1.
Qed.

Lemma binToString_nonempty bin : bin <> [] -> binToString bin <> [].
Proof. by destruct bin. Qed.

(** A decoded message is never the empty string, at any bit depth. *)
Lemma decodeLSB_nonempty c k s : decodeLSB c k = Ok s -> s <> [].
Proof.
  unfold decodeLSB, getImageData, bind. intros H.
  repeat case_match; simplify_eq. apply binToString_nonempty.
  intros E%(f_equal length). rewrite length_substring in E; simpl in E; lia.
Qed.

Lemma parse_frame_ok maxBytes stream s :
  parse_frame maxBytes stream = Ok s ->
  exists n, parseInt2 (take 32 stream) = Some n /\ 0 < n <= maxBytes
    /\ 32 + n * 8 <= Z.of_nat (length stream)
    /\ s = binToString (take (Z.to_nat (n * 8)) (drop 32 stream)).
Proof.
  unfold parse_frame. destruct (parseInt2 _) as [n|]; [|done].
  destruct (Z.leb_spec n 0); cbn [orb]; [done|].
  destruct (Z.ltb_spec maxBytes n); [done|].
  destruct (Z.ltb_spec (Z.of_nat (length stream)) (32 + n * 8)); [done|].
  intros [= <-]. exists n. repeat split; (done || lia).
Qed.

Lemma parse_frame_invalid maxBytes stream n :
  parseInt2 (take 32 stream) = Some n -> n <= 0 \/ maxBytes < n ->
  parse_frame maxBytes stream = Throw NoValidMessage.
Proof.
  intros Hn Hbad. unfold parse_frame. rewrite Hn.
  destruct (Z.leb_spec n 0); cbn [orb]; [done|].
  destruct (Z.ltb_spec maxBytes n); [done | lia].
Qed.

(** C7. [decodeLSB] computes the frame parser over the extracted stream:
    for a bit depth between 1 and 30 the two [while] loops, the header
    check and the slicing return exactly what [decode_spec] returns, errors
    included. *)
Theorem decodeLSB_refines_spec canvas k :
  (1 <= k <= 30)%nat -> decodeLSB canvas k = decode_spec canvas k.
Proof. apply decodeLSB_decode_spec. Qed.

(** C26. The "ended prematurely" error cannot occur on a canvas buffer: when
    the buffer has four bytes per pixel and the bit depth is between 1 and
    30, every header value that passes the validity check asks for no more
    bits than the buffer holds, so [decodeLSB] never throws
    [EndedPrematurely]. *)
Theorem decodeLSB_never_premature c k :
  (1 <= k <= 30)%nat -> wf_canvas c -> decodeLSB c k <> Throw EndedPrematurely.
Proof.
  intros Hk Hwf. rewrite decodeLSB_decode_spec by done. unfold decode_spec.
  destruct (context2d c); cbn [negb]; [|done]. destruct (is_empty c); [done|].
  destruct (Qltb _ 32); [done|]. apply parse_frame_not_premature.
  rewrite (maxPossibleBytes_pixels _ _ _ Hwf), (length_extract_pixels _ _ _ Hwf).
  pose proof (Z.mul_div_le (3 * Z.of_nat (width c * height c) * Z.of_nat k - 32) 8). lia.
Qed.

(** C27. [decodeLSB] throws "image too small" exactly when the canvas has a
    context, is not empty and its colour bytes offer fewer than 32 bits
    ([3 * width * height * k < 32]); this holds for every bit depth, zero
    included. *)
Theorem decodeLSB_too_small c k :
  wf_canvas c ->
  decodeLSB c k = Throw ImageTooSmall
  <-> context2d c = true /\ (0 < width c * height c)%nat
      /\ 3 * Z.of_nat (width c * height c) * Z.of_nat k < 32.
Proof.
  intros Hwf. rewrite decodeLSB_too_small_iff, (too_small_pixels _ _ _ Hwf).
  by rewrite Z.ltb_lt, is_empty_false.
Qed.

(** The fuel of the [while] loops is enough: any amount of fuel of at
    least [length data - i] gives the same final state, so both loops of
    [decodeLSB], run with [length data] units, stop because their condition
    fails. *)
Theorem extract_loop_terminates k mask data required st fuel :
  (length data - snd st <= fuel)%nat ->
  extract_loop fuel k mask data required st
  = extract_loop (length data - snd st) k mask data required st
  /\ extract_loop (S fuel) k mask data required st
     = extract_loop fuel k mask data required st.
Proof. intros H. split; [by apply extract_loop_fuel_ge | by apply extract_loop_fuel_S]. Qed.

(** What a successful [decodeLSB] returns: on a canvas buffer and for a
    bit depth between 1 and 30, the result is a non-empty Latin-1 string
    whose length is the value of the 32-bit header and is at most
    [maxPossibleBytes]. *)
Theorem decodeLSB_ok_shape c k s :
  (1 <= k <= 30)%nat -> decodeLSB c k = Ok s ->
  latin1 s /\ s <> []
  /\ parseInt2 (take 32 (extract k 0 (pixels c))) = Some (Z.of_nat (length s))
  /\ Z.of_nat (length s) <= maxPossibleBytes (pixels c) k.
Proof.
  intros Hk H. split; [by eapply decodeLSB_latin1|].
  rewrite decodeLSB_decode_spec in H by done. unfold decode_spec in H.
  destruct (negb _); [done|]. destruct (is_empty c); [done|].
  destruct (Qltb _ 32); [done|].
  apply parse_frame_ok in H as (n & Hn & Hpos & Hlen & ->).
  rewrite (length_binToString _ (Z.to_nat n)).
  - rewrite Z2Nat.id by lia. repeat split; [|done|lia].
    intros E%(f_equal length). rewrite (length_binToString _ (Z.to_nat n)) in E.
    + simpl in E. lia.
    + solve_len.
  - solve_len.
Qed.

(** [binToString] reads back eight-bit groups: applied to the
    concatenation of the eight-bit big-endian fields of code units below
    256 it returns those code units; in general its result has one code
    unit per started group of eight bits, each below 256. *)
Theorem binToString_fields (cs : list Z) :
  Forall (fun c => 0 <= c < 256) cs ->
  binToString (concat (map (be_bits 8) cs)) = cs
  /\ (forall bin, latin1 (binToString bin)
                  /\ concat (match_groups (length bin) bin) = bin).
Proof.
  intros Hcs. split; [by apply binToString_groups|].
  intros bin. split; [apply binToString_latin1 | apply concat_match_groups].
Qed.

(** ** Witnesses *)

Lemma decodeLSB_refines_spec_witness :
  decodeLSB sample_canvas 8 = decode_spec sample_canvas 8.
Proof. apply decodeLSB_refines_spec. lia. Defined.

Lemma decodeLSB_never_premature_witness :
  decodeLSB (zero_canvas 4 4) 2 <> Throw EndedPrematurely.
Proof. apply decodeLSB_never_premature; [lia | apply wf_zero_canvas]. Defined.

Lemma decodeLSB_too_small_witness :
  decodeLSB (zero_canvas 4 2) 1 = Throw ImageTooSmall
  <-> context2d (zero_canvas 4 2) = true
      /\ (0 < width (zero_canvas 4 2) * height (zero_canvas 4 2))%nat
      /\ 3 * Z.of_nat (width (zero_canvas 4 2) * height (zero_canvas 4 2)) * Z.of_nat 1 < 32.
Proof. apply decodeLSB_too_small, wf_zero_canvas. Defined.

Lemma extract_loop_terminates_witness :
  extract_loop 9 1 1 (replicate 8 Byte.xff) 4 ([], 0%nat)
  = extract_loop (length (replicate 8 Byte.xff) - snd ([] : bitstring, 0%nat)) 1 1
      (replicate 8 Byte.xff) 4 ([], 0%nat)
  /\ extract_loop 10 1 1 (replicate 8 Byte.xff) 4 ([], 0%nat)
     = extract_loop 9 1 1 (replicate 8 Byte.xff) 4 ([], 0%nat).
Proof. apply extract_loop_terminates. simpl. lia. Defined.

Lemma decodeLSB_ok_shape_witness :
  latin1 [65] /\ [65] <> []
  /\ parseInt2 (take 32 (extract 8 0 (pixels sample_canvas))) = Some (Z.of_nat (length [65]))
  /\ Z.of_nat (length [65]) <= maxPossibleBytes (pixels sample_canvas) 8.
Proof. apply decodeLSB_ok_shape; [lia | vm_compute; reflexivity]. Defined.

Lemma binToString_fields_witness :
  binToString (concat (map (be_bits 8) [72; 105])) = [72; 105]
  /\ (forall bin, latin1 (binToString bin)
                  /\ concat (match_groups (length bin) bin) = bin).
Proof. apply binToString_fields. repeat constructor; lia. Defined.
