(* ===== verification/Roundtrip.v ===== *)
(** * Roundtrip: decoding what was encoded

    The stream carried by an encoded buffer starts with the frame that was
    embedded ([extract_embed]); the frame parser recovers the message from
    any stream that starts with its frame ([parse_frame_fullBinary]); hence
    [decodeLSB] inverts [encodeLSB] for every non-empty Latin-1 message that
    fits the canvas.  The file also proves what happens when one of these
    conditions fails. *)

From Stdlib Require Import ZArith Lia QArith Qround List.
From stdpp Require Import base tactics list numbers.
From coqutil Require Import Byte.
From S2P Require Import Prelude BinStr JsNum Canvas Encode Decode.

#[local] Open Scope Z_scope.

(** Encoding then decoding, as the application chains them. *)
Definition decode_after_encode (c : Canvas) (m : jsstring) (k : nat) : result Error jsstring :=
  match encodeLSB c m k with
  | Ok (c', _) => decodeLSB c' k
  | Throw e => Throw e
  end.

(** The frame fits the colour bytes of the canvas. *)
Definition fits (c : Canvas) (m : jsstring) (k : nat) : Prop :=
  32 + 8 * Z.of_nat (length m) <= 3 * Z.of_nat (width c * height c) * Z.of_nat k.

(** The longest message a canvas holds at depth [k]: the bytes its colour
    channels offer, less the four of the header. *)
Definition canvas_capacity (c : Canvas) (k : nat) : Z :=
  Z.max 0 (3 * Z.of_nat (width c * height c) * Z.of_nat k / 8 - 4).

(** The 32 digits the header position of a canvas carries at depth [k]. *)
Definition header_field (k : nat) (c : Canvas) : bitstring :=
  take 32 (extract k 0 (pixels c)).

(** Encoding at depth [k] and decoding at depth [k']. *)
Definition transcode (c : Canvas) (m : jsstring) (k k' : nat) : result Error jsstring :=
  match encodeLSB c m k with
  | Ok (c', _) => decodeLSB c' k'
  | Throw e => Throw e
  end.

(** A 4 by 4 canvas whose second-lowest bits already spell a frame. *)
Definition primed_canvas : Canvas :=
  putImageData (zero_canvas 4 4) (encoded_pixels (zero_canvas 4 4) [42; 42] 2).

(** The ten-byte message of the specification's second scenario. *)
Definition ten_bytes : jsstring := [48; 49; 50; 51; 52; 53; 54; 55; 56; 57].

(** ** The stream of an encoded buffer *)

Lemma extract_hide (k : nat) b chunk :
  (1 <= k <= 8)%nat -> (length chunk <= k)%nat ->
  be_bits k (byte.unsigned (hide k (js_shl 255 k) (byte.unsigned b) chunk))
  = padEnd k false chunk.
Proof.
  intros Hk Hc. rewrite <- be_bits_mod, hide_low_bits by (auto with steg || lia).
  rewrite <- (be_bits_bin_value (padEnd k false chunk)) at 2.
  f_equal. rewrite length_padEnd. lia.
Qed.

Lemma padEnd_take_prefix {A} (k n : nat) (c : A) (l r : list A) :
  take n (drop k l) `prefix_of` r ->
  take (k + n) l `prefix_of` padEnd k c (take k l) ++ r.
Proof.
  intros H. rewrite <- take_take_drop.
  destruct (decide (k <= length l)%nat) as [Hl|Hl].
  - rewrite padEnd_ge by (rewrite length_take; lia). by apply prefix_app.
  - rewrite drop_ge, take_nil, app_nil_r by lia.
    unfold padEnd. rewrite <- app_assoc. apply prefix_app_r. done.
Qed.

Lemma extract_embed (k : nat) data : forall i bits,
  (1 <= k <= 8)%nat ->
  take (length (extract k i data)) bits
    `prefix_of` extract k i (embed k (js_shl 255 k) i bits data).
Proof.
  induction data as [|b rest IH]; intros i bits Hk; [apply prefix_nil|].
  destruct bits as [|c bits]; [rewrite take_nil; apply prefix_nil|].
  cbn [embed extract]. rewrite length_app.
  destruct (is_alpha i) eqn:Ha; cbn [extract]; rewrite Ha; cbn [app length]; [by apply IH|].
  rewrite extract_hide, length_be_bits by (rewrite ?length_take; lia).
  apply padEnd_take_prefix. by apply IH.
Qed.

Lemma extract_encoded_pixels c m k :
  (1 <= k <= 8)%nat -> wf_canvas c ->
  take (3 * (width c * height c) * k) (fullBinary m)
    `prefix_of` extract k 0 (encoded_pixels c m k).
Proof.
  intros Hk Hwf. rewrite <- (length_extract_pixels k (pixels c) _ Hwf).
  by apply extract_embed.
Qed.

Lemma extract_encoded_frame c m k :
  (1 <= k <= 8)%nat -> wf_canvas c -> latin1 m -> Z.of_nat (length m) < 2 ^ 32 ->
  fits c m k ->
  fullBinary m `prefix_of` extract k 0 (encoded_pixels c m k).
Proof.
  intros Hk Hwf Hl Hn Hfit. pose proof (extract_encoded_pixels c m k Hk Hwf) as H.
  rewrite take_ge in H; [done|]. rewrite length_fullBinary by done.
  unfold fits in Hfit. lia.
Qed.

Lemma extract_encoded_header c m k :
  (1 <= k <= 8)%nat -> wf_canvas c -> Z.of_nat (length m) < 2 ^ 32 ->
  32 <= 3 * Z.of_nat (width c * height c) * Z.of_nat k ->
  take 32 (extract k 0 (encoded_pixels c m k)) = lengthHeader m.
Proof.
  intros Hk Hwf Hn Hbits. destruct (extract_encoded_pixels c m k Hk Hwf) as [rest ->].
  pose proof (length_lengthHeader m Hn) as Hlen. unfold fullBinary.
  rewrite take_app_le by (rewrite length_take, length_app; lia).
  rewrite take_take, take_app_le by lia. rewrite take_ge; [done|lia].
Qed.

(** ** Parsing a stream that starts with a frame *)

Lemma binToString_stringToBin m : latin1 m -> binToString (stringToBin m) = m.
Proof. intros H. rewrite stringToBin_latin1 by done. by apply binToString_groups. Qed.

Lemma parseInt2_lengthHeader m :
  Z.of_nat (length m) < 2 ^ 32 -> parseInt2 (lengthHeader m) = Some (Z.of_nat (length m)).
Proof.
  intros H. rewrite lengthHeader_be_bits, parseInt2_be_bits by (done || lia).
  f_equal. apply Z.mod_small. split; [lia | done].
Qed.

Lemma parse_frame_fullBinary m rest maxBytes :
  latin1 m -> m <> [] -> Z.of_nat (length m) < 2 ^ 32 -> Z.of_nat (length m) <= maxBytes ->
  parse_frame maxBytes (fullBinary m ++ rest) = Ok m.
Proof.
  intros Hl Hne Hn Hmax. unfold parse_frame, fullBinary.
  assert (0 < Z.of_nat (length m)) by (destruct m; [done | simpl; lia]).
  rewrite <- app_assoc, take_app_length' by (by rewrite length_lengthHeader).
  rewrite parseInt2_lengthHeader by done.
  destruct (Z.leb_spec (Z.of_nat (length m)) 0); [lia|].
  destruct (Z.ltb_spec maxBytes (Z.of_nat (length m))); [lia|]. cbn [orb].
  rewrite !length_app, length_lengthHeader, length_stringToBin by done.
  destruct (Z.ltb_spec (Z.of_nat (32 + (8 * length m + length rest)))
              (32 + Z.of_nat (length m) * 8)); [lia|].
  rewrite drop_app_length' by (by rewrite length_lengthHeader).
  rewrite take_app_length' by (rewrite length_stringToBin by done; lia).
  by rewrite binToString_stringToBin.
Qed.

(** ** The round trip *)

Lemma fits_capacity c m k :
  m <> [] -> fits c m k <-> Z.of_nat (length m) <= canvas_capacity c k.
Proof.
  intros Hne. unfold fits, canvas_capacity.
  assert (0 < Z.of_nat (length m)) by (destruct m; [done | simpl; lia]).
  pose proof (Z.mul_div_le (3 * Z.of_nat (width c * height c) * Z.of_nat k) 8).
  split; intros Hf; [|lia].
  assert (Z.of_nat (length m) + 4 <= 3 * Z.of_nat (width c * height c) * Z.of_nat k / 8);
    [apply Z.div_le_lower_bound|]; lia.
Qed.

Lemma fits_nonempty c m k : fits c m k -> is_empty c = false.
Proof. unfold fits. rewrite is_empty_false. nia. Qed.

Lemma fits_not_too_small c m k :
  wf_canvas c -> fits c m k -> Qltb (totalAvailableBits (pixels c) k) 32 = false.
Proof.
  intros Hwf Hfit. rewrite (too_small_pixels _ _ _ Hwf).
  unfold fits in Hfit. apply Z.ltb_ge. lia.
Qed.

Lemma fits_maxPossibleBytes c m k :
  wf_canvas c -> fits c m k -> Z.of_nat (length m) <= maxPossibleBytes (pixels c) k.
Proof.
  intros Hwf Hfit. rewrite (maxPossibleBytes_pixels _ _ _ Hwf).
  unfold fits in Hfit. apply Z.div_le_lower_bound; lia.
Qed.

Lemma decode_encoded_pixels c m k :
  (1 <= k <= 8)%nat -> wf_canvas c -> context2d c = true ->
  latin1 m -> m <> [] -> Z.of_nat (length m) < 2 ^ 32 -> fits c m k ->
  decodeLSB (putImageData c (encoded_pixels c m k)) k = Ok m.
Proof.
  intros Hk Hwf Hctx Hl Hne Hn Hfit.
  assert (wf_canvas (putImageData c (encoded_pixels c m k))) as Hwf' by auto with steg.
  rewrite decodeLSB_decode_spec by lia. unfold decode_spec.
  rewrite (fits_not_too_small (putImageData c _) m k Hwf' Hfit).
  pose proof (fits_maxPossibleBytes (putImageData c _) m k Hwf' Hfit) as Hmax.
  cbn [putImageData context2d pixels] in *.
  rewrite Hctx, is_empty_putImageData, (fits_nonempty c m k) by done. cbn [negb].
  destruct (extract_encoded_frame c m k Hk Hwf Hl Hn Hfit) as [rest ->].
  by apply parse_frame_fullBinary.
Qed.

(** C1. Round trip: for a canvas with a 2d context whose buffer has four
    bytes per pixel, a bit depth between 1 and 8, and a non-empty Latin-1
    message whose frame of [32 + 8 * length] bits fits the colour bytes,
    [encodeLSB] succeeds and [decodeLSB] on the canvas it leaves returns the
    message. *)
Theorem decode_encode_roundtrip c m k :
  (1 <= k <= 8)%nat -> wf_canvas c -> context2d c = true ->
  latin1 m -> m <> [] -> Z.of_nat (length m) < 2 ^ 32 -> fits c m k ->
  exists c' r, encodeLSB c m k = Ok (c', r) /\ decodeLSB c' k = Ok m.
Proof.
  intros Hk Hwf Hctx Hl Hne Hn Hfit. eexists _, _.
  split; [by eapply encodeLSB_ok, fits_nonempty|]. by apply decode_encoded_pixels.
Qed.

Lemma decode_encode_roundtrip_witness :
  fits (zero_canvas 4 4) [65] 1 /\
  exists c' r, encodeLSB (zero_canvas 4 4) [65] 1 = Ok (c', r) /\ decodeLSB c' 1 = Ok [65].
Proof.
  assert (fits (zero_canvas 4 4) [65] 1) as Hfit by (unfold fits; simpl; lia).
  split; [exact Hfit|].
  apply decode_encode_roundtrip; [lia | apply wf_zero_canvas | reflexivity | | discriminate | simpl; lia | exact Hfit].
  repeat constructor; lia.
Defined.

(** ** Decoding a frame that does not fit, or an empty one *)

Lemma decode_after_encode_ok c m k :
  context2d c = true -> is_empty c = false ->
  decode_after_encode c m k = decodeLSB (putImageData c (encoded_pixels c m k)) k.
Proof. intros Hc He. unfold decode_after_encode. by rewrite encodeLSB_ok. Qed.

Lemma decode_encoded_invalid c m k :
  (1 <= k <= 8)%nat -> wf_canvas c -> context2d c = true -> is_empty c = false ->
  Z.of_nat (length m) < 2 ^ 32 ->
  m = [] \/ ~ fits c m k ->
  decodeLSB (putImageData c (encoded_pixels c m k)) k
  = Throw (if 3 * Z.of_nat (width c * height c) * Z.of_nat k <? 32
           then ImageTooSmall else NoValidMessage).
Proof.
  intros Hk Hwf Hctx He Hn Hbad.
  assert (wf_canvas (putImageData c (encoded_pixels c m k))) as Hwf' by auto with steg.
  rewrite decodeLSB_decode_spec by lia. unfold decode_spec.
  rewrite (too_small_pixels _ _ _ Hwf'), (maxPossibleBytes_pixels _ _ _ Hwf').
  rewrite is_empty_putImageData, He.
  cbn [putImageData context2d pixels width height]. rewrite Hctx. cbn [negb].
  destruct (Z.ltb_spec (3 * Z.of_nat (width c * height c) * Z.of_nat k) 32) as [|Hbits];
    [done|].
  f_equal. apply (parse_frame_invalid _ _ (Z.of_nat (length m))).
  - rewrite extract_encoded_header by done. by apply parseInt2_lengthHeader.
  - destruct Hbad as [->|Hfit]; [left; simpl; lia|right].
    unfold fits in Hfit. apply Z.div_lt_upper_bound; lia.
Qed.

(** C13. Header correctness: after a successful [encodeLSB] with a bit depth
    between 1 and 8 on a canvas buffer that offers at least 32 bits, the
    first 32 bits of the extracted stream, read as an unsigned big-endian
    number, are the length of the message. *)
Theorem encoded_header_correct c m k c' r :
  (1 <= k <= 8)%nat -> wf_canvas c -> Z.of_nat (length m) < 2 ^ 32 ->
  32 <= 3 * Z.of_nat (width c * height c) * Z.of_nat k ->
  encodeLSB c m k = Ok (c', r) ->
  parseInt2 (header_field k c') = Some (Z.of_nat (length m))
  /\ header_field k c' = be_bits 32 (Z.of_nat (length m)).
Proof.
  intros Hk Hwf Hn Hbits (_ & _ & -> & _)%encodeLSB_inv.
  unfold header_field. cbn [putImageData pixels].
  rewrite extract_encoded_header by done.
  split; [by apply parseInt2_lengthHeader | by apply lengthHeader_be_bits].
Qed.

(** C12. Silent truncation is detected by the decoder: when the frame does
    not fit the colour bytes of the canvas, [encodeLSB] still succeeds, and
    [decodeLSB] on its result throws "no valid message" (or "image too
    small" when the canvas offers fewer than 32 bits); it never returns a
    payload. *)
Theorem decode_oversized_fails c m k c' r :
  (1 <= k <= 8)%nat -> wf_canvas c -> Z.of_nat (length m) < 2 ^ 32 ->
  ~ fits c m k -> encodeLSB c m k = Ok (c', r) ->
  decodeLSB c' k
  = Throw (if 3 * Z.of_nat (width c * height c) * Z.of_nat k <? 32
           then ImageTooSmall else NoValidMessage).
Proof.
  intros Hk Hwf Hn Hfit (Hctx & He & -> & _)%encodeLSB_inv.
  apply decode_encoded_invalid; auto.
Qed.

(** C29. The empty message does not survive the round trip: [encodeLSB]
    accepts it and writes a header of zero, which [decodeLSB] rejects as
    "no valid message" (or "image too small"), whatever the canvas. *)
Theorem decode_empty_fails c k :
  (1 <= k <= 8)%nat -> wf_canvas c -> context2d c = true -> is_empty c = false ->
  is_ok (encodeLSB c [] k) = true
  /\ decode_after_encode c [] k
     = Throw (if 3 * Z.of_nat (width c * height c) * Z.of_nat k <? 32
              then ImageTooSmall else NoValidMessage).
Proof.
  intros Hk Hwf Hctx He. rewrite decode_after_encode_ok, encodeLSB_ok by done.
  split; [done|]. apply decode_encoded_invalid; auto. simpl. lia.
Qed.

(** C30. No round trip outside Latin-1: [decodeLSB] only ever returns code
    units below 256, so a message holding a larger code unit is never
    returned by decoding what [encodeLSB] produced from it, for any canvas
    and bit depth. *)
Theorem decode_non_latin1_differs c m k :
  ~ latin1 m -> decode_after_encode c m k <> Ok m.
Proof.
  intros Hm Hd. apply Hm. unfold decode_after_encode in Hd.
  destruct (encodeLSB c m k) as [[c' r]|]; [|done]. by eapply decodeLSB_latin1.
Qed.

(** The scenarios of the specification, evaluated: on a 4 by 4 buffer
    of zeros at depth 1 the message "A" survives the round trip; a message
    of ten bytes is accepted by [encodeLSB] and rejected by [decodeLSB] as
    "no valid message"; a buffer offering 24 bits is rejected as "too
    small". *)
Theorem specification_scenarios :
  decode_after_encode (zero_canvas 4 4) [65] 1 = Ok [65]
  /\ decode_after_encode (zero_canvas 4 4) ten_bytes 1
     = Throw NoValidMessage
  /\ decodeLSB (zero_canvas 4 2) 1 = Throw ImageTooSmall
  /\ decode_after_encode (zero_canvas 4 4) [72; 105] 4 = Ok [72; 105].
Proof. vm_compute. done. Qed.

(** A wrong bit depth can go unnoticed: there is a canvas and a
    message such that encoding at depth 1 and decoding at depth 2 returns
    the message; decoding with the depth used to encode is
    [decode_after_encode]. *)
Example wrong_depth_can_succeed :
  (forall c m k, transcode c m k k = decode_after_encode c m k)
  /\ wf_canvas primed_canvas
  /\ transcode primed_canvas [42; 42] 1 2 = Ok [42; 42]
  /\ transcode (zero_canvas 4 4) [42; 42] 1 2 = Throw NoValidMessage.
Proof. split; [done|]. split; [apply wf_encoded, wf_zero_canvas|]. by vm_compute. Qed.

(** ** Witnesses *)

Lemma encoded_header_correct_witness :
  parseInt2 (header_field 2 (putImageData (zero_canvas 4 4)
               (encoded_pixels (zero_canvas 4 4) [72; 105] 2)))
  = Some (Z.of_nat (length [72; 105]))
  /\ header_field 2 (putImageData (zero_canvas 4 4)
               (encoded_pixels (zero_canvas 4 4) [72; 105] 2))
     = be_bits 32 (Z.of_nat (length [72; 105])).
Proof.
  apply (encoded_header_correct (zero_canvas 4 4) [72; 105] 2 _ _ ltac:(lia)
           (wf_zero_canvas 4 4) ltac:(simpl; lia) ltac:(simpl; lia)
           (encodeLSB_ok (zero_canvas 4 4) [72; 105] 2 eq_refl eq_refl)).
Defined.

Lemma decode_oversized_fails_witness :
  decodeLSB (putImageData (zero_canvas 4 4) (encoded_pixels (zero_canvas 4 4) ten_bytes 1)) 1
  = Throw (if 3 * Z.of_nat (width (zero_canvas 4 4) * height (zero_canvas 4 4)) * Z.of_nat 1
              <? 32 then ImageTooSmall else NoValidMessage).
Proof.
  apply (decode_oversized_fails (zero_canvas 4 4) ten_bytes 1 _ _ ltac:(lia)
           (wf_zero_canvas 4 4) ltac:(simpl; lia) ltac:(unfold fits; simpl; lia)
           (encodeLSB_ok (zero_canvas 4 4) ten_bytes 1 eq_refl eq_refl)).
Defined.

Lemma decode_empty_fails_witness :
  is_ok (encodeLSB (zero_canvas 4 4) [] 1) = true
  /\ decode_after_encode (zero_canvas 4 4) [] 1
     = Throw (if 3 * Z.of_nat (width (zero_canvas 4 4) * height (zero_canvas 4 4)) * Z.of_nat 1
                 <? 32 then ImageTooSmall else NoValidMessage).
Proof.
  apply (decode_empty_fails (zero_canvas 4 4) 1 ltac:(lia) (wf_zero_canvas 4 4) eq_refl eq_refl).
Defined.

Lemma decode_non_latin1_differs_witness :
  decode_after_encode (zero_canvas 4 4) [300] 1 <> Ok [300].
Proof.
  apply (decode_non_latin1_differs (zero_canvas 4 4) [300] 1).
  intros Hl. inv Hl. lia.
Defined.
