(* ===== verification/Depth.v ===== *)
(** * Depth: what a canvas carries, and decoding at another bit depth

    [decodeLSB] succeeds exactly on the canvases that carry a frame:
    [carries c k m] says that the low-bit stream of [c] at depth [k] starts
    with the frame of the non-empty Latin-1 message [m] and that the frame
    fits.  The second half of the file compares the streams one buffer
    carries at two depths ([stream_deeper], [stream_shallower]) and derives
    that a message embedded at depth [k] in a cover whose colour bytes are
    blank in their low bits is never returned by decoding at another depth
    [k'].  (For covers that are not blank the decoder can be fooled, see
    [wrong_depth_can_succeed] in [Roundtrip].) *)

From Stdlib Require Import ZArith Lia QArith Qround List.
From stdpp Require Import base tactics list numbers.
From coqutil Require Import Byte.
From S2P Require Import Prelude BinStr JsNum Canvas Encode Decode Roundtrip.

#[local] Open Scope Z_scope.

(** ** Definitions *)

(** The canvas [c] carries the message [m] at depth [k]. *)
Definition carries (c : Canvas) (k : nat) (m : jsstring) : Prop :=
  context2d c = true /\ m <> [] /\ latin1 m /\ Z.of_nat (length m) < 2 ^ 32
  /\ fits c m k /\ fullBinary m `prefix_of` extract k 0 (pixels c).

(** The colour (non-alpha) bytes of a buffer whose first byte has index [i]. *)
Fixpoint colour_bytes (i : nat) (data : list byte) : list byte :=
  match data with
  | [] => []
  | b :: rest => (if is_alpha i then [] else [b]) ++ colour_bytes (S i) rest
  end.

(** The digits a list of bytes yields at depth [k]. *)
Definition stream (k : nat) (bs : list byte) : list bool :=
  flat_map (fun b => be_bits k (byte.unsigned b)) bs.

(** Bytes whose [d] low bits are zero, and covers made of such colour bytes. *)
Definition blank (d : nat) (bs : list byte) : Prop :=
  Forall (fun b => byte.unsigned b mod 2 ^ Z.of_nat d = 0) bs.

Definition blank_cover (d : nat) (c : Canvas) : Prop :=
  blank d (colour_bytes 0 (pixels c)).

(** A 2 by 2 cover with opaque pixels whose colour bytes are multiples of 16. *)
Definition grey_cover : Canvas :=
  {| width := 2; height := 2; context2d := true;
     pixels := map byte.of_Z [16; 32; 48; 255; 64; 80; 96; 255;
                              112; 128; 144; 255; 160; 176; 192; 255] |}.

(** Two bytes with the same [k] low bits, and two canvases of the same
    size whose colour bytes have the same [k] low bits: what a decoder at
    depth [k] cannot tell apart. *)
Definition low_eq (k : nat) (a b : byte) : Prop :=
  byte.unsigned a mod 2 ^ Z.of_nat k = byte.unsigned b mod 2 ^ Z.of_nat k.

Definition low_equiv (k : nat) (c1 c2 : Canvas) : Prop :=
  context2d c1 = context2d c2 /\ width c1 = width c2 /\ height c1 = height c2
  /\ length (pixels c1) = length (pixels c2)
  /\ Forall2 (low_eq k) (colour_bytes 0 (pixels c1)) (colour_bytes 0 (pixels c2)).

(** A 2 by 2 canvas that carries "A" at depth 4, and the same with
    transparent pixels and other upper bits. *)
Definition nibble_canvas : Canvas :=
  {| width := 2; height := 2; context2d := true;
     pixels := map byte.of_Z [0; 0; 0; 255; 0; 0; 0; 255; 0; 1; 4; 255; 1; 0; 0; 255] |}.

Definition tampered_canvas : Canvas :=
  {| width := 2; height := 2; context2d := true;
     pixels := map byte.of_Z [16; 32; 48; 0; 64; 80; 96; 0; 112; 129; 148; 0; 161; 0; 0; 0] |}.

(** ** A successful decode returns the frame the canvas carries *)

Lemma header_of_value s n :
  length s = 32%nat -> parseInt2 s = Some n -> s = be_bits 32 n /\ 0 <= n < 2 ^ 32.
Proof.
  intros Hlen. rewrite parseInt2_nonempty by (by destruct s). intros [= <-].
  pose proof (bin_value_range s) as R. rewrite Hlen in R.
  split; [|exact R]. rewrite <- Hlen at 1. symmetry. apply be_bits_bin_value.
Qed.

Lemma parse_frame_ok_frame maxBytes stream m :
  parse_frame maxBytes stream = Ok m ->
  m <> [] /\ latin1 m /\ Z.of_nat (length m) < 2 ^ 32
  /\ Z.of_nat (length m) <= maxBytes /\ fullBinary m `prefix_of` stream.
Proof.
  intros (n & Hn & Hpos & Hlen & ->)%parse_frame_ok.
  set (payload := take (Z.to_nat (n * 8)) (drop 32 stream)).
  assert (length payload = (8 * Z.to_nat n)%nat) as Hpl by (unfold payload; solve_len).
  pose proof (length_binToString _ _ Hpl) as Hm.
  destruct (header_of_value (take 32 stream) n) as [Hh Hr]; [solve_len | done |].
  assert (Z.of_nat (length (binToString payload)) = n) as Hmn by lia.
  split_and!; try lia.
  - intros E. rewrite E in Hmn. simpl in Hmn. lia.
  - apply binToString_latin1.
  - exists (drop (32 + Z.to_nat (n * 8)) stream). unfold fullBinary.
    rewrite lengthHeader_be_bits, Hmn, <- Hh by lia.
    rewrite stringToBin_latin1, (binToString_full _ _ Hpl) by apply binToString_latin1.
    unfold payload. by rewrite <- app_assoc, <- drop_drop, !take_drop.
Qed.

Lemma carries_decodes c k m :
  (1 <= k <= 30)%nat -> wf_canvas c -> carries c k m -> decodeLSB c k = Ok m.
Proof.
  intros Hk Hwf (Hctx & Hne & Hl & Hn & Hfit & rest & Hpre).
  rewrite decodeLSB_decode_spec by done. unfold decode_spec.
  rewrite Hctx, (fits_nonempty c m k), (fits_not_too_small c m k), Hpre by done.
  cbn [negb]. apply parse_frame_fullBinary; try done. by apply fits_maxPossibleBytes.
Qed.

Lemma decodes_carries c k m :
  (1 <= k <= 30)%nat -> wf_canvas c -> decodeLSB c k = Ok m -> carries c k m.
Proof.
  intros Hk Hwf. rewrite decodeLSB_decode_spec by done. unfold decode_spec.
  destruct (context2d c) eqn:Hctx; cbn [negb]; [|done].
  destruct (is_empty c); [done|]. destruct (Qltb _ 32); [done|].
  intros (Hne & Hl & Hn & Hmax & Hpre)%parse_frame_ok_frame.
  split_and!; try done. unfold fits.
  rewrite (maxPossibleBytes_pixels _ _ _ Hwf) in Hmax.
  pose proof (Z.mul_div_le (3 * Z.of_nat (width c * height c) * Z.of_nat k - 32) 8). lia.
Qed.

(** ** The streams of one buffer at two depths *)

Lemma extract_stream k data : forall i,
  extract k i data = stream k (colour_bytes i data).
Proof.
  induction data as [|b rest IH]; intros i; [done|].
  cbn [extract colour_bytes]. unfold stream in *. rewrite flat_map_app, IH.
  by destruct (is_alpha i); cbn [flat_map app]; rewrite ?app_nil_r.
Qed.

Lemma lookup_be_bits (w : nat) n : forall p : nat,
  (p < w)%nat -> be_bits w n !! p = Some (Z.testbit n (Z.of_nat (w - 1 - p))).
Proof.
  induction w as [|w IH]; intros p Hp; [lia|]. rewrite be_bits_S.
  destruct p as [|p]; cbn [lookup list_lookup].
  - do 3 f_equal. lia.
  - rewrite IH by lia. do 3 f_equal. lia.
Qed.

Lemma lookup_be_bits_true (w : nat) n (p : nat) :
  be_bits w n !! p = Some true -> (p < w)%nat /\ Z.testbit n (Z.of_nat (w - 1 - p)) = true.
Proof.
  intros H. assert (p < w)%nat as Hp.
  { apply lookup_lt_Some in H. by rewrite length_be_bits in H. }
  rewrite lookup_be_bits in H by done. by inv H.
Qed.

Lemma stream_cons k b bs : stream k (b :: bs) = be_bits k (byte.unsigned b) ++ stream k bs.
Proof. done. Qed.

Lemma lookup_stream_cons k b bs (p : nat) :
  stream k (b :: bs) !! p
  = if decide (p < k)%nat then be_bits k (byte.unsigned b) !! p else stream k bs !! (p - k)%nat.
Proof.
  rewrite stream_cons. case_decide.
  - by rewrite lookup_app_l by (by rewrite length_be_bits).
  - by rewrite lookup_app_r, length_be_bits by (rewrite length_be_bits; lia).
Qed.

Lemma testbit_mod_small n (k k' j : nat) :
  0 <= n -> n mod 2 ^ Z.of_nat k' < 2 ^ Z.of_nat k -> (k <= j < k')%nat ->
  Z.testbit n (Z.of_nat j) = false.
Proof.
  intros Hn Hlow Hj. rewrite <- (Z.mod_pow2_bits_low n (Z.of_nat k')) by lia.
  pose proof (Z.mod_pos_bound n (2 ^ Z.of_nat k') ltac:(lia)) as [H0 _].
  destruct (decide (n mod 2 ^ Z.of_nat k' = 0)) as [->|Hnz]; [apply Z.bits_0|].
  apply Z.bits_above_log2; [done|].
  apply Z.log2_lt_pow2; [lia|].
  eapply Z.lt_le_trans; [exact Hlow | apply Z.pow_le_mono_r; lia].
Qed.

(** Reading more bits per byte than were written moves every digit 1
    towards the end of the stream. *)
Lemma stream_deeper (k k' : nat) bs : forall p : nat,
  (k < k')%nat ->
  Forall (fun b => byte.unsigned b mod 2 ^ Z.of_nat k' < 2 ^ Z.of_nat k) bs ->
  stream k' bs !! p = Some true ->
  exists j : nat, (j < p)%nat /\ stream k bs !! j = Some true.
Proof.
  induction bs as [|b bs IH]; intros p Hk Hbs Hp; [done|]. inv Hbs.
  rewrite lookup_stream_cons in Hp. case_decide.
  - apply lookup_be_bits_true in Hp as [_ Hbit].
    destruct (decide (k' - 1 - p < k)%nat) as [Hlow|Hhigh].
    + exists (p - (k' - k))%nat. split; [lia|].
      rewrite lookup_stream_cons, decide_True, lookup_be_bits by lia.
      replace (k - 1 - (p - (k' - k)))%nat with (k' - 1 - p)%nat by lia. by rewrite Hbit.
    + rewrite (testbit_mod_small _ k k') in Hbit; [done| |done|lia].
      apply byte_range.
  - destruct (IH (p - k')%nat) as (j & Hj & Hbit); [done..|].
    exists (k + j)%nat. split; [lia|].
    rewrite lookup_stream_cons, decide_False by lia.
    by replace (k + j - k)%nat with j by lia.
Qed.

(** Reading fewer bits per byte than were written moves every digit 1
    towards the start of the stream. *)
Lemma stream_shallower (k k' : nat) bs : forall p : nat,
  (k' < k)%nat -> stream k' bs !! p = Some true ->
  exists j : nat, (p < j)%nat /\ stream k bs !! j = Some true.
Proof.
  induction bs as [|b bs IH]; intros p Hk Hp; [done|].
  rewrite lookup_stream_cons in Hp. case_decide.
  - apply lookup_be_bits_true in Hp as [_ Hbit].
    exists (p + (k - k'))%nat. split; [lia|].
    rewrite lookup_stream_cons, decide_True, lookup_be_bits by lia.
    replace (k - 1 - (p + (k - k')))%nat with (k' - 1 - p)%nat by lia. by rewrite Hbit.
  - destruct (IH (p - k')%nat) as (j & Hj & Hbit); [done..|].
    exists (k + j)%nat. split; [lia|].
    rewrite lookup_stream_cons, decide_False by lia.
    by replace (k + j - k)%nat with j by lia.
Qed.

(** ** The streams of an encoded blank cover *)

Lemma mod_pow2_le n (k k' : nat) :
  (k <= k')%nat -> n mod 2 ^ Z.of_nat k' = 0 -> n mod 2 ^ Z.of_nat k = 0.
Proof.
  intros Hk Hn. apply Z.mod_divide in Hn; [|apply Z.pow_nonzero; lia].
  apply Z.mod_divide; [apply Z.pow_nonzero; lia|].
  etrans; [|exact Hn]. exists (2 ^ Z.of_nat (k' - k)).
  rewrite <- Z.pow_add_r by lia. f_equal. lia.
Qed.

Lemma blank_le (d d' : nat) bs : (d' <= d)%nat -> blank d bs -> blank d' bs.
Proof. intros Hd. apply Forall_impl. intros b. by apply mod_pow2_le. Qed.

Lemma be_bits_blank (k : nat) n (p : nat) :
  n mod 2 ^ Z.of_nat k = 0 -> be_bits k n !! p <> Some true.
Proof.
  intros Hn [Hp Hbit]%lookup_be_bits_true.
  rewrite <- (Z.mod_pow2_bits_low n (Z.of_nat k)), Hn, Z.bits_0 in Hbit by lia. done.
Qed.

Lemma stream_blank k bs : forall p : nat, blank k bs -> stream k bs !! p <> Some true.
Proof.
  induction bs as [|b bs IH]; intros p Hbs; [done|]. inv Hbs.
  rewrite lookup_stream_cons. case_decide; [by apply be_bits_blank | by apply IH].
Qed.

Lemma hide_blank (k k' : nat) b chunk :
  (k <= k' <= 8)%nat -> (length chunk <= k)%nat -> 0 <= b < 256 ->
  b mod 2 ^ Z.of_nat k' = 0 ->
  byte.unsigned (hide k (js_shl 255 k) b chunk) mod 2 ^ Z.of_nat k'
  = bin_value (padEnd k false chunk).
Proof.
  intros Hk Hc Hb Hz. rewrite hide_set_low by (done || lia). unfold set_low.
  rewrite (mod_pow2_le b k k') by (done || lia).
  pose proof (bin_value_chunk_range k chunk Hc) as Hv.
  pose proof (pow2_le_mono k k' ltac:(lia)).
  rewrite Z.sub_0_r, Z.add_mod, Hz, Z.add_0_l, Z.mod_mod by (apply Z.pow_nonzero; lia).
  apply Z.mod_small. lia.
Qed.

Lemma lookup_padEnd_true (k : nat) (bits : list bool) (p : nat) :
  padEnd k false (take k bits) !! p = Some true -> bits !! p = Some true.
Proof.
  unfold padEnd. intros [H|[_ H]]%lookup_app_Some.
  - by apply lookup_take_Some in H as [H _].
  - by apply lookup_replicate in H as [? _].
Qed.

Lemma colour_bytes_cons i b rest :
  colour_bytes i (b :: rest)
  = if is_alpha i then colour_bytes (S i) rest else b :: colour_bytes (S i) rest.
Proof. cbn [colour_bytes]. by destruct (is_alpha i). Qed.

Lemma colour_bytes_embed_cons k mask i c bits b rest :
  colour_bytes i (embed k mask i (c :: bits) (b :: rest))
  = if is_alpha i then colour_bytes (S i) (embed k mask (S i) (c :: bits) rest)
    else hide k mask (byte.unsigned b) (take k (c :: bits))
           :: colour_bytes (S i) (embed k mask (S i) (drop k (c :: bits)) rest).
Proof. cbn [embed]. by destruct (is_alpha i) eqn:Ha; rewrite colour_bytes_cons, Ha. Qed.

(** At the depth it was written with, an encoded blank cover shows no digit
    1 that the frame does not have. *)
Lemma stream_embed (k : nat) data : forall i (bits : list bool) (p : nat),
  (1 <= k <= 8)%nat -> blank k (colour_bytes i data) ->
  stream k (colour_bytes i (embed k (js_shl 255 k) i bits data)) !! p = Some true ->
  bits !! p = Some true.
Proof.
  induction data as [|b rest IH]; intros i bits p Hk Hbl Hp; [done|].
  destruct bits as [|c bits]; [cbn [embed] in Hp; by eapply stream_blank in Hp|].
  revert Hbl Hp. rewrite colour_bytes_cons, colour_bytes_embed_cons.
  destruct (is_alpha i); intros Hbl Hp; [by eapply IH|].
  inv Hbl. rewrite lookup_stream_cons, extract_hide in Hp by (rewrite ?length_take; lia).
  case_decide; [by eapply lookup_padEnd_true|].
  apply (IH _ _ (p - k)%nat) in Hp; [|done..].
  unfold bitstring in *. rewrite lookup_drop in Hp.
  by replace (k + (p - k))%nat with p in Hp by lia.
Qed.

(** Encoded at depth [k], a cover that is blank at depth [k'] only uses the
    [k] low bits of its colour bytes. *)
Lemma embed_low (k k' : nat) data : forall i bits,
  (1 <= k)%nat -> (k < k' <= 8)%nat -> blank k' (colour_bytes i data) ->
  Forall (fun b => byte.unsigned b mod 2 ^ Z.of_nat k' < 2 ^ Z.of_nat k)
    (colour_bytes i (embed k (js_shl 255 k) i bits data)).
Proof.
  induction data as [|b rest IH]; intros i bits Hk Hk' Hbl; [done|].
  assert (forall bs, blank k' bs ->
            Forall (fun b => byte.unsigned b mod 2 ^ Z.of_nat k' < 2 ^ Z.of_nat k) bs) as Hzero.
  { intros bs. apply Forall_impl. intros x ->. apply pow2_pos. }
  destruct bits as [|c bits]; [cbn [embed]; by apply Hzero|].
  revert Hbl. rewrite colour_bytes_cons, colour_bytes_embed_cons.
  destruct (is_alpha i); intros Hbl; [by apply IH|].
  inv Hbl. constructor; [|by apply IH].
  rewrite hide_blank by (rewrite ?length_take; auto with steg; lia).
  apply bin_value_chunk_range. rewrite length_take. lia.
Qed.

(** ** A frame without a digit 1 *)

Lemma bin_value_no_one s : (forall p : nat, s !! p <> Some true) -> bin_value s = 0.
Proof.
  induction s as [|b s IH]; intros H; [done|]. rewrite bin_value_cons.
  rewrite IH by (intros p; apply (H (S p))).
  destruct b; [by destruct (H 0%nat) | simpl; lia].
Qed.

Lemma fullBinary_has_one m :
  m <> [] -> Z.of_nat (length m) < 2 ^ 32 ->
  ~ (forall p : nat, fullBinary m !! p <> Some true).
Proof.
  intros Hne Hn Hall.
  assert (bin_value (lengthHeader m) = 0) as Hz.
  { apply bin_value_no_one. intros p Hp. apply (Hall p). unfold fullBinary.
    by apply lookup_app_l_Some. }
  rewrite lengthHeader_be_bits, bin_value_be_bits, Z.mod_small in Hz by lia.
  destruct m; [done | simpl in Hz; lia].
Qed.

(** Nothing is decoded from a cover whose low bits are blank: the header of
    every frame has a one. *)
Lemma blank_cover_undecodable c k m :
  (1 <= k <= 30)%nat -> wf_canvas c -> blank_cover k c -> decodeLSB c k <> Ok m.
Proof.
  intros Hk Hwf Hb Hd.
  destruct (decodes_carries c k m Hk Hwf Hd) as (_ & Hne & _ & Hn & _ & Hpre).
  apply (fullBinary_has_one m Hne Hn). intros p Hp.
  apply (stream_blank k (colour_bytes 0 (pixels c)) p Hb).
  rewrite <- extract_stream. by eapply prefix_lookup_Some.
Qed.

Lemma no_one_forward (l : list bool) :
  (forall p : nat, l !! p = Some true -> exists j : nat, (j < p)%nat /\ l !! j = Some true) ->
  forall p : nat, l !! p <> Some true.
Proof.
  intros Hstep p. induction p as [p IH] using lt_wf_ind. intros Hp.
  destruct (Hstep p Hp) as (j & Hj & Hbit). by apply (IH j).
Qed.

Lemma no_one_backward (l : list bool) :
  (forall p : nat, l !! p = Some true -> exists j : nat, (p < j)%nat /\ l !! j = Some true) ->
  forall p : nat, l !! p <> Some true.
Proof.
  intros Hstep.
  assert (forall n p : nat, (length l - p <= n)%nat -> l !! p <> Some true) as H.
  { induction n as [|n IH]; intros p Hn Hp.
    - apply lookup_lt_Some in Hp. lia.
    - destruct (Hstep p Hp) as (j & Hj & Hbit). apply (IH j); [|done].
      apply lookup_lt_Some in Hbit. lia. }
  intros p. apply (H (length l)). lia.
Qed.

(** ** Decoding at another depth *)

Lemma frame_not_at_other_depth (k k' : nat) bs (frame : list bool) :
  k <> k' ->
  (forall p : nat, stream k bs !! p = Some true -> frame !! p = Some true) ->
  ((k < k')%nat ->
   Forall (fun b => byte.unsigned b mod 2 ^ Z.of_nat k' < 2 ^ Z.of_nat k) bs) ->
  frame `prefix_of` stream k' bs ->
  forall p : nat, frame !! p <> Some true.
Proof.
  intros Hne Hones Hlow Hpre.
  destruct (decide (k < k')%nat) as [Hlt|Hge].
  - apply no_one_forward. intros p Hp.
    pose proof (prefix_lookup_Some _ _ _ _ Hp Hpre) as Hq.
    destruct (stream_deeper k k' bs p) as (j & Hj & Hbit); auto. eauto.
  - apply no_one_backward. intros p Hp.
    pose proof (prefix_lookup_Some _ _ _ _ Hp Hpre) as Hq.
    destruct (stream_shallower k k' bs p) as (j & Hj & Hbit); [lia|done|]. eauto.
Qed.

(** C8. [decodeLSB] succeeds exactly on the canvases that carry a frame: for
    a bit depth between 1 and 30 and a buffer of four bytes per pixel, it
    returns [m] if and only if the canvas has a context, [m] is a non-empty
    Latin-1 string shorter than 2^32, its frame fits the colour bytes, and
    the low-bit stream starts with that frame. *)
Theorem decodeLSB_ok_iff c k m :
  (1 <= k <= 30)%nat -> wf_canvas c -> decodeLSB c k = Ok m <-> carries c k m.
Proof. intros Hk Hwf. split; [by apply decodes_carries | by apply carries_decodes]. Qed.

(** C21. A wrong bit depth is always detected on a blank cover: when the
    colour bytes of the cover are zero in their [max k k'] low bits, a
    message embedded at depth [k] is never returned by decoding at a
    different depth [k'] (both between 1 and 8), whatever the message and
    the size of the canvas. *)
Theorem wrong_depth_blank_cover c m k k' :
  (1 <= k <= 8)%nat -> (1 <= k' <= 8)%nat -> k <> k' -> wf_canvas c ->
  blank_cover (Nat.max k k') c -> transcode c m k k' <> Ok m.
Proof.
  intros Hk Hk' Hne Hwf Hbl Hd. unfold transcode in Hd.
  destruct (encodeLSB c m k) as [[c' r]|] eqn:E; [|done].
  apply encodeLSB_inv in E as (_ & _ & -> & _).
  apply decodes_carries in Hd as (_ & Hm & _ & Hn & _ & Hpre); [|lia|auto with steg].
  cbn [putImageData pixels] in Hpre. unfold encoded_pixels in Hpre.
  rewrite extract_stream in Hpre.
  apply (fullBinary_has_one m Hm Hn).
  eapply (frame_not_at_other_depth k k'); [done| | |exact Hpre].
  - intros p. apply stream_embed; [done|]. eapply blank_le; [|exact Hbl]. lia.
  - intros Hlt. apply embed_low; [lia..|]. eapply blank_le; [|exact Hbl]. lia.
Qed.

(** ** What a decoder sees *)

#[export] Instance low_eq_equivalence k : Equivalence (low_eq k).
Proof. unfold low_eq. split; [by intros ?|by intros ?? ->|by intros ??? -> ->]. Qed.

#[export] Instance low_equiv_equivalence k : Equivalence (low_equiv k).
Proof.
  unfold low_equiv. split.
  - by intros c.
  - intros c1 c2 (-> & -> & -> & -> & H). by split_and!.
  - intros c1 c2 c3 (-> & -> & -> & -> & H12) (-> & -> & -> & -> & H23).
    split_and!; [done..|by etrans].
Qed.

Lemma stream_low_eq k bs1 bs2 : Forall2 (low_eq k) bs1 bs2 -> stream k bs1 = stream k bs2.
Proof.
  induction 1 as [|a b ? ? Hab _ IH]; [done|]. rewrite !stream_cons, IH. f_equal.
  by rewrite <- (be_bits_mod k (byte.unsigned a)), Hab, be_bits_mod.
Qed.

#[export] Instance decode_spec_proper k :
  Proper (low_equiv k ==> eq) (fun c => decode_spec c k).
Proof.
  intros c1 c2 (Hc & Hw & Hh & Hl & Hlow). unfold decode_spec, is_empty.
  rewrite !extract_stream, (stream_low_eq _ _ _ Hlow), Hc, Hw, Hh.
  unfold maxPossibleBytes, totalAvailableBits. by rewrite Hl.
Qed.

(** C20. A decoder sees only the low bits of the colour bytes: two canvases
    of the same size whose colour bytes agree on their [k] low bits give the
    same result of [decodeLSB] at depth [k], message or error, whatever
    their alpha bytes and upper bits are. *)
Theorem decodeLSB_low_bits_only c1 c2 k :
  (1 <= k <= 30)%nat -> low_equiv k c1 c2 -> decodeLSB c1 k = decodeLSB c2 k.
Proof. intros Hk Hlow. rewrite !decodeLSB_decode_spec by done. by apply decode_spec_proper. Qed.

(** ** Depths the codec accepts but the view does not offer

    Neither function validates [bitsPerChannel].  At depth 0 the encoder
    walks the whole buffer and writes every byte back unchanged.  From
    depth 9 on a chunk no longer fits a byte: the mask clears the old byte
    and the clamped store keeps [min 255] of the chunk, so digits are lost. *)

Lemma toInt32_chunk (k : nat) chunk :
  (k <= 30)%nat -> (length chunk <= k)%nat ->
  toInt32 (parseInt2 (padEnd k false chunk)) = bin_value (padEnd k false chunk).
Proof.
  intros Hk Hc. pose proof (bin_value_chunk_range k chunk Hc) as R.
  pose proof (pow2_le_mono k 30 Hk).
  destruct (padEnd k false chunk) eqn:E; [done|].
  cbn [parseInt2 toInt32]. apply wrap32_small. lia.
Qed.

Lemma hide_deep (k : nat) b chunk :
  (8 <= k <= 23)%nat -> (length chunk <= k)%nat -> 0 <= b < 256 ->
  byte.unsigned (hide k (js_shl 255 k) b chunk)
  = Z.min 255 (bin_value (padEnd k false chunk)).
Proof.
  intros Hk Hc Hb. pose proof (bin_value_chunk_range k chunk Hc) as R.
  pose proof (pow2_le_mono 8 k ltac:(lia)). pose proof (pow2_le_mono k 23 ltac:(lia)).
  unfold hide. rewrite unsigned_store8, toInt32_chunk by (done || lia).
  rewrite js_and_high, Z.mod_small, Z.sub_diag by lia.
  unfold js_or. rewrite !wrap32_small by lia. rewrite Z.lor_0_l. unfold clamp8. lia.
Qed.

Lemma hide_depth_zero (x : byte) chunk :
  hide 0 (js_shl 255 0) (byte.unsigned x) (take 0 chunk) = x.
Proof.
  apply byte.unsigned_inj. pose proof (byte_range x).
  rewrite hide_set_low by (done || lia). unfold set_low.
  change (2 ^ Z.of_nat 0) with 1. rewrite Z.mod_1_r.
  replace (bin_value _) with 0 by done. lia.
Qed.

Lemma embed_depth_zero data : forall i bits, embed 0 (js_shl 255 0) i bits data = data.
Proof.
  induction data as [|x data IH]; intros i bits; [done|]. cbn [embed].
  destruct bits as [|d bits]; [done|]. rewrite hide_depth_zero, !IH.
  by destruct (is_alpha i).
Qed.

(** At depth 0 [encodeLSB] reports success and leaves the canvas as it
    was, whatever the message. *)
Theorem encodeLSB_depth_zero c m :
  context2d c = true -> is_empty c = false ->
  exists r, encodeLSB c m 0 = Ok (c, r) /\ capacity r = 0.
Proof.
  intros Hc He. rewrite encodeLSB_ok by done. unfold encoded_pixels.
  rewrite embed_depth_zero. eexists. split; [by destruct c|].
  cbn. unfold encode_capacity. by rewrite !Z.mul_0_r.
Qed.

(** At depth 9 the message "\255" comes back as "\247": the chunk
    [111100000] is stored as 255 and read back as [011111111]. *)
Example depth_nine_corrupts : transcode (zero_canvas 4 4) [255] 9 9 = Ok [247].
Proof. by vm_compute. Qed.

(** ** Witnesses *)

Lemma decodeLSB_ok_iff_witness :
  decodeLSB sample_canvas 8 = Ok [65] <-> carries sample_canvas 8 [65].
Proof. apply decodeLSB_ok_iff; [lia | reflexivity]. Defined.

Lemma wrong_depth_blank_cover_witness : transcode grey_cover [65; 66] 4 2 <> Ok [65; 66].
Proof.
  apply wrong_depth_blank_cover; [lia | lia | lia | reflexivity |].
  unfold blank_cover, blank. cbn. repeat constructor.
Defined.

Lemma decodeLSB_low_bits_only_witness :
  decodeLSB nibble_canvas 4 = decodeLSB tampered_canvas 4
  /\ decodeLSB tampered_canvas 4 = Ok [65].
Proof.
  split; [|by vm_compute].
  apply decodeLSB_low_bits_only; [lia|]. unfold low_equiv. split_and!; try done.
  cbn. repeat constructor.
Defined.
