(* ===== verification/Resample.v ===== *)
(** * Resample: [scaleImage] and the drawing interface (src/src/utils/steganography.ts)

    [scaleImage] sizes a fresh canvas from the image and the scale factor,
    asks for high-quality smoothing and draws the image into it.  The
    interpolation is the browser's; the codec and the application only
    rely on what the class [Platform] states: the buffer of a [w] by [h]
    canvas has [4 * w * h] bytes, an opaque image drawn at its natural
    size keeps its pixels, and drawn at any size it stays opaque.
    [nearest_platform] is an instance (nearest-neighbour sampling), so the
    interface is satisfiable and theorems proved against it can be run. *)

From Stdlib Require Import ZArith Lia QArith Qround List.
From stdpp Require Import base tactics list numbers.
From coqutil Require Import Byte.
From S2P Require Import Prelude BinStr JsNum Canvas.

#[local] Open Scope Z_scope.

Definition wf_image (img : Image) : Prop :=
  length (img_pixels img) = (4 * (img_width img * img_height img))%nat.

(** An image with pixels, all of them opaque. *)
Definition opaque_image (img : Image) : Prop :=
  wf_image img /\ (0 < img_width img)%nat /\ (0 < img_height img)%nat
  /\ opaque (img_pixels img) = true.

(** The smoothing settings of a 2d context: [imageSmoothingEnabled] and
    [imageSmoothingQuality].  A fresh context has smoothing enabled at low
    quality; [scaleImage] asks for high quality. *)
Inductive Quality : Type := QualityLow | QualityMedium | QualityHigh.

Record Smoothing : Type := {
  imageSmoothingEnabled : bool;
  imageSmoothingQuality : Quality
}.

Definition default_smoothing : Smoothing :=
  {| imageSmoothingEnabled := true; imageSmoothingQuality := QualityLow |}.

(** What the browser provides: [drawImage sm img w h] is the buffer of a
    [w] by [h] canvas after [ctx.drawImage(img, 0, 0, w, h)] on a context
    with the smoothing settings [sm], and [has_context w h] tells whether
    [getContext('2d')] succeeds on a canvas of that size.  Whatever the
    settings, the buffer has four bytes per pixel, an opaque image stays
    opaque at every size and, drawn at its natural size, keeps its pixels.
    Nothing is promised about the colours of pixels that are not opaque: a
    canvas may store colours premultiplied by alpha, and reading them back
    rounds. *)
Class Platform : Type := {
  drawImage : Smoothing -> Image -> nat -> nat -> list byte;
  has_context : nat -> nat -> bool;
  drawImage_length : forall sm img w h, length (drawImage sm img w h) = (4 * (w * h))%nat;
  drawImage_natural : forall sm img,
    wf_image img -> opaque (img_pixels img) = true ->
    drawImage sm img (img_width img) (img_height img) = img_pixels img;
  drawImage_opaque : forall sm img w h,
    opaque_image img -> opaque (drawImage sm img w h) = true
}.

(** [canvas.width = img.width * scale]: the canvas keeps the integer part. *)
Definition canvas_dim (n : nat) (scale : Q) : nat :=
  Z.to_nat (Qfloor (inject_Z (Z.of_nat n) * scale)).

Definition scaleImage `{Platform} (img : Image) (scale : Q) : result Error Canvas :=
  let w := canvas_dim (img_width img) scale in
  let h := canvas_dim (img_height img) scale in
  if negb (has_context w h) then Throw NoCanvasContext
  else
    let smoothing :=
      {| imageSmoothingEnabled := true; imageSmoothingQuality := QualityHigh |} in
    Ok {| width := w; height := h; context2d := true;
          pixels := drawImage smoothing img w h |}.

(** The image a canvas shows, and the canvas an image is drawn into at its
    natural size (the decode path of the application). *)
Definition natural_canvas `{Platform} (img : Image) : result Error Canvas :=
  let w := img_width img in
  let h := img_height img in
  if negb (has_context w h) then Throw NoCanvasContext
  else Ok {| width := w; height := h; context2d := true;
             pixels := drawImage default_smoothing img w h |}.

(** The scaled dimensions of [img] are the whole numbers [W] and [H]:
    the canvas of [scaleImage] truncates nothing. *)
Definition whole_dims (img : Image) (scale : Q) (W H : nat) : Prop :=
  (inject_Z (Z.of_nat (img_width img)) * scale == inject_Z (Z.of_nat W))%Q
  /\ (inject_Z (Z.of_nat (img_height img)) * scale == inject_Z (Z.of_nat H))%Q.

(** ** An instance: nearest-neighbour sampling *)

Definition pixel_at (img : Image) (x y : nat) : list byte :=
  take 4 (drop (4 * (y * img_width img + x)) (img_pixels img) ++ replicate 4 Byte.x00).

Definition nearest_draw (img : Image) (w h : nat) : list byte :=
  flat_map (fun y =>
    flat_map (fun x => pixel_at img (x * img_width img / w) (y * img_height img / h))
      (seq 0 w)) (seq 0 h).

(** Images used to run the theorems: [blank_image] is opaque white and
    [blank_canvas] is the canvas that shows it. *)
Definition blank_image (w h : nat) : Image :=
  {| img_width := w; img_height := h; img_pixels := replicate (4 * (w * h)) Byte.xff |}.

Definition blank_canvas (w h : nat) : Canvas :=
  {| width := w; height := h; context2d := true;
     pixels := replicate (4 * (w * h)) Byte.xff |}.

(** ** Lemmas *)

Lemma length_pixel_at img x y : length (pixel_at img x y) = 4%nat.
Proof. unfold pixel_at. solve_len. Qed.

Lemma length_nearest_draw img w h : length (nearest_draw img w h) = (4 * (w * h))%nat.
Proof.
  unfold nearest_draw. rewrite (flat_map_constant_length (c := 4 * w)).
  - solve_len.
  - intros y _. rewrite (flat_map_constant_length (c := 4)).
    + solve_len.
    + intros x _. apply length_pixel_at.
Qed.

Lemma flat_map_chunks {A} (c n : nat) (l : list A) :
  flat_map (fun i => take c (drop (c * i) l)) (seq 0 n) = take (c * n) l.
Proof.
  induction n as [|n IH]; [by rewrite Nat.mul_0_r|].
  rewrite seq_S, flat_map_app, IH. cbn [flat_map]. rewrite app_nil_r, Nat.add_0_l.
  rewrite take_take_drop. f_equal. lia.
Qed.

Lemma pixel_at_inside img x y :
  wf_image img -> (x < img_width img)%nat -> (y < img_height img)%nat ->
  pixel_at img x y
  = take 4 (drop (4 * x) (drop (4 * img_width img * y) (img_pixels img))).
Proof.
  intros Hwf Hx Hy. unfold pixel_at. rewrite drop_drop.
  replace (4 * img_width img * y + 4 * x)%nat with (4 * (y * img_width img + x))%nat by lia.
  apply take_app_le. rewrite length_drop, Hwf. nia.
Qed.

Lemma nearest_draw_natural img :
  wf_image img -> nearest_draw img (img_width img) (img_height img) = img_pixels img.
Proof.
  intros Hwf. unfold nearest_draw.
  rewrite (flat_map_ext_in _ (fun y => take (4 * img_width img)
             (drop (4 * img_width img * y) (img_pixels img)))).
  { rewrite flat_map_chunks. apply take_ge. rewrite Hwf. lia. }
  intros y [_ Hy]%in_seq. rewrite <- flat_map_chunks.
    apply flat_map_ext_in. intros x [_ Hx]%in_seq.
    rewrite !Nat.div_mul by lia. apply pixel_at_inside; (done || lia).
Qed.

Lemma pixel_at_opaque img x y :
  opaque_image img -> (x < img_width img)%nat -> (y < img_height img)%nat ->
  opaque (pixel_at img x y) = true.
Proof.
  intros (Hwf & _ & _ & Ho) Hx Hy. rewrite pixel_at_inside by done.
  rewrite drop_drop.
  replace (4 * img_width img * y + 4 * x)%nat with (4 * (y * img_width img + x))%nat by lia.
  by apply alpha_all_take4, alpha_all_drop.
Qed.

Lemma nearest_draw_opaque img w h :
  opaque_image img -> opaque (nearest_draw img w h) = true.
Proof.
  intros Hi. pose proof Hi as (_ & Hw & Hh & _). unfold nearest_draw.
  apply alpha_all_flat_map. intros y [_ Hy]%in_seq. split.
  - rewrite (flat_map_constant_length (c := 4)) by (intros; apply length_pixel_at).
    rewrite length_seq. first [by rewrite Nat.Div0.mod_mul | by rewrite Nat.mul_comm, Nat.Div0.mod_mul].
  - apply alpha_all_flat_map. intros x [_ Hx]%in_seq. split; [by rewrite length_pixel_at|].
    apply pixel_at_opaque; [done|..]; apply Nat.Div0.div_lt_upper_bound; nia.
Qed.

#[export] Instance nearest_platform : Platform := {|
  drawImage := fun _ => nearest_draw;
  has_context := fun _ _ => true;
  drawImage_length := fun _ => length_nearest_draw;
  drawImage_natural := fun _ img Hwf _ => nearest_draw_natural img Hwf;
  drawImage_opaque := fun _ => nearest_draw_opaque
|}.

Lemma blank_image_opaque w h : (0 < w)%nat -> (0 < h)%nat -> opaque_image (blank_image w h).
Proof.
  intros Hw Hh. unfold opaque_image, wf_image. cbn.
  split_and!; [by rewrite length_replicate | done.. | apply opaque_replicate].
Qed.

(** Scales are compared as rationals: the operations respect [==]. *)
#[export] Instance canvas_dim_proper n : Proper (Qeq ==> eq) (canvas_dim n).
Proof. intros s1 s2 E. unfold canvas_dim. by rewrite E. Qed.

#[export] Instance scaleImage_proper `{Platform} img : Proper (Qeq ==> eq) (scaleImage img).
Proof. intros s1 s2 E. unfold scaleImage. by rewrite !E. Qed.

Section Scale.
Context `{Platform}.

Lemma scaleImage_ok img scale c :
  scaleImage img scale = Ok c ->
  wf_canvas c /\ context2d c = true
  /\ width c = canvas_dim (img_width img) scale
  /\ height c = canvas_dim (img_height img) scale.
Proof.
  unfold scaleImage. destruct (negb _); [done|]. intros [= <-].
  unfold wf_canvas. cbn. by rewrite drawImage_length.
Qed.

Lemma scaleImage_opaque img scale c :
  opaque_image img -> scaleImage img scale = Ok c -> opaque (pixels c) = true.
Proof.
  intros Hi. unfold scaleImage. destruct (negb _); [done|]. intros [= <-].
  by apply drawImage_opaque.
Qed.

Lemma natural_canvas_ok img c :
  wf_image img -> opaque (img_pixels img) = true -> natural_canvas img = Ok c ->
  wf_canvas c /\ context2d c = true /\ pixels c = img_pixels img
  /\ width c = img_width img /\ height c = img_height img.
Proof.
  intros Hwf Ho. unfold natural_canvas. destruct (negb _); [done|]. intros [= <-].
  unfold wf_canvas. cbn. by rewrite drawImage_length, drawImage_natural.
Qed.

Lemma canvas_dim_integer n (s : nat) : canvas_dim n (inject_Z (Z.of_nat s)) = (n * s)%nat.
Proof.
  unfold canvas_dim. rewrite <- inject_Z_mult, Qfloor_Z. lia.
Qed.

Lemma canvas_dim_whole n scale (N : nat) :
  (inject_Z (Z.of_nat n) * scale == inject_Z (Z.of_nat N))%Q -> canvas_dim n scale = N.
Proof. intros E. unfold canvas_dim. rewrite E, Qfloor_Z. lia. Qed.

Lemma whole_dims_integer img (s : nat) :
  whole_dims img (inject_Z (Z.of_nat s)) (img_width img * s) (img_height img * s).
Proof. unfold whole_dims. by rewrite !Nat2Z.inj_mul, !inject_Z_mult. Qed.

Lemma whole_dims_proper img s1 s2 W H' :
  (s1 == s2)%Q -> whole_dims img s1 W H' -> whole_dims img s2 W H'.
Proof. intros E. unfold whole_dims. by rewrite E. Qed.

Lemma scaleImage_whole img scale W H' :
  whole_dims img scale W H' -> has_context W H' = true ->
  exists c, scaleImage img scale = Ok c /\ width c = W /\ height c = H'.
Proof.
  intros [Hw Hh] Hctx. unfold scaleImage.
  rewrite (canvas_dim_whole _ _ _ Hw), (canvas_dim_whole _ _ _ Hh), Hctx. by eexists.
Qed.

(** The dimension at a position of the slider, in integers. *)
Lemma canvas_dim_half (w n : nat) :
  canvas_dim w (Z.of_nat n # 2) = Z.to_nat (Z.of_nat w * Z.of_nat n / 2).
Proof.
  unfold canvas_dim. rewrite <- (Qfloor_inject_div _ 2). f_equal.
  apply Qfloor_comp. rewrite (Qmake_Qdiv (Z.of_nat n) 2), inject_Z_mult. field.
Qed.

Lemma canvas_dim_le n scale :
  (0 <= scale)%Q ->
  (inject_Z (Z.of_nat (canvas_dim n scale)) <= inject_Z (Z.of_nat n) * scale)%Q.
Proof.
  intros Hs. unfold canvas_dim. rewrite Z2Nat.id.
  - apply Qfloor_le.
  - change 0 with (Qfloor 0). apply Qfloor_resp_le, Qmult_le_0_compat; [|done].
    change 0%Q with (inject_Z 0). rewrite <- Zle_Qle. lia.
Qed.

End Scale.

(** C40. [scaleImage] does not reject an image without pixels: for an image
    of zero width or height (or a scale below [1 / width]) it returns an
    empty canvas whenever the context is available. *)
Theorem scaleImage_empty `{Platform} img scale :
  canvas_dim (img_width img) scale = 0%nat \/ canvas_dim (img_height img) scale = 0%nat ->
  has_context (canvas_dim (img_width img) scale) (canvas_dim (img_height img) scale) = true ->
  exists c, scaleImage img scale = Ok c /\ is_empty c = true /\ pixels c = [].
Proof.
  intros Hz Hctx. unfold scaleImage. rewrite Hctx. eexists. split; [done|].
  split; [unfold is_empty; cbn; destruct Hz as [-> | ->]; by rewrite ?orb_true_r|].
  cbn [pixels]. apply length_zero_iff_nil. rewrite drawImage_length. nia.
Qed.

Lemma scaleImage_empty_witness :
  exists c, scaleImage (blank_image 0 3) 1 = Ok c /\ is_empty c = true /\ pixels c = [].
Proof.
  apply (scaleImage_empty (blank_image 0 3) 1); [left; reflexivity | reflexivity].
Defined.
