(* ===== verification/App.v ===== *)
(** * App: the application state and its handlers (src/src/App.tsx)

    The React component keeps eleven state variables and changes them from
    event handlers and two effects.  [State] is that state, one setter per
    [useState]; [capacityEffect] and [modeEffect] are the two [useEffect]
    bodies; [imageLoaded], [resetAll] and the two halves of the asynchronous
    [handleProcess] are the handlers.  [editMessage] and [clickProcess]
    are the handlers of the editor and of the process button under the
    conditions the markup puts on these controls; [dispatch] runs one
    user event and the effects React runs after the render; [run] runs a
    sequence of events.  The closure an asynchronous
    [handleProcess] captured is kept beside the state ([pending]) until its
    continuation runs, so that events may interleave with it.  [offered]
    says which inputs the view can produce (depths 1 to 4, scales 1 to 4 in
    steps of 0.5).  The theorems give the invariants of the reachable
    states, show that an encode interaction on an opaque cover whose
    scaled dimensions are whole produces a decodable image, that at the
    slider positions 1.5, 2.5 and 3.5 every image with odd sides gets an
    undecodable one for a message of the capacity shown, what a whole
    factor of scaling adds to the capacity, and that the numbers of the
    capacity computation are exact in doubles. *)

From Stdlib Require Import ZArith Lia QArith Qround List.
From stdpp Require Import base tactics list numbers.
From coqutil Require Import Byte.
From S2P Require Import Prelude BinStr JsNum Canvas Encode Decode Roundtrip Resample.

#[local] Open Scope Z_scope.

(** ** State *)

Inductive Mode : Type := EncodeMode | DecodeMode.

#[export] Instance Mode_eq_dec : EqDecision Mode.
Proof. solve_decision. Defined.

(** The value of the [error] state: the message of the error that was
    caught, identified by the error that produced it. *)
Inductive AppError : Type :=
| CodecError (e : Error)
| MessageTooLong (cap : Z).

Record State : Type := {
  image : option Image;
  originalImage : option Image;
  message : jsstring;
  decodedMessage : option jsstring;
  bitsPerChannel : nat;
  scale : Q;
  mode : Mode;
  resultImage : option Image;
  isProcessing : bool;
  error : option AppError;
  capacity : Z
}.

Definition initialState : State := {|
  image := None; originalImage := None; message := []; decodedMessage := None;
  bitsPerChannel := 1; scale := 1; mode := EncodeMode; resultImage := None;
  isProcessing := false; error := None; capacity := 0
|}.

Definition setImage (v : option Image) (st : State) : State :=
  {| image := v; originalImage := originalImage st; message := message st;
     decodedMessage := decodedMessage st; bitsPerChannel := bitsPerChannel st;
     scale := scale st; mode := mode st; resultImage := resultImage st;
     isProcessing := isProcessing st; error := error st; capacity := capacity st |}.

Definition setOriginalImage (v : option Image) (st : State) : State :=
  {| image := image st; originalImage := v; message := message st;
     decodedMessage := decodedMessage st; bitsPerChannel := bitsPerChannel st;
     scale := scale st; mode := mode st; resultImage := resultImage st;
     isProcessing := isProcessing st; error := error st; capacity := capacity st |}.

Definition setMessage (v : jsstring) (st : State) : State :=
  {| image := image st; originalImage := originalImage st; message := v;
     decodedMessage := decodedMessage st; bitsPerChannel := bitsPerChannel st;
     scale := scale st; mode := mode st; resultImage := resultImage st;
     isProcessing := isProcessing st; error := error st; capacity := capacity st |}.

Definition setDecodedMessage (v : option jsstring) (st : State) : State :=
  {| image := image st; originalImage := originalImage st; message := message st;
     decodedMessage := v; bitsPerChannel := bitsPerChannel st;
     scale := scale st; mode := mode st; resultImage := resultImage st;
     isProcessing := isProcessing st; error := error st; capacity := capacity st |}.

Definition setBitsPerChannel (v : nat) (st : State) : State :=
  {| image := image st; originalImage := originalImage st; message := message st;
     decodedMessage := decodedMessage st; bitsPerChannel := v;
     scale := scale st; mode := mode st; resultImage := resultImage st;
     isProcessing := isProcessing st; error := error st; capacity := capacity st |}.

Definition setScale (v : Q) (st : State) : State :=
  {| image := image st; originalImage := originalImage st; message := message st;
     decodedMessage := decodedMessage st; bitsPerChannel := bitsPerChannel st;
     scale := v; mode := mode st; resultImage := resultImage st;
     isProcessing := isProcessing st; error := error st; capacity := capacity st |}.

Definition setMode (v : Mode) (st : State) : State :=
  {| image := image st; originalImage := originalImage st; message := message st;
     decodedMessage := decodedMessage st; bitsPerChannel := bitsPerChannel st;
     scale := scale st; mode := v; resultImage := resultImage st;
     isProcessing := isProcessing st; error := error st; capacity := capacity st |}.

Definition setResultImage (v : option Image) (st : State) : State :=
  {| image := image st; originalImage := originalImage st; message := message st;
     decodedMessage := decodedMessage st; bitsPerChannel := bitsPerChannel st;
     scale := scale st; mode := mode st; resultImage := v;
     isProcessing := isProcessing st; error := error st; capacity := capacity st |}.

Definition setIsProcessing (v : bool) (st : State) : State :=
  {| image := image st; originalImage := originalImage st; message := message st;
     decodedMessage := decodedMessage st; bitsPerChannel := bitsPerChannel st;
     scale := scale st; mode := mode st; resultImage := resultImage st;
     isProcessing := v; error := error st; capacity := capacity st |}.

Definition setError (v : option AppError) (st : State) : State :=
  {| image := image st; originalImage := originalImage st; message := message st;
     decodedMessage := decodedMessage st; bitsPerChannel := bitsPerChannel st;
     scale := scale st; mode := mode st; resultImage := resultImage st;
     isProcessing := isProcessing st; error := v; capacity := capacity st |}.

Definition setCapacity (v : Z) (st : State) : State :=
  {| image := image st; originalImage := originalImage st; message := message st;
     decodedMessage := decodedMessage st; bitsPerChannel := bitsPerChannel st;
     scale := scale st; mode := mode st; resultImage := resultImage st;
     isProcessing := isProcessing st; error := error st; capacity := v |}.

(** ** Effects *)

(** The capacity shown for an image, a scale and a bit depth. *)
Definition appCapacity (img : Image) (scale : Q) (k : nat) : Z :=
  let pixels := ((inject_Z (Z.of_nat (img_width img)) * scale)
                 * (inject_Z (Z.of_nat (img_height img)) * scale))%Q in
  let totalBits := (pixels * 3 * inject_Z (Z.of_nat k))%Q in
  let bytes := Qfloor (totalBits / 8) - 4 in
  Z.max 0 bytes.

(** The numbers the capacity effect computes on the way to [bytes], in the
    order of the source: both scaled dimensions (also the values
    [scaleImage] assigns to the canvas), [pixels], the two products of
    [totalBits], and the quotient handed to [Math.floor]. *)
Definition capacity_terms (img : Image) (scale : Q) (k : nat) : list Q :=
  let w := (inject_Z (Z.of_nat (img_width img)) * scale)%Q in
  let h := (inject_Z (Z.of_nat (img_height img)) * scale)%Q in
  [w; h; w * h; w * h * 3; w * h * 3 * inject_Z (Z.of_nat k);
   w * h * 3 * inject_Z (Z.of_nat k) / 8]%Q.

(** [useEffect(..., [originalImage, scale, bitsPerChannel])]. *)
Definition capacityEffect (st : State) : State :=
  match originalImage st with
  | Some img => setCapacity (appCapacity img (scale st) (bitsPerChannel st)) st
  | None => st
  end.

(** [useEffect(..., [mode])]. *)
Definition modeEffect (st : State) : State :=
  setError None (setResultImage None (setDecodedMessage None st)).

(** [===] on modes, also the comparison of the dependency [mode]. *)
Definition mode_eqb (a b : Mode) : bool := bool_decide (a = b).

(** The effects React runs after a render: each one whose dependencies
    changed.  [imageChanged] says whether [originalImage] now holds another
    element. *)
Definition renderEffects (imageChanged : bool) (old new : State) : State :=
  let st1 :=
    if imageChanged || negb (Qeq_bool (scale old) (scale new))
       || negb (bitsPerChannel old =? bitsPerChannel new)%nat
    then capacityEffect new else new in
  if mode_eqb (mode old) (mode new) then st1 else modeEffect st1.

(** ** Handlers *)

(** [img.onload] of [handleImageUpload]: [img] is the decoded file. *)
Definition imageLoaded (img : Image) (st : State) : State :=
  setError None (setDecodedMessage None (setResultImage None
    (setImage (Some img) (setOriginalImage (Some img) st)))).

Definition resetAll (st : State) : State :=
  setError None (setResultImage None (setDecodedMessage None
    (setMessage [] (setOriginalImage None (setImage None st))))).

Section Handlers.
Context `{Platform}.

(** The [try] block of [handleProcess] in encode mode, on the values the
    closure [cl] captured. *)
Definition processEncode (cl : State) (img : Image) : result AppError Image :=
  match scaleImage img (scale cl) with
  | Throw e => Throw (CodecError e)
  | Ok scaledCanvas =>
      if Z.of_nat (length (message cl)) >? capacity cl
      then Throw (MessageTooLong (capacity cl))
      else
        match encodeLSB scaledCanvas (message cl) (bitsPerChannel cl) with
        | Ok (_, result) => Ok (dataUrl result)
        | Throw e => Throw (CodecError e)
        end
  end.

(** The [try] block of [handleProcess] in decode mode. *)
Definition processDecode (cl : State) (img : Image) : result AppError jsstring :=
  match natural_canvas img with
  | Throw e => Throw (CodecError e)
  | Ok canvas =>
      match decodeLSB canvas (bitsPerChannel cl) with
      | Ok decoded => Ok decoded
      | Throw e => Throw (CodecError e)
      end
  end.

(** [handleProcess] up to its [await]: [None] is the early return. *)
Definition handleProcess_begin (st : State) : option State :=
  match originalImage st with
  | None => None
  | Some _ => Some (setError None (setIsProcessing true st))
  end.

(** [handleProcess] after its [await], with the closure [cl], on the state
    [st] current when it resumes. *)
Definition handleProcess_resume (cl : State) (st : State) : State :=
  match originalImage cl with
  | None => st
  | Some img =>
      let st1 :=
        match mode cl with
        | EncodeMode =>
            match processEncode cl img with
            | Ok url => setResultImage (Some url) st
            | Throw e => setError (Some e) st
            end
        | DecodeMode =>
            match processDecode cl img with
            | Ok decoded => setDecodedMessage (Some decoded) st
            | Throw e => setError (Some e) st
            end
        end in
      setIsProcessing false st1
  end.

(** The whole handler when nothing happens during its delay. *)
Definition handleProcess (st : State) : State :=
  match handleProcess_begin st with
  | None => st
  | Some st' => handleProcess_resume st st'
  end.

(** ** Events *)

(** [disabled] of the process button. *)
Definition processDisabled (st : State) : bool :=
  negb (bool_decide (is_Some (image st))) || isProcessing st
  || (mode_eqb (mode st) EncodeMode && bool_decide (message st = [])).

Inductive Event : Type :=
| ImageLoaded (img : Image)
| TypeMessage (s : jsstring)
| PickBits (k : nat)
| SlideScale (q : Q)
| SwitchMode (m : Mode)
| ClickReset
| ClickProcess
| ProcessResumes
| ClickDownload.

(** The component and the closure of a [handleProcess] that is waiting. *)
Record Sys : Type := {
  ui : State;
  pending : option State
}.

Definition initialSys : Sys := {| ui := initialState; pending := None |}.

Definition withUi (s : Sys) (st : State) : Sys := {| ui := st; pending := pending s |}.

(** The message editor: the textarea, with its [onChange], is rendered in
    encode mode only, so typing reaches [setMessage] in that mode and
    nowhere else. *)
Definition editMessage (m : jsstring) (s : Sys) : Sys :=
  if mode_eqb (mode (ui s)) EncodeMode then withUi s (setMessage m (ui s)) else s.

(** The process button: [onClick={handleProcess}] behind its [disabled]
    attribute.  A click on the enabled button runs the handler up to its
    [await] and leaves the closure waiting. *)
Definition clickProcess (s : Sys) : Sys :=
  if processDisabled (ui s) then s
  else
    match handleProcess_begin (ui s) with
    | Some st' => {| ui := st'; pending := Some (ui s) |}
    | None => s
    end.

(** An event reaches the component through the control the JSX wires it
    to: the guards of [editMessage] and [clickProcess] are those of the
    markup, the other handlers are called as they are.  State changes are
    followed by the effects of the render. *)
Definition dispatch (e : Event) (s : Sys) : Sys :=
  let st := ui s in
  match e with
  | ImageLoaded img => withUi s (renderEffects true st (imageLoaded img st))
  | TypeMessage m => editMessage m s
  | PickBits k => withUi s (renderEffects false st (setBitsPerChannel k st))
  | SlideScale q => withUi s (renderEffects false st (setScale q st))
  | SwitchMode m => withUi s (renderEffects false st (setMode m st))
  | ClickReset => withUi s (renderEffects true st (resetAll st))
  | ClickProcess => clickProcess s
  | ProcessResumes =>
      match pending s with
      | Some cl => {| ui := handleProcess_resume cl st; pending := None |}
      | None => s
      end
  | ClickDownload => s
  end.

Definition run (events : list Event) (s : Sys) : Sys :=
  fold_left (fun s e => dispatch e s) events s.

Definition reachable (s : Sys) : Prop := exists events, s = run events initialSys.

(** What the view offers: the depth buttons 1 to 4, and a slider from 1 to
    4 in steps of 0.5. *)
Definition half_step (q : Q) : Prop :=
  exists n : nat, (2 <= n <= 8)%nat /\ (q == Z.of_nat n # 2)%Q.

Definition offered (e : Event) : Prop :=
  match e with
  | PickBits k => (1 <= k <= 4)%nat
  | SlideScale q => half_step q
  | _ => True
  end.

(** The settings a user can reach through the view. *)
Definition settings_ok (st : State) : Prop :=
  (1 <= bitsPerChannel st <= 4)%nat /\ half_step (scale st).

(** Clicking the process button and letting the handler resume. *)
Definition process (s : Sys) : Sys := dispatch ProcessResumes (dispatch ClickProcess s).

End Handlers.

(** Systems used to run the theorems: a 4 by 4 image with the message "Hi",
    and a 3 by 3 image at scale 1.5 and depth 4 with 26 characters. *)
Definition ready_events : list Event :=
  [ImageLoaded (blank_image 4 4); TypeMessage [72; 105]].

Definition ready_sys : Sys := run (H := nearest_platform) ready_events initialSys.

(** The 4 by 4 image at scale 1.5 (a 6 by 6 canvas) with the message "Hi". *)
Definition half_events : list Event :=
  [ImageLoaded (blank_image 4 4); SlideScale (3 # 2); TypeMessage [72; 105]].

Definition half_sys : Sys := run (H := nearest_platform) half_events initialSys.

(** [ready_sys] with one character more than the capacity of 2. *)
Definition long_sys : Sys :=
  run (H := nearest_platform) (ready_events ++ [TypeMessage [72; 105; 33]]) initialSys.

Definition overfull_events : list Event :=
  [ImageLoaded (blank_image 3 3); SlideScale (3 # 2); PickBits 4;
   TypeMessage (replicate 26 65)].

Definition overfull_canvas : Canvas :=
  {| width := 4; height := 4; context2d := true;
     pixels := nearest_draw (blank_image 3 3) 4 4 |}.

Definition overfull_sys : Sys := run (H := nearest_platform) overfull_events initialSys.

(** ** Capacity *)

Lemma appCapacity_bits img scale k :
  appCapacity img scale k
  = Z.max 0 (Qfloor ((inject_Z (Z.of_nat (img_width img)) * scale)
                     * (inject_Z (Z.of_nat (img_height img)) * scale)
                     * 3 * inject_Z (Z.of_nat k) / 8) - 4).
Proof. reflexivity. Qed.

#[export] Instance appCapacity_proper img : Proper (Qeq ==> eq ==> eq) (appCapacity img).
Proof.
  intros s1 s2 E k ? <-. rewrite !appCapacity_bits. do 2 f_equal. by rewrite E.
Qed.

(** The capacity of the model at a position of the slider, in integers. *)
Lemma appCapacity_half img (n k : nat) :
  appCapacity img (Z.of_nat n # 2) k
  = Z.max 0 (Z.of_nat (img_width img) * Z.of_nat n
             * (Z.of_nat (img_height img) * Z.of_nat n) * 3 * Z.of_nat k / 32 - 4).
Proof.
  rewrite appCapacity_bits. do 2 f_equal. rewrite <- (Qfloor_inject_div _ 32).
  apply Qfloor_comp. rewrite (Qmake_Qdiv (Z.of_nat n) 2), !inject_Z_mult.
  change (inject_Z 3) with 3%Q. change (inject_Z 32) with 32%Q. field.
Qed.

Lemma appCapacity_mono img1 img2 s1 s2 (k1 k2 : nat) :
  (img_width img1 <= img_width img2)%nat -> (img_height img1 <= img_height img2)%nat ->
  (0 <= s1)%Q -> (s1 <= s2)%Q -> (k1 <= k2)%nat ->
  appCapacity img1 s1 k1 <= appCapacity img2 s2 k2.
Proof.
  intros Hw Hh Hs0 Hs Hk. rewrite !appCapacity_bits.
  apply Z.max_le_compat_l, Z.sub_le_mono_r, Qfloor_resp_le.
  apply Qmult_le_compat_r; [|done].
  assert (forall a b : nat, (a <= b)%nat ->
            (0 <= inject_Z (Z.of_nat a) <= inject_Z (Z.of_nat b))%Q) as Hinj.
  { intros a b Hab. split; [change 0%Q with (inject_Z 0)|]; rewrite <- Zle_Qle; lia. }
  destruct (Hinj _ _ Hw) as [Hw0 Hw1], (Hinj _ _ Hh) as [Hh0 Hh1], (Hinj _ _ Hk) as [Hk0 Hk1].
  assert (forall a b c d : Q, 0 <= a -> a <= b -> 0 <= c -> c <= d -> 0 <= a * c /\ a * c <= b * d)%Q
    as Hmul.
  { intros a b c d Ha Hab Hc Hcd. split; [by apply Qmult_le_0_compat|].
    apply Qle_trans with (a * d)%Q.
    - rewrite !(Qmult_comm a). apply Qmult_le_compat_r; done.
    - apply Qmult_le_compat_r; [done|]. by apply Qle_trans with c. }
  destruct (Hmul _ _ _ _ Hw0 Hw1 Hs0 Hs) as [A0 A1].
  destruct (Hmul _ _ _ _ Hh0 Hh1 Hs0 Hs) as [B0 B1].
  destruct (Hmul _ _ _ _ A0 A1 B0 B1) as [C0 C1].
  destruct (Hmul _ _ 3%Q 3%Q C0 C1 ltac:(done) ltac:(apply Qle_refl)) as [D0 D1].
  by destruct (Hmul _ _ _ _ D0 D1 Hk0 Hk1).
Qed.

(** ** Exact numbers *)

(** The capacity is computed without rounding: for every position of
    the slider (a multiple of one half from 1 to 4), a bit depth up to 8
    and an image of fewer than [2^20] pixels each way, every number the
    capacity effect and [scaleImage] compute is held exactly by a double,
    so the rational arithmetic of [appCapacity] and [canvas_dim] is the
    arithmetic the program performs. *)
Theorem capacity_numbers_exact img q (k : nat) :
  half_step q -> (k <= 8)%nat ->
  Z.of_nat (img_width img) < 2 ^ 20 -> Z.of_nat (img_height img) < 2 ^ 20 ->
  Forall double_exact (capacity_terms img q k).
Proof.
  intros (n & Hn & Hq) Hk Hw Hh. unfold capacity_terms. cbn zeta.
  set (W := Z.of_nat (img_width img)) in *. set (H' := Z.of_nat (img_height img)) in *.
  set (N := Z.of_nat n) in *. set (K := Z.of_nat k).
  assert (0 <= W * N < 2 ^ 23 /\ 0 <= H' * N < 2 ^ 23 /\ 0 <= K <= 8) as (HW & HH & HK)
    by (change (2 ^ 20) with 1048576 in *; change (2 ^ 23) with 8388608; subst W H' N K; nia).
  assert (0 <= W * N * (H' * N) < 2 ^ 46) as HP
    by (change (2 ^ 23) with 8388608 in *; change (2 ^ 46) with (8388608 * 8388608); nia).
  change (2 ^ 23) with 8388608 in *. change (2 ^ 46) with 70368744177664 in *.
  repeat apply Forall_cons_2; [..|apply Forall_nil_2]; rewrite Hq.
  - apply (double_exact_intro (W * N) 1); [lia..|].
    rewrite (Qmake_Qdiv N 2), inject_Z_mult. change (2 ^ Z.of_nat 1) with 2. field.
  - apply (double_exact_intro (H' * N) 1); [lia..|].
    rewrite (Qmake_Qdiv N 2), inject_Z_mult. change (2 ^ Z.of_nat 1) with 2. field.
  - apply (double_exact_intro (W * N * (H' * N)) 2); [lia..|].
    rewrite (Qmake_Qdiv N 2), !inject_Z_mult. change (2 ^ Z.of_nat 2) with 4. field.
  - apply (double_exact_intro (W * N * (H' * N) * 3) 2); [lia..|].
    rewrite (Qmake_Qdiv N 2), !inject_Z_mult. change (2 ^ Z.of_nat 2) with 4. field.
  - apply (double_exact_intro (W * N * (H' * N) * 3 * K) 2); [nia|lia|].
    rewrite (Qmake_Qdiv N 2), !inject_Z_mult. change (2 ^ Z.of_nat 2) with 4. field.
  - apply (double_exact_intro (W * N * (H' * N) * 3 * K) 5); [nia|lia|].
    rewrite (Qmake_Qdiv N 2), !inject_Z_mult. change (2 ^ Z.of_nat 5) with 32. field.
Qed.

(** ** Invariants of the event loop *)

Definition capacity_ok (st : State) : Prop :=
  forall img, originalImage st = Some img ->
    capacity st = appCapacity img (scale st) (bitsPerChannel st).

Section Invariants.
Context `{Platform}.

(** What holds in every reachable state: the capacity shown is the one of
    the current image, scale and bit depth; [isProcessing] is set exactly
    while a [handleProcess] waits; the preview and the image element go
    together; and a waiting closure captured an image and its capacity. *)
Definition sys_inv (s : Sys) : Prop :=
  capacity_ok (ui s)
  /\ (isProcessing (ui s) = true <-> is_Some (pending s))
  /\ image (ui s) = originalImage (ui s)
  /\ (forall cl, pending s = Some cl -> capacity_ok cl /\ is_Some (originalImage cl)).

Lemma capacity_ok_capacityEffect st : capacity_ok (capacityEffect st).
Proof.
  unfold capacityEffect. intros img Himg. destruct (originalImage st) as [i|] eqn:E.
  - cbn in *. rewrite E in Himg. by inv Himg.
  - by rewrite E in Himg.
Qed.

Lemma capacity_ok_modeEffect st : capacity_ok st -> capacity_ok (modeEffect st).
Proof. done. Qed.

Lemma capacity_ok_renderEffects b old new :
  (b = false -> originalImage new = originalImage old /\ capacity new = capacity old
                /\ capacity_ok old) ->
  capacity_ok (renderEffects b old new).
Proof.
  intros Hsame. unfold renderEffects.
  assert (capacity_ok
            (if b || negb (Qeq_bool (scale old) (scale new))
                || negb (bitsPerChannel old =? bitsPerChannel new)%nat
             then capacityEffect new else new)) as Hok.
  { destruct b; cbn [orb]; [apply capacity_ok_capacityEffect|].
    destruct (Qeq_bool _ _) eqn:Es; cbn [negb orb]; [|apply capacity_ok_capacityEffect].
    destruct (Nat.eqb_spec (bitsPerChannel old) (bitsPerChannel new)) as [Ek|];
      cbn [negb]; [|apply capacity_ok_capacityEffect].
    destruct (Hsame eq_refl) as (Ei & Ec & Hold). intros img Himg.
    rewrite Ec, <- Ek, (Hold img) by congruence.
    by apply appCapacity_proper; [apply Qeq_bool_iff|]. }
  destruct (mode_eqb _ _); [done | by apply capacity_ok_modeEffect].
Qed.

Lemma renderEffects_fields b old new :
  let st := renderEffects b old new in
  isProcessing st = isProcessing new /\ image st = image new
  /\ originalImage st = originalImage new /\ message st = message new
  /\ bitsPerChannel st = bitsPerChannel new /\ mode st = mode new
  /\ scale st = scale new.
Proof.
  unfold renderEffects, capacityEffect.
  destruct (_ || _), (mode_eqb _ _), (originalImage new) eqn:E; cbn; rewrite ?E; done.
Qed.

Lemma sys_inv_initial : sys_inv initialSys.
Proof.
  unfold sys_inv. split_and!; try done. split; [done | intros [? [=]]].
Qed.

Lemma sys_inv_withUi s st :
  sys_inv s -> capacity_ok st -> isProcessing st = isProcessing (ui s) ->
  image st = originalImage st -> sys_inv (withUi s st).
Proof.
  intros (_ & Hp & _ & Hcl) Hc Hproc Himg. unfold sys_inv. split_and!; cbn; try done.
  by rewrite Hproc.
Qed.

Lemma sys_inv_render s b new :
  sys_inv s ->
  (b = false -> originalImage new = originalImage (ui s) /\ capacity new = capacity (ui s)) ->
  isProcessing new = isProcessing (ui s) -> image new = originalImage new ->
  sys_inv (withUi s (renderEffects b (ui s) new)).
Proof.
  intros Hinv Hsame Hproc Himg.
  destruct (renderEffects_fields b (ui s) new) as (Ep & Ei & Eo & _).
  apply sys_inv_withUi; [done| |congruence..].
  apply capacity_ok_renderEffects. intros ->. destruct (Hsame eq_refl), Hinv as [? _]. done.
Qed.

Lemma sys_inv_dispatch e s : sys_inv s -> sys_inv (dispatch e s).
Proof.
  intros Hinv. pose proof Hinv as (Hc & Hp & Hi & Hcl).
  destruct e; cbn [dispatch]; unfold editMessage, clickProcess; try done.
  - by apply sys_inv_render.
  - destruct (mode_eqb _ _); [|done]. by apply sys_inv_withUi.
  - by apply sys_inv_render.
  - by apply sys_inv_render.
  - by apply sys_inv_render.
  - by apply sys_inv_render.
  - destruct (processDisabled (ui s)) eqn:Hd; [done|].
    unfold handleProcess_begin. destruct (originalImage (ui s)) as [img|] eqn:Ho; [|done].
    unfold sys_inv. split_and!; cbn; try done.
    + congruence.
    + intros cl [= <-]. split; [done | by rewrite Ho].
  - destruct (pending s) as [cl|] eqn:Hpend; [|done].
    destruct (Hcl cl eq_refl) as [_ [img Hcl_img]].
    unfold handleProcess_resume. rewrite Hcl_img.
    assert (forall st, capacity_ok st -> image st = originalImage st ->
              sys_inv {| ui := setIsProcessing false st; pending := None |}) as Hfin.
    { intros st ? ?. unfold sys_inv. split_and!; cbn; try done. }
    destruct (mode cl); [destruct (processEncode cl img) | destruct (processDecode cl img)];
      by apply Hfin.
Qed.

(** ** Settings reachable through the view *)

Lemma settings_ok_ext st st' :
  bitsPerChannel st' = bitsPerChannel st -> scale st' = scale st ->
  settings_ok st -> settings_ok st'.
Proof. unfold settings_ok. by intros -> ->. Qed.

Lemma settings_ok_render b old new :
  settings_ok new -> settings_ok (renderEffects b old new).
Proof.
  destruct (renderEffects_fields b old new) as (_ & _ & _ & _ & Ek & _ & Es).
  by apply settings_ok_ext.
Qed.

Lemma settings_ok_resume cl st :
  settings_ok st -> settings_ok (handleProcess_resume cl st).
Proof.
  unfold handleProcess_resume. intros Hst.
  repeat case_match; by apply (settings_ok_ext st).
Qed.

Lemma settings_ok_dispatch e s :
  offered e -> settings_ok (ui s) -> settings_ok (ui (dispatch e s)).
Proof.
  intros He Hst. pose proof Hst as [Hk Hq].
  destruct e; cbn [dispatch offered] in *; unfold editMessage, clickProcess in *;
    repeat case_match; simplify_eq; cbn [ui withUi];
    try done; try (by apply settings_ok_render); try (by apply settings_ok_resume).
  unfold handleProcess_begin in *. by case_match; simplify_eq.
Qed.

Lemma settings_ok_run events : forall s,
  Forall offered events -> settings_ok (ui s) -> settings_ok (ui (run events s)).
Proof.
  induction events as [|e events IH]; intros s Hev Hst; [done|].
  inv Hev. apply IH; [done|]. by apply settings_ok_dispatch.
Qed.

Lemma settings_ok_initial : settings_ok (ui initialSys).
Proof. split; [cbn; lia|]. exists 2%nat. split; [lia|]. reflexivity. Qed.

Lemma sys_inv_run events : forall s, sys_inv s -> sys_inv (run events s).
Proof.
  induction events as [|e events IH]; intros s Hs; [done|].
  apply IH. by apply sys_inv_dispatch.
Qed.

Lemma sys_inv_reachable s : reachable s -> sys_inv s.
Proof. intros [events ->]. apply sys_inv_run, sys_inv_initial. Qed.

(** ** The encode path of [handleProcess] *)

(** With whole scaled dimensions the capacity shown is the capacity of the
    canvas; for every scale it is at least that. *)
Lemma appCapacity_whole img scale (k W H' : nat) :
  whole_dims img scale W H' ->
  appCapacity img scale k = Z.max 0 (3 * Z.of_nat (W * H') * Z.of_nat k / 8 - 4).
Proof.
  intros [Hw Hh]. rewrite appCapacity_bits, Hw, Hh. do 2 f_equal.
  rewrite <- (Qfloor_inject_div _ 8). apply Qfloor_comp.
  rewrite !Nat2Z.inj_mul, !inject_Z_mult.
  change (inject_Z 3) with 3%Q. change (inject_Z 8) with 8%Q. field.
Qed.

Lemma capacity_whole img scale k W H' canvas :
  whole_dims img scale W H' -> scaleImage img scale = Ok canvas ->
  appCapacity img scale k = canvas_capacity canvas k.
Proof.
  intros Hd Hs. destruct (scaleImage_ok _ _ _ Hs) as (_ & _ & Hw & Hh).
  destruct Hd as [Ew Eh]. rewrite (canvas_dim_whole _ _ _ Ew) in Hw.
  rewrite (canvas_dim_whole _ _ _ Eh) in Hh.
  unfold canvas_capacity. rewrite Hw, Hh. by apply appCapacity_whole.
Qed.

Lemma capacity_overestimates img scale k canvas :
  (0 <= scale)%Q -> scaleImage img scale = Ok canvas ->
  canvas_capacity canvas k <= appCapacity img scale k.
Proof.
  intros H0 Hs. destruct (scaleImage_ok _ _ _ Hs) as (_ & _ & Hw & Hh).
  unfold canvas_capacity. rewrite appCapacity_bits, Hw, Hh.
  apply Z.max_le_compat_l, Z.sub_le_mono_r.
  rewrite <- (Qfloor_inject_div _ 8). apply Qfloor_resp_le.
  apply Qmult_le_compat_r; [|done].
  rewrite !Nat2Z.inj_mul, !inject_Z_mult. change (inject_Z 3) with 3%Q.
  pose proof (canvas_dim_le (img_width img) scale H0) as Lw.
  pose proof (canvas_dim_le (img_height img) scale H0) as Lh.
  assert (forall n : nat, 0 <= inject_Z (Z.of_nat n))%Q as Hpos.
  { intros n. change 0%Q with (inject_Z 0). rewrite <- Zle_Qle. lia. }
  assert (inject_Z (Z.of_nat (canvas_dim (img_width img) scale))
          * inject_Z (Z.of_nat (canvas_dim (img_height img) scale))
          <= inject_Z (Z.of_nat (img_width img)) * scale
             * (inject_Z (Z.of_nat (img_height img)) * scale))%Q as Hp
    by (apply Qmult_le_compat_nonneg; split; auto).
  rewrite (Qmult_comm 3). apply Qmult_le_compat_r; [|apply Hpos].
  by apply Qmult_le_compat_r.
Qed.

Lemma processEncode_too_long cl img canvas :
  scaleImage img (scale cl) = Ok canvas ->
  processEncode cl img = Throw (MessageTooLong (capacity cl))
  <-> capacity cl < Z.of_nat (length (message cl)).
Proof.
  intros Hs. unfold processEncode. rewrite Hs.
  destruct (Z.gtb_spec (Z.of_nat (length (message cl))) (capacity cl)).
  - split; [lia | done].
  - split; [|lia]. by destruct (encodeLSB _ _ _) as [[? ?]|].
Qed.

Lemma processEncode_ok cl img canvas :
  scaleImage img (scale cl) = Ok canvas -> is_empty canvas = false ->
  Z.of_nat (length (message cl)) <= capacity cl ->
  processEncode cl img
  = Ok (toDataURL (putImageData canvas
          (encoded_pixels canvas (message cl) (bitsPerChannel cl)))).
Proof.
  intros Hs He Hcap. unfold processEncode. rewrite Hs.
  destruct (Z.gtb_spec (Z.of_nat (length (message cl))) (capacity cl)); [lia|].
  destruct (scaleImage_ok _ _ _ Hs) as (_ & Hctx & _).
  by rewrite encodeLSB_ok.
Qed.

Lemma processDecode_dataURL cl canvas :
  wf_canvas canvas -> context2d canvas = true -> opaque (pixels canvas) = true ->
  has_context (width canvas) (height canvas) = true ->
  processDecode cl (toDataURL canvas)
  = match decodeLSB canvas (bitsPerChannel cl) with
    | Ok decoded => Ok decoded
    | Throw e => Throw (CodecError e)
    end.
Proof.
  intros Hwf Hc Ho Hctx. unfold processDecode, natural_canvas.
  cbn [toDataURL img_width img_height]. rewrite Hctx. cbn [negb].
  rewrite drawImage_natural by done.
  by rewrite (decodeLSB_ext _ canvas).
Qed.

Lemma processEncode_decode cl img canvas :
  opaque_image img ->
  scaleImage img (scale cl) = Ok canvas -> is_empty canvas = false ->
  has_context (width canvas) (height canvas) = true ->
  Z.of_nat (length (message cl)) <= capacity cl ->
  exists url,
    processEncode cl img = Ok url
    /\ processDecode cl url
       = match decodeLSB (putImageData canvas
                 (encoded_pixels canvas (message cl) (bitsPerChannel cl)))
               (bitsPerChannel cl) with
         | Ok decoded => Ok decoded
         | Throw e => Throw (CodecError e)
         end.
Proof.
  intros Hi Hs He Hctx Hcap. destruct (scaleImage_ok _ _ _ Hs) as (Hwf & Hc & _).
  eexists. split; [by apply processEncode_ok|].
  apply processDecode_dataURL; auto with steg.
  cbn [putImageData pixels]. rewrite encoded_opaque. by apply (scaleImage_opaque img (scale cl)).
Qed.

(** The capacity shown is never stale while an image is loaded: in
    every state reachable from the initial one by user events and resumed
    handlers, if an image is loaded then [capacity] is the value the
    capacity effect computes from that image, the current scale and the
    current bit depth. *)
Theorem reachable_capacity s img :
  reachable s -> originalImage (ui s) = Some img ->
  capacity (ui s) = appCapacity img (scale (ui s)) (bitsPerChannel (ui s)).
Proof. intros (Hc & _)%sys_inv_reachable Himg. by apply Hc. Qed.

(** [isProcessing] tracks the asynchronous handler: in every reachable
    state the flag is set exactly while a [handleProcess] is waiting to
    resume, the waiting closure captured an image, and the preview is set
    exactly when the image element is. *)
Theorem reachable_processing s :
  reachable s ->
  (isProcessing (ui s) = true <-> is_Some (pending s))
  /\ (forall cl, pending s = Some cl -> is_Some (originalImage cl))
  /\ image (ui s) = originalImage (ui s).
Proof.
  intros (_ & Hp & Hi & Hcl)%sys_inv_reachable. split_and!; [done| |done].
  intros cl Hpend. by destruct (Hcl cl Hpend).
Qed.

Lemma processEncode_whole_dims st img (W H' : nat) :
  opaque_image img ->
  capacity st = appCapacity img (scale st) (bitsPerChannel st) ->
  whole_dims img (scale st) W H' -> (1 <= bitsPerChannel st <= 8)%nat ->
  latin1 (message st) -> message st <> [] -> Z.of_nat (length (message st)) < 2 ^ 32 ->
  Z.of_nat (length (message st)) <= capacity st ->
  has_context W H' = true ->
  exists url, processEncode st img = Ok url /\ processDecode st url = Ok (message st).
Proof.
  intros Hop Hcap Hd Hk Hl Hne Hn Hguard Hctx.
  destruct (scaleImage_whole _ _ _ _ Hd Hctx) as (canvas & Hsc & Hw & Hh).
  destruct (scaleImage_ok _ _ _ Hsc) as (Hwf & Hc & _).
  assert (fits canvas (message st) (bitsPerChannel st)) as Hfit.
  { apply fits_capacity; [done|].
    by rewrite <- (capacity_whole img (scale st) _ W H' canvas Hd Hsc), <- Hcap. }
  destruct (processEncode_decode st img canvas Hop Hsc) as (url & He & Hdec);
    [by eapply fits_nonempty | by rewrite Hw, Hh | done |].
  exists url. split; [done|]. by rewrite Hdec, decode_encoded_pixels.
Qed.

(** C16. With whole scaled dimensions the capacity check is exact: with the
    capacity shown up to date and a non-empty message, the encode path
    refuses the message as too long exactly when its frame does not fit
    the colour bytes of the canvas that [scaleImage] produced.  This covers
    every whole-number scale, and the scales 1.5, 2.5 and 3.5 on images of
    even width and height. *)
Theorem guard_exact_whole_dims st img (W H' : nat) canvas :
  capacity st = appCapacity img (scale st) (bitsPerChannel st) ->
  whole_dims img (scale st) W H' -> scaleImage img (scale st) = Ok canvas ->
  message st <> [] ->
  processEncode st img = Throw (MessageTooLong (capacity st))
  <-> ~ fits canvas (message st) (bitsPerChannel st).
Proof.
  intros Hcap Hd Hsc Hne.
  rewrite (processEncode_too_long st img canvas Hsc), (fits_capacity _ _ _ Hne).
  rewrite Hcap, (capacity_whole img (scale st) _ W H' canvas Hd Hsc). lia.
Qed.

(** C17. For every scale the capacity check never refuses a message that
    fits: the capacity shown is at least the capacity of the canvas that
    [scaleImage] produced, so a "message too long" error means that the
    frame does not fit its colour bytes. *)
Theorem guard_refuses_only_unfit st img canvas :
  capacity st = appCapacity img (scale st) (bitsPerChannel st) ->
  (0 <= scale st)%Q -> scaleImage img (scale st) = Ok canvas -> message st <> [] ->
  canvas_capacity canvas (bitsPerChannel st) <= capacity st
  /\ (processEncode st img = Throw (MessageTooLong (capacity st)) ->
      ~ fits canvas (message st) (bitsPerChannel st)).
Proof.
  intros Hcap H0 Hsc Hne.
  pose proof (capacity_overestimates img _ (bitsPerChannel st) canvas H0 Hsc) as Hle.
  rewrite <- Hcap in Hle. split; [done|].
  rewrite (processEncode_too_long st img canvas Hsc), (fits_capacity _ _ _ Hne). lia.
Qed.

Lemma handleProcess_encode_ok st img url :
  originalImage st = Some img -> mode st = EncodeMode -> processEncode st img = Ok url ->
  handleProcess st
  = setIsProcessing false (setResultImage (Some url) (setError None (setIsProcessing true st))).
Proof.
  intros Himg Hmode He. unfold handleProcess, handleProcess_begin, handleProcess_resume.
  by rewrite Himg, Hmode, He.
Qed.

Lemma process_enabled s img :
  processDisabled (ui s) = false -> originalImage (ui s) = Some img ->
  process s = {| ui := handleProcess (ui s); pending := None |}.
Proof.
  intros Hd Himg. unfold process, handleProcess. cbn [dispatch]. unfold clickProcess. rewrite Hd.
  unfold handleProcess_begin. by rewrite Himg.
Qed.

Lemma sys_inv_enabled s img :
  sys_inv s -> originalImage (ui s) = Some img -> pending s = None ->
  message (ui s) <> [] -> processDisabled (ui s) = false.
Proof.
  intros (_ & Hp & Hi & _) Himg Hpend Hne. unfold processDisabled.
  rewrite Hi, Himg, (bool_decide_eq_true_2 (is_Some (Some img))) by done.
  rewrite (bool_decide_eq_false_2 _ Hne), andb_false_r, orb_false_r. cbn [negb orb].
  destruct (isProcessing (ui s)); [|done].
  destruct (proj1 Hp eq_refl) as [cl Hcl]. congruence.
Qed.

Lemma dispatch_imageLoaded s img :
  originalImage (ui (dispatch (ImageLoaded img) s)) = Some img
  /\ image (ui (dispatch (ImageLoaded img) s)) = Some img.
Proof.
  cbn [dispatch withUi ui].
  by destruct (renderEffects_fields true (ui s) (imageLoaded img (ui s)))
    as (_ & -> & -> & _).
Qed.

Lemma processDecode_bits cl cl' img :
  bitsPerChannel cl = bitsPerChannel cl' -> processDecode cl img = processDecode cl' img.
Proof. intros Hk. unfold processDecode. by rewrite Hk. Qed.

Lemma handleProcess_decode_ok st img m :
  originalImage st = Some img -> mode st = DecodeMode -> processDecode st img = Ok m ->
  handleProcess st
  = setIsProcessing false (setDecodedMessage (Some m) (setError None (setIsProcessing true st))).
Proof.
  intros Himg Hmode Hd. unfold handleProcess, handleProcess_begin, handleProcess_resume.
  by rewrite Himg, Hmode, Hd.
Qed.

Lemma processDisabled_decode st img :
  image st = Some img -> isProcessing st = false -> mode st = DecodeMode ->
  processDisabled st = false.
Proof.
  intros Hi Hp Hm. unfold processDisabled.
  by rewrite Hi, Hp, Hm, (bool_decide_eq_true_2 (is_Some (Some img))).
Qed.

(** Resetting, switching to decode mode and loading the image [img]: what
    the component holds afterwards. *)
Lemma reset_decode_load s img :
  let s' := dispatch (ImageLoaded img) (dispatch (SwitchMode DecodeMode) (dispatch ClickReset s)) in
  originalImage (ui s') = Some img /\ image (ui s') = Some img
  /\ mode (ui s') = DecodeMode /\ bitsPerChannel (ui s') = bitsPerChannel (ui s)
  /\ isProcessing (ui s') = isProcessing (ui s) /\ pending s' = pending s.
Proof.
  cbn [dispatch withUi ui pending].
  set (st1 := renderEffects true (ui s) (resetAll (ui s))).
  set (st2 := renderEffects false st1 (setMode DecodeMode st1)).
  pose proof (renderEffects_fields true (ui s) (resetAll (ui s))) as (? & _ & _ & _ & ? & _).
  pose proof (renderEffects_fields false st1 (setMode DecodeMode st1))
    as (? & _ & _ & _ & ? & ? & _).
  pose proof (renderEffects_fields true st2 (imageLoaded img st2)) as (? & ? & ? & _ & ? & ? & _).
  subst st2 st1. cbn in *. split_and!; congruence.
Qed.

(** C3. End to end, whole scaled dimensions: when [handleProcess] runs in
    encode mode on an opaque cover and a state whose capacity is up to
    date, with a scale that
    makes the scaled width and height whole numbers (every whole-number
    scale; 1.5, 2.5 and 3.5 on even-sized images), a bit depth between 1
    and 8 and a non-empty Latin-1 message that passes the capacity check,
    it reports no error and stores a result image from which the decode
    path recovers exactly the message. *)
Theorem handleProcess_encode_decodes st img (W H' : nat) :
  originalImage st = Some img -> opaque_image img -> mode st = EncodeMode ->
  capacity st = appCapacity img (scale st) (bitsPerChannel st) ->
  whole_dims img (scale st) W H' -> (1 <= bitsPerChannel st <= 8)%nat ->
  latin1 (message st) -> message st <> [] -> Z.of_nat (length (message st)) < 2 ^ 32 ->
  Z.of_nat (length (message st)) <= capacity st ->
  has_context W H' = true ->
  exists url,
    handleProcess st
    = setIsProcessing false (setResultImage (Some url)
        (setError None (setIsProcessing true st)))
    /\ processDecode st url = Ok (message st).
Proof.
  intros Himg Hop Hmode Hcap Hs Hk Hl Hne Hn Hguard Hctx.
  destruct (processEncode_whole_dims st img W H') as (url & He & Hd); try done.
  exists url. split; [by apply (handleProcess_encode_ok st img) | done].
Qed.

(** C14. The whole encode interaction: in any state reached through what the
    view offers, with an opaque image loaded, encode mode, no handler waiting,
    whole scaled dimensions and a non-empty Latin-1 message within the
    capacity shown, clicking the process button and letting the handler resume
    leaves no error and a result image from which the decode path recovers
    the message. *)
Theorem offered_encode_decodes events s img (W H' : nat) :
  Forall offered events -> s = run events initialSys ->
  originalImage (ui s) = Some img -> opaque_image img ->
  mode (ui s) = EncodeMode -> pending s = None ->
  whole_dims img (scale (ui s)) W H' ->
  latin1 (message (ui s)) -> message (ui s) <> [] ->
  Z.of_nat (length (message (ui s))) < 2 ^ 32 ->
  Z.of_nat (length (message (ui s))) <= capacity (ui s) ->
  has_context W H' = true ->
  exists url,
    process s
    = {| ui := setIsProcessing false (setResultImage (Some url)
                 (setError None (setIsProcessing true (ui s))));
         pending := None |}
    /\ processDecode (ui s) url = Ok (message (ui s)).
Proof.
  intros Hev -> Himg Hop Hmode Hpend Hs Hl Hne Hn Hguard Hctx.
  pose proof (sys_inv_run events _ sys_inv_initial) as Hinv.
  destruct (settings_ok_run events _ Hev settings_ok_initial) as [Hk _].
  destruct (processEncode_whole_dims _ img W H' Hop (proj1 Hinv img Himg) Hs) as (url & He & Hd);
    [lia | done..|].
  exists url. split; [|done].
  rewrite (process_enabled _ img), (handleProcess_encode_ok _ img url); try done.
  by apply (sys_inv_enabled _ img).
Qed.

(** The capacity shown can mislead: a sequence of inputs the view offers
    (a 3 by 3 image, scale 1.5, depth 4, 26 characters against a capacity
    shown of 26) after which processing reports no error and stores a
    result image that the decode path rejects. *)
Example offered_trace_undecodable :
  Forall offered overfull_events
  /\ Z.of_nat (length (message (ui overfull_sys))) <= capacity (ui overfull_sys)
  /\ error (ui (process (H := nearest_platform) overfull_sys)) = None
  /\ exists url,
       resultImage (ui (process (H := nearest_platform) overfull_sys)) = Some url
       /\ processDecode (H := nearest_platform) (ui overfull_sys) url
          = Throw (CodecError NoValidMessage).
Proof.
  split.
  { unfold overfull_events. repeat apply Forall_cons; try apply Forall_nil; try exact I.
    - exists 3%nat. split; [lia | reflexivity].
    - cbn [offered]. lia. }
  split; [vm_compute; discriminate|]. split; [vm_compute; reflexivity|].
  exists (toDataURL (putImageData overfull_canvas
                       (encoded_pixels overfull_canvas (replicate 26 65) 4))).
  split; vm_compute; reflexivity.
Qed.

(** C6. A fractional scale defeats the capacity check: whenever the message
    passes the application's check but its frame does not fit the
    (non-empty) canvas that [scaleImage] really produced from an opaque
    cover, [handleProcess]'s
    encode path still reports success, and the decode path on the image it
    returned fails. *)
Theorem processEncode_overestimate cl img canvas :
  opaque_image img ->
  scaleImage img (scale cl) = Ok canvas -> is_empty canvas = false ->
  has_context (width canvas) (height canvas) = true ->
  (1 <= bitsPerChannel cl <= 8)%nat -> Z.of_nat (length (message cl)) < 2 ^ 32 ->
  Z.of_nat (length (message cl)) <= capacity cl ->
  ~ fits canvas (message cl) (bitsPerChannel cl) ->
  exists url e, processEncode cl img = Ok url
    /\ processDecode cl url = Throw (CodecError e).
Proof.
  intros Hop Hsc Hne Hctx Hk Hn Hguard Hfit.
  destruct (scaleImage_ok _ _ _ Hsc) as (Hwf & Hc & _).
  destruct (processEncode_decode cl img canvas Hop Hsc Hne Hctx Hguard) as (url & He & Hd).
  exists url. eexists. split; [done|].
  rewrite Hd, decode_encoded_invalid; by auto.
Qed.

(** At the slider positions 1.5, 2.5 and 3.5 an image with odd sides gets
    a canvas that holds less than the capacity shown: each side loses
    half a pixel, and with it more than eight bits. *)
Lemma half_scale_gap img (n k : nat) canvas :
  Nat.Odd n -> (3 <= n)%nat -> Nat.Odd (img_width img) -> Nat.Odd (img_height img) ->
  (4 <= img_width img + img_height img)%nat -> (1 <= k)%nat ->
  scaleImage img (Z.of_nat n # 2) = Ok canvas ->
  0 < appCapacity img (Z.of_nat n # 2) k ->
  canvas_capacity canvas k < appCapacity img (Z.of_nat n # 2) k.
Proof.
  intros [s ->] Hn [a Ha] [b Hb] Hwh Hk (_ & _ & Hw & Hh)%scaleImage_ok.
  rewrite !appCapacity_half. unfold canvas_capacity.
  rewrite Hw, Hh, !canvas_dim_half, Ha, Hb.
  set (A := Z.of_nat (2 * a + 1) * Z.of_nat (2 * s + 1)).
  set (B := Z.of_nat (2 * b + 1) * Z.of_nat (2 * s + 1)).
  assert (exists A' B', A = 2 * A' + 1 /\ B = 2 * B' + 1 /\ 0 <= A' /\ 0 <= B' /\ 5 <= A' + B')
    as (A' & B' & -> & -> & HA & HB & HAB).
  { exists (Z.of_nat (2 * a * s + a + s)), (Z.of_nat (2 * b * s + b + s)). subst A B.
    split_and!; nia. }
  replace ((2 * A' + 1) / 2) with A' by (apply (Z.div_unique _ _ _ 1); lia).
  replace ((2 * B' + 1) / 2) with B' by (apply (Z.div_unique _ _ _ 1); lia).
  rewrite Nat2Z.inj_mul, !Z2Nat.id by lia.
  set (K := Z.of_nat k). assert (1 <= K) by lia.
  set (X := (2 * A' + 1) * (2 * B' + 1) * 3 * K). set (Y := 3 * (A' * B') * K).
  assert (32 * (Y / 8 + 1) <= X) as Hgap.
  { pose proof (Z.mul_div_le Y 8 ltac:(lia)). subst X Y. nia. }
  assert (Y / 8 + 1 <= X / 32) by (apply Z.div_le_lower_bound; lia). lia.
Qed.

Lemma half_scale_nonempty img (n : nat) canvas :
  (3 <= n)%nat -> (1 <= img_width img)%nat -> (1 <= img_height img)%nat ->
  scaleImage img (Z.of_nat n # 2) = Ok canvas -> is_empty canvas = false.
Proof.
  intros Hn Hw Hh (_ & _ & Ew & Eh)%scaleImage_ok. rewrite is_empty_false.
  rewrite Ew, Eh, !canvas_dim_half.
  assert (forall w : nat, (1 <= w)%nat -> (1 <= Z.to_nat (Z.of_nat w * Z.of_nat n / 2))%nat) as Hd.
  { intros w Hw1. assert (1 <= Z.of_nat w * Z.of_nat n / 2); [|lia].
    apply Z.div_le_lower_bound; nia. }
  pose proof (Hd _ Hw). pose proof (Hd _ Hh). nia.
Qed.

(** C15. Every image with odd sides is affected at every fractional position
    of the slider: at scale 1.5, 2.5 or 3.5, for an opaque image whose
    width and height are odd (and not both 1), any depth from 1 to 8 and
    an up-to-date capacity that is not zero, the canvas [scaleImage]
    produces holds less than the capacity shown, and a message of exactly
    the capacity shown passes the check, is reported as encoded, and
    cannot be decoded from the image returned. *)
Theorem half_scale_undecodable cl img (n : nat) canvas :
  Nat.Odd n -> (3 <= n)%nat -> Nat.Odd (img_width img) -> Nat.Odd (img_height img) ->
  (4 <= img_width img + img_height img)%nat -> opaque_image img ->
  (scale cl == Z.of_nat n # 2)%Q -> (1 <= bitsPerChannel cl <= 8)%nat ->
  capacity cl = appCapacity img (scale cl) (bitsPerChannel cl) ->
  0 < capacity cl < 2 ^ 32 -> Z.of_nat (length (message cl)) = capacity cl ->
  scaleImage img (scale cl) = Ok canvas ->
  has_context (width canvas) (height canvas) = true ->
  canvas_capacity canvas (bitsPerChannel cl) < capacity cl
  /\ exists url e,
       processEncode cl img = Ok url /\ processDecode cl url = Throw (CodecError e).
Proof.
  intros Hn Hn3 Hw Hh Hwh Hop Hq Hk Hcap Hpos Hlen Hsc Hctx.
  pose proof Hsc as Hsc'. rewrite Hq in Hsc'. rewrite Hq in Hcap.
  assert (canvas_capacity canvas (bitsPerChannel cl) < capacity cl) as Hgap.
  { rewrite Hcap.
    apply (half_scale_gap img n (bitsPerChannel cl) canvas Hn Hn3 Hw Hh Hwh ltac:(lia) Hsc').
    rewrite <- Hcap. lia. }
  split; [done|].
  assert (message cl <> []) as Hne by (intros E; rewrite E in Hlen; cbn in Hlen; lia).
  assert (is_empty canvas = false) as Hemp.
  { destruct Hw as [a Ha], Hh as [b Hb]. apply (half_scale_nonempty img n); [done|lia..|done]. }
  destruct (scaleImage_ok _ _ _ Hsc) as (Hwf & Hc & _).
  destruct (processEncode_decode cl img canvas Hop Hsc Hemp Hctx ltac:(lia)) as (url & He & Hd).
  exists url. eexists. split; [done|].
  rewrite Hd, decode_encoded_invalid; [done..|lia|].
  right. rewrite (fits_capacity _ _ _ Hne). lia.
Qed.

(** What [resetAll] resets: after the reset button (and the effects
    that follow) no image, message, result or error is left, while the bit
    depth, the scale, the mode, the processing flag and the capacity shown
    keep their values. *)
Theorem dispatch_reset s :
  let st := ui (dispatch ClickReset s) in
  image st = None /\ originalImage st = None /\ message st = []
  /\ decodedMessage st = None /\ resultImage st = None /\ error st = None
  /\ bitsPerChannel st = bitsPerChannel (ui s) /\ scale st = scale (ui s)
  /\ mode st = mode (ui s) /\ isProcessing st = isProcessing (ui s)
  /\ capacity st = capacity (ui s).
Proof.
  cbn [dispatch withUi ui]. unfold renderEffects, capacityEffect.
  destruct (mode_eqb _ _) eqn:Em; [done|].
  cbn in Em. by destruct (mode (ui s)).
Qed.

(** The integer part of a multiple. *)
Lemma Qfloor_multiple (m : Z) (x : Q) :
  0 < m -> m * Qfloor x <= Qfloor (inject_Z m * x) <= m * Qfloor x + (m - 1).
Proof.
  intros Hm. pose proof (Qfloor_le x) as Hlo. pose proof (Qlt_floor x) as Hhi.
  assert (0 < inject_Z m)%Q as Hq by (change 0%Q with (inject_Z 0); by rewrite <- Zlt_Qlt).
  split.
  - rewrite <- (Qfloor_Z (m * Qfloor x)). apply Qfloor_resp_le.
    rewrite inject_Z_mult. by apply Qmult_le_l.
  - assert (Qfloor (inject_Z m * x) < m * Qfloor x + m); [|lia].
    rewrite Zlt_Qlt. eapply Qle_lt_trans; [apply Qfloor_le|].
    replace (m * Qfloor x + m) with (m * (Qfloor x + 1)) by ring.
    rewrite inject_Z_mult. by apply Qmult_lt_l.
Qed.

(** C33. What scaling buys: multiplying the scale by a whole factor [n]
    multiplies the capacity shown by [n * n] and adds between four and
    five times [n * n - 1] bytes, because the four header bytes are
    reserved once and the integer part is taken once.  At twice the scale
    the capacity is four times as large plus 12 to 15 bytes. *)
Theorem appCapacity_scaled img q (n k : nat) :
  (1 <= n)%nat -> 0 < appCapacity img q k ->
  let n2 := Z.of_nat (n * n) in
  n2 * appCapacity img q k + 4 * (n2 - 1)
  <= appCapacity img (inject_Z (Z.of_nat n) * q) k
  <= n2 * appCapacity img q k + 5 * (n2 - 1).
Proof.
  intros Hn. cbn zeta. rewrite !appCapacity_bits.
  set (w := inject_Z (Z.of_nat (img_width img))).
  set (h := inject_Z (Z.of_nat (img_height img))).
  set (x := (w * q * (h * q) * 3 * inject_Z (Z.of_nat k) / 8)%Q).
  assert (w * (inject_Z (Z.of_nat n) * q) * (h * (inject_Z (Z.of_nat n) * q)) * 3
          * inject_Z (Z.of_nat k) / 8 == inject_Z (Z.of_nat (n * n)) * x)%Q as ->
    by (subst x; rewrite Nat2Z.inj_mul, inject_Z_mult; field).
  pose proof (Qfloor_multiple (Z.of_nat (n * n)) x ltac:(nia)). nia.
Qed.

(** C35. Capacity monotonicity: the capacity shown does not decrease when
    the image gets wider or higher, the scale larger or the bit depth
    larger. *)
Theorem appCapacity_monotone img1 img2 s1 s2 (k1 k2 : nat) :
  (img_width img1 <= img_width img2)%nat -> (img_height img1 <= img_height img2)%nat ->
  (0 <= s1)%Q -> (s1 <= s2)%Q -> (k1 <= k2)%nat ->
  appCapacity img1 s1 k1 <= appCapacity img2 s2 k2.
Proof. apply appCapacity_mono. Qed.

(** For a whole-number scale the capacity shown is the specification's
    [capacityBytes] of the scaled canvas:
    [max 0 (floor (width * height * 3 * k / 8) - 4)], and it is 146 for a
    10 by 10 image at scale 2 and depth 1. *)
Theorem appCapacity_whole_scale img (s : nat) k :
  appCapacity img (inject_Z (Z.of_nat s)) k
  = Z.max 0 (3 * Z.of_nat (img_width img * s * (img_height img * s)) * Z.of_nat k / 8 - 4)
  /\ appCapacity {| img_width := 10; img_height := 10; img_pixels := [] |} 2 1 = 146.
Proof. split; [apply appCapacity_whole, whole_dims_integer | reflexivity]. Qed.

End Invariants.


(** ** Witnesses *)

Lemma reachable_capacity_witness :
  capacity (ui overfull_sys)
  = appCapacity (blank_image 3 3) (scale (ui overfull_sys)) (bitsPerChannel (ui overfull_sys)).
Proof.
  apply (reachable_capacity (H := nearest_platform) overfull_sys);
    [eexists; reflexivity | vm_compute; reflexivity].
Defined.

Lemma handleProcess_encode_decodes_witness :
  exists url,
    handleProcess (H := nearest_platform) (ui half_sys)
    = setIsProcessing false (setResultImage (Some url)
        (setError None (setIsProcessing true (ui half_sys))))
    /\ processDecode (ui half_sys) url = Ok (message (ui half_sys)).
Proof.
  apply (handleProcess_encode_decodes (H := nearest_platform) (ui half_sys) (blank_image 4 4)
           6 6).
  - by vm_compute.
  - apply blank_image_opaque; lia.
  - by vm_compute.
  - by vm_compute.
  - by vm_compute.
  - vm_compute; lia.
  - vm_compute; repeat constructor; discriminate.
  - vm_compute; discriminate.
  - by vm_compute.
  - vm_compute; discriminate.
  - by vm_compute.
Defined.

Lemma offered_encode_decodes_witness :
  exists url,
    process (H := nearest_platform) half_sys
    = {| ui := setIsProcessing false (setResultImage (Some url)
                 (setError None (setIsProcessing true (ui half_sys))));
         pending := None |}
    /\ processDecode (ui half_sys) url = Ok (message (ui half_sys)).
Proof.
  apply (offered_encode_decodes (H := nearest_platform) half_events half_sys
           (blank_image 4 4) 6 6).
  - unfold half_events. repeat apply Forall_cons; try apply Forall_nil; try exact I.
    exists 3%nat. split; [lia | reflexivity].
  - reflexivity.
  - by vm_compute.
  - apply blank_image_opaque; lia.
  - by vm_compute.
  - by vm_compute.
  - by vm_compute.
  - vm_compute; repeat constructor; discriminate.
  - vm_compute; discriminate.
  - by vm_compute.
  - vm_compute; discriminate.
  - by vm_compute.
Defined.

Lemma processEncode_overestimate_witness :
  exists url e,
    processEncode (H := nearest_platform) (ui overfull_sys) (blank_image 3 3) = Ok url
    /\ processDecode (ui overfull_sys) url = Throw (CodecError e).
Proof.
  eapply (processEncode_overestimate (H := nearest_platform) (ui overfull_sys) (blank_image 3 3)
            overfull_canvas).
  - apply blank_image_opaque; lia.
  - vm_compute; reflexivity.
  - vm_compute; reflexivity.
  - vm_compute; reflexivity.
  - vm_compute; lia.
  - vm_compute; reflexivity.
  - vm_compute; discriminate.
  - unfold fits. vm_compute. intros Hle. by apply Hle.
Defined.

Lemma appCapacity_monotone_witness :
  appCapacity (blank_image 3 3) 1 1 <= appCapacity (blank_image 4 4) (3 # 2) 2.
Proof. apply appCapacity_monotone; vm_compute; try lia; discriminate. Defined.

Lemma reachable_processing_witness :
  (isProcessing (ui (dispatch (H := nearest_platform) ClickProcess ready_sys)) = true
   <-> is_Some (pending (dispatch (H := nearest_platform) ClickProcess ready_sys)))
  /\ (forall cl, pending (dispatch (H := nearest_platform) ClickProcess ready_sys) = Some cl ->
        is_Some (originalImage cl))
  /\ image (ui (dispatch (H := nearest_platform) ClickProcess ready_sys))
     = originalImage (ui (dispatch (H := nearest_platform) ClickProcess ready_sys)).
Proof.
  apply (reachable_processing (H := nearest_platform)).
  exists [ImageLoaded (blank_image 4 4); TypeMessage [72; 105]; ClickProcess].
  reflexivity.
Defined.

Lemma guard_exact_whole_dims_witness :
  processEncode (H := nearest_platform) (ui long_sys) (blank_image 4 4)
  = Throw (MessageTooLong (capacity (ui long_sys)))
  <-> ~ fits (blank_canvas 4 4) (message (ui long_sys)) (bitsPerChannel (ui long_sys)).
Proof.
  apply (guard_exact_whole_dims (H := nearest_platform) (ui long_sys) (blank_image 4 4) 4 4).
  - by vm_compute.
  - by vm_compute.
  - by vm_compute.
  - by vm_compute.
Defined.

Lemma guard_refuses_only_unfit_witness :
  canvas_capacity overfull_canvas (bitsPerChannel (ui overfull_sys))
  <= capacity (ui overfull_sys)
  /\ (processEncode (H := nearest_platform) (ui overfull_sys) (blank_image 3 3)
      = Throw (MessageTooLong (capacity (ui overfull_sys))) ->
      ~ fits overfull_canvas (message (ui overfull_sys)) (bitsPerChannel (ui overfull_sys))).
Proof.
  apply (guard_refuses_only_unfit (H := nearest_platform) (ui overfull_sys) (blank_image 3 3)).
  - by vm_compute.
  - by vm_compute.
  - by vm_compute.
  - by vm_compute.
Defined.

Lemma capacity_numbers_exact_witness :
  Forall double_exact (capacity_terms (blank_image 4 4) (3 # 2) 4).
Proof.
  apply capacity_numbers_exact.
  - exists 3%nat. split; [lia | reflexivity].
  - lia.
  - by vm_compute.
  - by vm_compute.
Defined.

Lemma appCapacity_scaled_witness :
  let n2 := Z.of_nat (2 * 2) in
  n2 * appCapacity (blank_image 10 10) 1 1 + 4 * (n2 - 1)
  <= appCapacity (blank_image 10 10) (inject_Z (Z.of_nat 2) * 1) 1
  <= n2 * appCapacity (blank_image 10 10) 1 1 + 5 * (n2 - 1).
Proof. apply (appCapacity_scaled (blank_image 10 10) 1 2 1); [lia | by vm_compute]. Defined.

Lemma half_scale_undecodable_witness :
  canvas_capacity overfull_canvas (bitsPerChannel (ui overfull_sys)) < capacity (ui overfull_sys)
  /\ exists url e,
       processEncode (H := nearest_platform) (ui overfull_sys) (blank_image 3 3) = Ok url
       /\ processDecode (H := nearest_platform) (ui overfull_sys) url = Throw (CodecError e).
Proof.
  apply (half_scale_undecodable (H := nearest_platform) (ui overfull_sys) (blank_image 3 3) 3);
    try (by exists 1%nat); try (by vm_compute); try (cbn; lia).
  - apply blank_image_opaque; lia.
  - split; vm_compute; lia.
Defined.
