(* ===== verification/Alpha.v ===== *)
(** * Alpha: what a canvas does to pixels that are not opaque

    The codec leaves the alpha channel alone, and the application keeps the
    pixels in canvases between encoding and decoding.  A canvas may store
    its colours premultiplied by alpha; reading them back divides by the
    alpha again, which is exact for opaque pixels only.  This file models
    such a canvas ([stored], [premultiplied_draw]) as an instance of
    [Platform], so every theorem proved against the interface holds on
    it, and shows what it does to a cover with transparency: the message
    is written, the interface reports success, and nothing can be
    decoded. *)

From Stdlib Require Import ZArith Lia QArith Qround List.
From stdpp Require Import base tactics list numbers.
From coqutil Require Import Byte.
From S2P Require Import Prelude BinStr JsNum Canvas Encode Decode Roundtrip Depth Resample App.

#[local] Open Scope Z_scope.

(** ** A canvas that stores premultiplied colours

    The canvas keeps [round (c * a / 255)] of a colour [c] with alpha [a]
    and [getImageData] divides by the alpha again: an opaque pixel comes
    back as it was, a transparent one comes back black, and in between the
    low bits of the colours are rounded away. *)
Definition premultiply (c a : Z) : Z := (c * a + 127) / 255.

Definition unpremultiply (c a : Z) : Z :=
  if a =? 0 then 0 else Z.min 255 ((c * 255 + a / 2) / a).

Definition readback (c a : byte) : byte :=
  byte.of_Z (unpremultiply (premultiply (byte.unsigned c) (byte.unsigned a)) (byte.unsigned a)).

Fixpoint stored (data : list byte) : list byte :=
  match data with
  | r :: g :: b :: a :: rest =>
      readback r a :: readback g a :: readback b a :: a :: stored rest
  | rest => rest
  end.

Definition premultiplied_draw (img : Image) (w h : nat) : list byte :=
  stored (nearest_draw img w h).

(** Covers used to run the theorems: [clear_image] is transparent black,
    [veiled_image] grey at half opacity, every pixel (200, 200, 200, 128). *)
Definition clear_image (w h : nat) : Image :=
  {| img_width := w; img_height := h; img_pixels := replicate (4 * (w * h)) Byte.x00 |}.

Definition veiled_image (w h : nat) : Image :=
  {| img_width := w; img_height := h;
     img_pixels := concat (replicate (w * h) [Byte.xc8; Byte.xc8; Byte.xc8; Byte.x80]) |}.

(** The component after loading the transparent cover and typing "Hi". *)
Definition clear_events : list Event := [ImageLoaded (clear_image 4 4); TypeMessage [72; 105]].

(** Encoding "Hi" into the cover [img] on the platform [P] reports no
    error and yields an image that the decode path of the same platform
    rejects, although the message is in its low bits: a canvas without
    premultiplication reads it. *)
Definition loses_message (P : Platform) (img : Image) : Prop :=
  let s := run (H := P) [ImageLoaded img; TypeMessage [72; 105]] initialSys in
  let s' := process (H := P) s in
  error (ui s') = None
  /\ match resultImage (ui s') with
     | Some url =>
         processDecode (H := P) (ui s) url = Throw (CodecError NoValidMessage)
         /\ processDecode (H := nearest_platform) (ui s) url = Ok [72; 105]
     | None => False
     end.

(** ** The instance *)

Lemma length_stored data : length (stored data) = length data.
Proof.
  induction data as [l Hl|a b c d l IH] using list_ind4.
  - by destruct l as [|? [|? [|? [|? ?]]]]; cbn in Hl; try lia.
  - cbn. by rewrite IH.
Qed.

Lemma readback_opaque c : readback c Byte.xff = c.
Proof.
  unfold readback, premultiply, unpremultiply. change (byte.unsigned Byte.xff) with 255.
  pose proof (byte_range c). cbn [Z.eqb].
  replace ((byte.unsigned c * 255 + 127) / 255) with (byte.unsigned c)
    by (apply Z.div_unique with 127; lia).
  replace ((byte.unsigned c * 255 + 255 / 2) / 255) with (byte.unsigned c)
    by (change (255 / 2) with 127; apply Z.div_unique with 127; lia).
  rewrite Z.min_r by lia. apply byte.of_Z_unsigned.
Qed.

Lemma stored_opaque data : opaque data = true -> stored data = data.
Proof.
  induction data as [l Hl|a b c d l IH] using list_ind4.
  - by destruct l as [|? [|? [|? [|? ?]]]]; cbn in Hl; try lia.
  - unfold opaque in *. cbn [alpha_all stored]. intros [Hd Hrest]%andb_true_iff.
    apply Z.eqb_eq in Hd. assert (d = Byte.xff) as ->.
    { rewrite <- (byte.of_Z_unsigned d), Hd. done. }
    by rewrite !readback_opaque, IH.
Qed.

Lemma premultiplied_draw_length img w h :
  length (premultiplied_draw img w h) = (4 * (w * h))%nat.
Proof. unfold premultiplied_draw. by rewrite length_stored, length_nearest_draw. Qed.

Lemma premultiplied_draw_natural img :
  wf_image img -> opaque (img_pixels img) = true ->
  premultiplied_draw img (img_width img) (img_height img) = img_pixels img.
Proof.
  intros Hwf Ho. unfold premultiplied_draw. rewrite nearest_draw_natural by done.
  by apply stored_opaque.
Qed.

Lemma premultiplied_draw_opaque img w h :
  opaque_image img -> opaque (premultiplied_draw img w h) = true.
Proof.
  intros Hi. unfold premultiplied_draw.
  by rewrite stored_opaque; apply nearest_draw_opaque.
Qed.

Definition premultiplied_platform : Platform := {|
  drawImage := fun _ => premultiplied_draw;
  has_context := fun _ _ => true;
  drawImage_length := fun _ => premultiplied_draw_length;
  drawImage_natural := fun _ => premultiplied_draw_natural;
  drawImage_opaque := fun _ => premultiplied_draw_opaque
|}.


(** ** Transparent pixels *)

Lemma readback_transparent c : readback c Byte.x00 = Byte.x00.
Proof.
  unfold readback, premultiply, unpremultiply. change (byte.unsigned Byte.x00) with 0.
  by rewrite Z.mul_0_r.
Qed.

Lemma stored_alpha v data : alpha_all v (stored data) = alpha_all v data.
Proof.
  induction data as [l Hl|a b c d l IH] using list_ind4.
  - by destruct l as [|? [|? [|? [|? ?]]]]; cbn in Hl; try lia.
  - cbn [alpha_all stored]. by rewrite IH.
Qed.

(** What a canvas keeps of transparent pixels: nothing. *)
Lemma stored_transparent data :
  (length data mod 4 = 0)%nat -> transparent data = true ->
  stored data = replicate (length data) Byte.x00.
Proof.
  unfold transparent. induction data as [l Hl|a b c d l IH] using list_ind4; intros Hm.
  - rewrite Nat.mod_small in Hm by done. by destruct l.
  - cbn [alpha_all stored length replicate]. intros [Hd Hrest]%andb_true_iff.
    apply Z.eqb_eq in Hd. assert (d = Byte.x00) as ->.
    { rewrite <- (byte.of_Z_unsigned d), Hd. done. }
    rewrite !readback_transparent, IH; [done| |done].
    cbn [length] in Hm. replace (S (S (S (S (length l))))) with (length l + 1 * 4)%nat in Hm by lia.
    by rewrite Nat.Div0.mod_add in Hm.
Qed.

Lemma pixel_at_transparent img x y :
  wf_image img -> transparent (img_pixels img) = true ->
  transparent (pixel_at img x y) = true.
Proof.
  intros Hwf Ht. unfold pixel_at, transparent in *.
  set (n := (y * img_width img + x)%nat).
  destruct (decide (n < img_width img * img_height img)%nat) as [Hn|Hn].
  - rewrite take_app_le by (rewrite length_drop, Hwf; lia).
    by apply alpha_all_take4, alpha_all_drop.
  - by rewrite drop_ge by (rewrite Hwf; lia).
Qed.

Lemma nearest_draw_transparent img w h :
  wf_image img -> transparent (img_pixels img) = true ->
  transparent (nearest_draw img w h) = true.
Proof.
  intros Hwf Ht. unfold nearest_draw, transparent.
  apply alpha_all_flat_map. intros y _. split.
  - rewrite (flat_map_constant_length (c := 4)) by (intros; apply length_pixel_at).
    rewrite length_seq. first [by rewrite Nat.Div0.mod_mul | by rewrite Nat.mul_comm, Nat.Div0.mod_mul].
  - apply alpha_all_flat_map. intros x _. split; [by rewrite length_pixel_at|].
    by apply pixel_at_transparent.
Qed.

Lemma blank_replicate k n : blank k (colour_bytes 0 (replicate n Byte.x00)).
Proof.
  unfold blank. generalize 0%nat. induction n as [|n IH]; intros i; [by constructor|].
  cbn [replicate colour_bytes]. apply Forall_app. split; [|apply IH].
  destruct (is_alpha i); repeat constructor.
Qed.

(** The decode path on what was encoded into a transparent canvas: the
    canvas it draws into keeps nothing of the colours. *)
Lemma decoded_transparent cl canvas m k :
  wf_canvas canvas -> transparent (pixels canvas) = true ->
  (1 <= bitsPerChannel cl <= 30)%nat ->
  exists e,
    processDecode (H := premultiplied_platform) cl
      (toDataURL (putImageData canvas (encoded_pixels canvas m k)))
    = Throw (CodecError e).
Proof.
  intros Hwf Ht Hk. unfold processDecode, natural_canvas.
  cbn [has_context drawImage premultiplied_platform negb toDataURL putImageData
       img_width img_height img_pixels width height pixels].
  unfold premultiplied_draw. rewrite nearest_draw_natural
    by (unfold wf_image, encoded_pixels; cbn; rewrite length_embed; exact Hwf).
  cbn [img_pixels]. rewrite stored_transparent.
  - destruct (decodeLSB _ _) as [m'|e] eqn:Hd; [|by eexists].
    apply blank_cover_undecodable in Hd as []; [done| |apply blank_replicate].
    unfold wf_canvas, encoded_pixels.
    cbn [pixels width height img_pixels toDataURL putImageData].
    rewrite length_replicate, length_embed. exact Hwf.
  - unfold encoded_pixels. cbn [pixels img_pixels toDataURL putImageData].
    rewrite length_embed, Hwf.
    by rewrite Nat.mul_comm, Nat.Div0.mod_mul.
  - unfold transparent. cbn [pixels img_pixels toDataURL putImageData].
    by rewrite encoded_alpha.
Qed.

(** ** Theorems *)

(** C19. A transparent cover loses every message: on a canvas that stores
    premultiplied colours, when the cover is fully transparent the encode
    path succeeds for every message that passes the capacity check, at
    every scale and depth, and the decode path fails on the image it
    returned. *)
Theorem transparent_cover_loses cl img canvas :
  wf_image img -> transparent (img_pixels img) = true ->
  scaleImage (H := premultiplied_platform) img (scale cl) = Ok canvas ->
  is_empty canvas = false -> (1 <= bitsPerChannel cl <= 30)%nat ->
  Z.of_nat (length (message cl)) <= capacity cl ->
  exists url e,
    processEncode (H := premultiplied_platform) cl img = Ok url
    /\ processDecode (H := premultiplied_platform) cl url = Throw (CodecError e).
Proof.
  intros Hwf Ht Hsc Hne Hk Hcap.
  destruct (scaleImage_ok (H := premultiplied_platform) _ _ _ Hsc) as (Hwfc & Hctx & _).
  exists (toDataURL (putImageData canvas
            (encoded_pixels canvas (message cl) (bitsPerChannel cl)))).
  rewrite (processEncode_ok (H := premultiplied_platform) cl img canvas) by done.
  destruct (decoded_transparent cl canvas (message cl) (bitsPerChannel cl)) as [e He];
    [done | | done | by exists e].
  unfold scaleImage in Hsc. cbn in Hsc. inv Hsc. cbn [pixels].
  unfold premultiplied_draw, transparent. rewrite stored_alpha.
  by apply nearest_draw_transparent.
Qed.

(** Run on two covers, one fully transparent and one half transparent:
    encoding reports success and yields an image from which nothing can
    be decoded, although a canvas that does not premultiply reads the
    message from the same image.  The end-to-end theorems assume an
    opaque cover for this reason. *)
Example premultiplied_canvas_loses_message :
  loses_message premultiplied_platform (clear_image 4 4)
  /\ loses_message premultiplied_platform (veiled_image 4 4).
Proof.
  split; by vm_compute.
Qed.


(** ** Witnesses *)

Lemma transparent_cover_loses_witness :
  exists url e,
    processEncode (H := premultiplied_platform)
      (ui (run (H := premultiplied_platform) clear_events initialSys)) (clear_image 4 4) = Ok url
    /\ processDecode (H := premultiplied_platform)
         (ui (run (H := premultiplied_platform) clear_events initialSys)) url
       = Throw (CodecError e).
Proof.
  apply (transparent_cover_loses _ (clear_image 4 4) (zero_canvas 4 4)).
  - by vm_compute.
  - by vm_compute.
  - by vm_compute.
  - by vm_compute.
  - vm_compute; lia.
  - vm_compute; discriminate.
Defined.
