(* ===== verification/View.v ===== *)
(** * View: what the component renders (the JSX of src/src/App.tsx)

    The markup is static; what depends on the state are the conditional
    parts, the labels and the [disabled] attributes.  Each block of the JSX
    that depends on the state is a function of [State] here, and [render]
    collects them.  Conditions are JavaScript truthiness tests: a string is
    truthy when it is not empty, a nullable value when it is not [null].
    One predicate per control says when a gesture on it is accepted
    ([editorShown], [depthButton], [sliderStop], [processButton],
    [downloadButton]) and [enabled] collects them; the lemmas relate them
    to the handlers of [dispatch] and the theorems show what a user can be
    shown. *)

From Stdlib Require Import ZArith Lia QArith Qround List.
From stdpp Require Import base tactics list numbers.
From coqutil Require Import Byte.
From S2P Require Import Prelude BinStr JsNum Canvas Encode Decode Roundtrip Resample App.

#[local] Open Scope Z_scope.

(** ** The blocks of the view *)

(** Truthiness of a string. *)
Definition truthy (s : jsstring) : bool := negb (bool_decide (s = [])).

(** The two mode buttons: which one is highlighted. *)
Definition modeButtons (st : State) : bool * bool :=
  (mode_eqb (mode st) EncodeMode, mode_eqb (mode st) DecodeMode).

(** The upload area shows the preview when [image] is set. *)
Definition preview (st : State) : option Image := image st.

(** The scaling panel: inert in decode mode. *)
Record ScalePanel : Type := {
  inert : bool;
  scaleLabel : Q;
  sliderValue : Q;
  capacityLabel : Z
}.

Definition scalePanel (st : State) : ScalePanel :=
  {| inert := mode_eqb (mode st) DecodeMode;
     scaleLabel := scale st;
     sliderValue := scale st;
     capacityLabel := capacity st |}.

(** The depth buttons 1 to 4 with the active one, and the label. *)
Definition bitsPanel (st : State) : nat * list (nat * bool) :=
  (bitsPerChannel st,
   map (fun b => (b, (bitsPerChannel st =? b)%nat)) [1; 2; 3; 4]%nat).

(** The heading of the right column. *)
Definition heading (st : State) : Mode := mode st.

(** The face of the process button. *)
Inductive Face : Type := Spinner | GenerateStegoImage | ExtractMessage.

Definition processFace (st : State) : Face :=
  if isProcessing st then Spinner
  else if mode_eqb (mode st) EncodeMode then GenerateStegoImage else ExtractMessage.

(** The message editor of encode mode, with its counter
    [message.length / capacity], red when the message is too long. *)
Record Editor : Type := {
  text : jsstring;
  counted : nat;
  limit : Z;
  warn : bool
}.

Definition editorPanel (st : State) : option Editor :=
  if mode_eqb (mode st) EncodeMode
  then Some {| text := message st;
               counted := length (message st);
               limit := capacity st;
               warn := Z.of_nat (length (message st)) >? capacity st |}
  else None.

(** The panel of decode mode: the decoded text, or a hint. *)
Inductive Decoded : Type := DecodedText (m : jsstring) | DecodeHint.

Definition decodedPanel (st : State) : option Decoded :=
  if mode_eqb (mode st) EncodeMode then None
  else Some match decodedMessage st with
            | Some m => if truthy m then DecodedText m else DecodeHint
            | None => DecodeHint
            end.

(** The error banner. *)
Definition errorBanner (st : State) : option AppError := error st.

(** The result panel with the download button: [resultImage && mode === 'encode']. *)
Definition resultPanel (st : State) : option Image :=
  if mode_eqb (mode st) EncodeMode then resultImage st else None.

Record View : Type := {
  v_modes : bool * bool;
  v_preview : option Image;
  v_scale : ScalePanel;
  v_bits : nat * list (nat * bool);
  v_heading : Mode;
  v_disabled : bool;
  v_face : Face;
  v_editor : option Editor;
  v_decoded : option Decoded;
  v_error : option AppError;
  v_result : option Image
}.

Definition render (st : State) : View :=
  {| v_modes := modeButtons st;
     v_preview := preview st;
     v_scale := scalePanel st;
     v_bits := bitsPanel st;
     v_heading := heading st;
     v_disabled := processDisabled st;
     v_face := processFace st;
     v_editor := editorPanel st;
     v_decoded := decodedPanel st;
     v_error := errorBanner st;
     v_result := resultPanel st |}.

(** ** The gestures a view accepts *)

(** The positions of the slider: 1 to 4 in steps of 0.5. *)
Definition slider_positions : list Q := map (fun n : nat => Z.of_nat n # 2) (seq 2 7).

(** The controls that are not always there, or do not take every value:
    the textarea of the editor (rendered in encode mode), one button per
    depth, the stops of the slider, the process button behind its
    [disabled] attribute, and the download button inside the result
    panel. *)
Definition editorShown (v : View) : bool := bool_decide (is_Some (v_editor v)).

Definition depthButton (v : View) (k : nat) : bool :=
  existsb (Nat.eqb k) (map fst (snd (v_bits v))).

Definition sliderStop (q : Q) : bool := existsb (Qeq_bool q) slider_positions.

Definition processButton (v : View) : bool := negb (v_disabled v).

Definition downloadButton (v : View) : bool := bool_decide (is_Some (v_result v)).

(** [enabled v e]: the control of the rendered view [v] that triggers [e]
    exists and accepts it.  The reset button and the mode buttons are
    always rendered.  The scaling panel of decode mode is inert for the
    pointer only ([pointer-events-none]); its slider still takes the
    keyboard, so it is enabled in both modes.  Callbacks of the platform
    ([ImageLoaded], [ProcessResumes]) are not gestures and are not
    restricted by the view. *)
Definition enabled (v : View) (e : Event) : bool :=
  match e with
  | TypeMessage _ => editorShown v
  | PickBits k => depthButton v k
  | SlideScale q => sliderStop q
  | ClickProcess => processButton v
  | ClickDownload => downloadButton v
  | SwitchMode _ | ClickReset | ImageLoaded _ | ProcessResumes => true
  end.

(** States used to run the theorems: an encode that succeeded followed by
    an edit of the message beyond the capacity ([edited_sys]) and a second
    run ([stale_sys]); and the result of the first run loaded again and
    decoded ([decoded_sys]). *)
Definition edited_events : list Event :=
  [ImageLoaded (blank_image 4 4); TypeMessage [72; 105]; ClickProcess; ProcessResumes;
   TypeMessage [72; 105; 33]].

Definition edited_sys : Sys := run (H := nearest_platform) edited_events initialSys.

Definition stale_events : list Event := edited_events ++ [ClickProcess; ProcessResumes].

Definition stale_sys : Sys := run (H := nearest_platform) stale_events initialSys.

Definition decoded_events : list Event :=
  edited_events
  ++ [SwitchMode DecodeMode;
      ImageLoaded (default (blank_image 0 0) (resultImage (ui edited_sys)));
      ClickProcess; ProcessResumes].

Definition decoded_sys : Sys := run (H := nearest_platform) decoded_events initialSys.

(** A decoded message in the state is never the empty string. *)
Definition decoded_ok (st : State) : Prop :=
  forall m, decodedMessage st = Some m -> m <> [].

(** ** Truthiness *)

Lemma truthy_nonempty s : s <> [] -> truthy s = true.
Proof. intros H. unfold truthy. by rewrite bool_decide_eq_false_2. Qed.

Lemma slider_positions_half_step q :
  existsb (Qeq_bool q) slider_positions = true <-> half_step q.
Proof.
  unfold slider_positions, half_step. rewrite existsb_exists. split.
  - intros (x & (n & <- & Hn)%in_map_iff & Hq). apply in_seq in Hn.
    exists n. split; [lia | by apply Qeq_bool_iff].
  - intros (n & Hn & Hq). exists (Z.of_nat n # 2). split; [|by apply Qeq_bool_iff].
    apply in_map_iff. exists n. split; [done | apply in_seq; lia].
Qed.

Section View.
Context `{Platform}.

(** ** The view and the guards of [dispatch] *)

Lemma enabled_offered st e : enabled (render st) e = true -> offered e.
Proof.
  destruct e; cbn; try done.
  - rewrite !orb_true_iff, !Nat.eqb_eq. lia.
  - by intros Hq%slider_positions_half_step.
Qed.

Lemma disabled_ignored s e :
  offered e -> enabled (render (ui s)) e = false -> dispatch e s = s.
Proof.
  destruct e; cbn [enabled render v_editor v_bits v_scale v_disabled v_result dispatch];
    unfold editorShown, depthButton, sliderStop, processButton, downloadButton;
    cbn [render v_editor v_bits v_scale v_disabled v_result];
    unfold editMessage, clickProcess; try done.
  - unfold editorPanel. by destruct (mode_eqb _ _).
  - intros Hk Hen. exfalso. revert Hen. cbn in *. rewrite !orb_false_iff, !Nat.eqb_neq. lia.
  - intros Hq Hen. apply slider_positions_half_step in Hq. congruence.
  - intros _ ->%negb_false_iff. done.
Qed.

(** The scaling panel of decode mode is inert for the pointer, but its
    slider keeps its handler: moved with the keyboard it still changes the
    scale. *)
Lemma inert_slider_moves s q :
  mode (ui s) = DecodeMode ->
  inert (v_scale (render (ui s))) = true /\ scale (ui (dispatch (SlideScale q) s)) = q.
Proof.
  intros Hm. split; [cbn; by rewrite Hm|]. cbn [dispatch ui withUi].
  by destruct (renderEffects_fields false (ui s) (setScale q (ui s))) as (_ & _ & _ & _ & _ & _ & ->).
Qed.

(** ** What the panels show *)

Lemma decoded_ok_keep st st' :
  decodedMessage st' = decodedMessage st \/ decodedMessage st' = None ->
  decoded_ok st -> decoded_ok st'.
Proof. intros [E|E] Hok m; rewrite E; [apply Hok | done]. Qed.

Lemma renderEffects_decoded b old new :
  decodedMessage (renderEffects b old new) = decodedMessage new
  \/ decodedMessage (renderEffects b old new) = None.
Proof.
  unfold renderEffects, capacityEffect.
  destruct (_ || _), (mode_eqb _ _), (originalImage new); cbn; auto.
Qed.

Lemma processDecode_nonempty cl img m : processDecode cl img = Ok m -> m <> [].
Proof.
  unfold processDecode. destruct (natural_canvas img) as [c|]; [|done].
  destruct (decodeLSB c (bitsPerChannel cl)) eqn:E; [|done].
  intros [= <-]. by eapply decodeLSB_nonempty.
Qed.

Lemma decoded_ok_resume cl st :
  decoded_ok st -> decoded_ok (handleProcess_resume cl st).
Proof.
  intros Hok. unfold handleProcess_resume. destruct (originalImage cl) as [img|]; [|done].
  destruct (mode cl).
  - destruct (processEncode cl img); (apply (decoded_ok_keep st); [by left | done]).
  - destruct (processDecode cl img) as [m|] eqn:E;
      [|apply (decoded_ok_keep st); [by left | done]].
    intros m' [= <-]. by eapply processDecode_nonempty.
Qed.

Lemma decoded_ok_dispatch e s : decoded_ok (ui s) -> decoded_ok (ui (dispatch e s)).
Proof.
  intros Hok.
  assert (forall b new, decodedMessage new = decodedMessage (ui s) \/ decodedMessage new = None ->
            decoded_ok (renderEffects b (ui s) new)) as Hrender.
  { intros b new Hnew. eapply decoded_ok_keep; [apply renderEffects_decoded|].
    by apply (decoded_ok_keep (ui s)). }
  destruct e; cbn [dispatch]; unfold editMessage, clickProcess; repeat case_match;
    cbn [ui withUi]; try done;
    try (apply Hrender; cbn; by auto).
  - unfold handleProcess_begin in *. case_match; simplify_eq.
    apply (decoded_ok_keep (ui s)); [left; reflexivity | exact Hok].
  - by apply decoded_ok_resume.
Qed.

Lemma decoded_ok_run events : forall s, decoded_ok (ui s) -> decoded_ok (ui (run events s)).
Proof.
  induction events as [|e events IH]; intros s Hs; [done|].
  apply IH. by apply decoded_ok_dispatch.
Qed.

Lemma decoded_ok_reachable s : reachable s -> decoded_ok (ui s).
Proof. intros [events ->]. by apply decoded_ok_run. Qed.

Lemma decodedPanel_shown st m :
  mode st = DecodeMode -> decodedMessage st = Some m -> m <> [] ->
  decodedPanel st = Some (DecodedText m).
Proof. intros Hm Hd Hne. unfold decodedPanel. by rewrite Hm, Hd, truthy_nonempty. Qed.

(** The counter of the editor is red exactly when processing would refuse
    the message. *)
Lemma warn_iff_too_long st img c ed :
  editorPanel st = Some ed -> scaleImage img (scale st) = Ok c ->
  warn ed = true <-> processEncode st img = Throw (MessageTooLong (capacity st)).
Proof.
  unfold editorPanel. destruct (mode_eqb _ _); [|done]. intros [= <-] Hs.
  rewrite (processEncode_too_long st img c Hs). cbn [warn]. lia.
Qed.

(** C34. The decode panel never hides a result: in every reachable state in
    decode mode the panel shows the decoded message whenever one is stored
    (the truthiness test of the view cannot fail, because [decodeLSB] never
    returns the empty string), and the hint otherwise. *)
Theorem reachable_decoded_shown s :
  reachable s -> mode (ui s) = DecodeMode ->
  decodedPanel (ui s)
  = Some match decodedMessage (ui s) with
         | Some m => DecodedText m
         | None => DecodeHint
         end.
Proof.
  intros Hr Hm. destruct (decodedMessage (ui s)) as [m|] eqn:Hd.
  - apply decodedPanel_shown; [done..|]. by apply (decoded_ok_reachable s Hr).
  - unfold decodedPanel. by rewrite Hm, Hd.
Qed.

(** C31. A failed run keeps the previous result: when [handleProcess] fails
    in encode mode (message too long, no context, empty canvas), the busy
    flag is cleared and the view shows the error banner together with the
    result panel it showed before, that is, the image of an earlier
    message, still offered for download. *)
Theorem failed_encode_keeps_result st img e :
  originalImage st = Some img -> mode st = EncodeMode -> processEncode st img = Throw e ->
  v_error (render (handleProcess st)) = Some e
  /\ v_result (render (handleProcess st)) = v_result (render st)
  /\ isProcessing (handleProcess st) = false.
Proof.
  intros Himg Hmode He. unfold handleProcess, handleProcess_begin, handleProcess_resume.
  by rewrite Himg, Hmode, He.
Qed.

End View.

(** A failed encode leaves the previous result on screen: after an
    encode that succeeded, editing the message beyond the capacity and
    processing again shows the error banner together with the result panel
    of the earlier message, which can still be downloaded. *)
Theorem stale_result_with_error :
  v_error (render (ui stale_sys)) = Some (MessageTooLong 2)
  /\ message (ui stale_sys) = [72; 105; 33]
  /\ match v_result (render (ui stale_sys)) with
     | Some url => processDecode (H := nearest_platform) (ui stale_sys) url = Ok [72; 105]
     | None => False
     end.
Proof. by vm_compute. Qed.

(** ** Witnesses *)

Lemma reachable_decoded_shown_witness :
  decodedPanel (ui decoded_sys)
  = Some match decodedMessage (ui decoded_sys) with
         | Some m => DecodedText m
         | None => DecodeHint
         end.
Proof.
  apply (reachable_decoded_shown (H := nearest_platform) decoded_sys).
  - by exists decoded_events.
  - by vm_compute.
Defined.

Lemma failed_encode_keeps_result_witness :
  v_error (render (handleProcess (H := nearest_platform) (ui edited_sys)))
  = Some (MessageTooLong 2)
  /\ v_result (render (handleProcess (H := nearest_platform) (ui edited_sys)))
     = v_result (render (ui edited_sys))
  /\ isProcessing (handleProcess (H := nearest_platform) (ui edited_sys)) = false.
Proof.
  apply (failed_encode_keeps_result (H := nearest_platform) (ui edited_sys) (blank_image 4 4)).
  - by vm_compute.
  - by vm_compute.
  - by vm_compute.
Defined.
