(* ===== verification/Browser.v ===== *)
(** * Browser: the component in its page (src/src/App.tsx, upload and download)

    [App] models the component's state and handlers, [View] what it
    renders.  This file puts them in the page: the file input with its
    selection, the callbacks the upload leaves waiting ([reader.onload],
    then [img.onload]), the timer of a waiting [handleProcess], and the
    files the download link saved.  A [File] has a path and the image its
    content decodes to; the file input holds the path ([selected]), so
    choosing another file with the same path fires no [change] event.
    [handleImageUpload] and
    [downloadResult] are translated here, with the reset of the file input
    that ends [resetAll].

    A step of the page is a gesture the rendered view accepts, a change of
    the file selection, a click on the download button, one waiting
    callback running, or the timer firing.  [step] is the labelled
    transition relation, [exec] the same as a function; pending callbacks
    may run in any order.  The theorems show that the page refines the
    event model of [App], what holds in every state a user can reach, that
    waiting callbacks always complete and leave the component idle, and
    that a message encoded, downloaded and uploaded again is the one
    extracted. *)

From Stdlib Require Import ZArith Lia QArith Qround List.
From stdpp Require Import base tactics list numbers option.
From coqutil Require Import Byte.
From S2P Require Import Prelude BinStr JsNum Canvas JsString Encode Decode Roundtrip Resample App View.

#[local] Open Scope Z_scope.

(** ** The page *)

(** A file the user can choose: its path, by which the file input tells
    one selection from another, and what the browser makes of its content
    when it is assigned to [img.src], the image it decodes to or none. *)
Record File : Type := {
  path : jsstring;
  decodes : option Image
}.

#[export] Instance File_eq_dec : EqDecision File.
Proof. solve_decision. Defined.

(** A file saved by the download link: [link.href] and the time stamp of
    its name, [stega_image_<stamp>.png]. *)
Record SavedFile : Type := {
  href : Image;
  stamp : Z
}.

(** A callback that waits: [reader.onload] for a file being read, and
    [img.onload] for an image being decoded. *)
Inductive Task : Type :=
| ReaderLoad (file : File)
| ImageLoad (img : Image).

Record Browser : Type := {
  app : Sys;
  input : option File;
  tasks : list Task;
  saved : list SavedFile
}.

Definition initialBrowser : Browser :=
  {| app := initialSys; input := None; tasks := []; saved := [] |}.

Definition withApp (b : Browser) (s : Sys) : Browser :=
  {| app := s; input := input b; tasks := tasks b; saved := saved b |}.

Definition setInput (v : option File) (b : Browser) : Browser :=
  {| app := app b; input := v; tasks := tasks b; saved := saved b |}.

Definition setTasks (v : list Task) (b : Browser) : Browser :=
  {| app := app b; input := input b; tasks := v; saved := saved b |}.

(** [link.download]: the name of a saved file. *)
Definition fileName (d : SavedFile) : jsstring := downloadName (stamp d).

(** The PNG file a download leaves on disk. *)
Definition png (d : SavedFile) : File := {| path := fileName d; decodes := Some (href d) |}.

(** The path of the selection of the file input, which a [change] event
    compares. *)
Definition selected (v : option File) : option jsstring := path <$> v.

(** ** Handlers *)

(** [handleImageUpload]: with a file, a reader is started; its [onload]
    waits. *)
Definition handleImageUpload (files : option File) (b : Browser) : Browser :=
  match files with
  | Some file => setTasks (tasks b ++ [ReaderLoad file]) b
  | None => b
  end.

(** [reader.onload]: the data URL is assigned to a new image; its [onload]
    waits when the data decodes, and nothing happens when it does not (no
    [onerror] is installed). *)
Definition readerLoaded (file : File) (b : Browser) : Browser :=
  match decodes file with
  | Some img => setTasks (tasks b ++ [ImageLoad img]) b
  | None => b
  end.

(** [downloadResult] at time [now]. *)
Definition downloadResult (now : Z) (b : Browser) : Browser :=
  match resultImage (ui (app b)) with
  | None => b
  | Some url =>
      {| app := app b; input := input b; tasks := tasks b;
         saved := saved b ++ [{| href := url; stamp := now |}] |}
  end.

(** The last statement of [resetAll]: the selection of the file input is
    cleared. *)
Definition resetInput (b : Browser) : Browser := setInput None b.

(** ** Steps *)

Inductive Label : Type :=
| User (e : Event)
| Choose (files : option File)
| Download (now : Z)
| RunTask (i : nat)
| Timer.

(** The events of [App] that are gestures on a control of the view; the
    others are callbacks, and the download click carries its time. *)
Definition gesture (e : Event) : bool :=
  match e with
  | ImageLoaded _ | ProcessResumes | ClickDownload => false
  | _ => true
  end.

(** Labels the page runs by itself. *)
Definition internal (l : Label) : bool :=
  match l with
  | RunTask _ | Timer => true
  | _ => false
  end.

Definition task_weight (t : Task) : nat :=
  match t with
  | ReaderLoad _ => 2
  | ImageLoad _ => 1
  end.

Section Browser.
Context `{Platform}.

(** What a gesture does besides its handler in the component. *)
Definition afterGesture (e : Event) (b : Browser) : Browser :=
  match e with
  | ClickReset => resetInput b
  | _ => b
  end.

(** A waiting callback runs. *)
Definition runTask (t : Task) (b : Browser) : Browser :=
  match t with
  | ReaderLoad file => readerLoaded file b
  | ImageLoad img => withApp b (dispatch (ImageLoaded img) (app b))
  end.

(** [exec l b]: the page after the step [l], or [None] when the page does
    not offer it: a control that is absent or disabled, a selection that
    does not change (no [change] event), no such callback waiting. *)
Definition exec (l : Label) (b : Browser) : option Browser :=
  match l with
  | User e =>
      if gesture e && enabled (render (ui (app b))) e
      then Some (afterGesture e (withApp b (dispatch e (app b))))
      else None
  | Choose files =>
      if decide (selected (input b) = selected files) then None
      else Some (handleImageUpload files (setInput files b))
  | Download now =>
      if enabled (render (ui (app b))) ClickDownload
      then Some (downloadResult now b) else None
  | RunTask i =>
      match tasks b !! i with
      | Some t => Some (runTask t (setTasks (delete i (tasks b)) b))
      | None => None
      end
  | Timer =>
      match pending (app b) with
      | Some _ => Some (withApp b (dispatch ProcessResumes (app b)))
      | None => None
      end
  end.

Fixpoint exec_all (ls : list Label) (b : Browser) : option Browser :=
  match ls with
  | [] => Some b
  | l :: ls =>
      match exec l b with
      | Some b' => exec_all ls b'
      | None => None
      end
  end.

Inductive step : Browser -> Label -> Browser -> Prop :=
| step_user b e :
    gesture e = true -> enabled (render (ui (app b))) e = true ->
    step b (User e) (afterGesture e (withApp b (dispatch e (app b))))
| step_choose b files :
    selected (input b) <> selected files ->
    step b (Choose files) (handleImageUpload files (setInput files b))
| step_download b now :
    is_Some (v_result (render (ui (app b)))) ->
    step b (Download now) (downloadResult now b)
| step_reader b i file :
    tasks b !! i = Some (ReaderLoad file) ->
    step b (RunTask i) (readerLoaded file (setTasks (delete i (tasks b)) b))
| step_image b i img :
    tasks b !! i = Some (ImageLoad img) ->
    step b (RunTask i)
      (withApp (setTasks (delete i (tasks b)) b) (dispatch (ImageLoaded img) (app b)))
| step_timer b cl :
    pending (app b) = Some cl ->
    step b Timer (withApp b (dispatch ProcessResumes (app b))).

Inductive steps : Browser -> list Label -> Browser -> Prop :=
| steps_nil b : steps b [] b
| steps_cons b l b' ls b'' : step b l b' -> steps b' ls b'' -> steps b (l :: ls) b''.

(** The states of the page a user can bring about. *)
Definition visitable (b : Browser) : Prop := exists ls, steps initialBrowser ls b.

(** A step the page takes by itself. *)
Definition settle (b b' : Browser) : Prop :=
  exists l, internal l = true /\ step b l b'.

(** Nothing waits. *)
Definition quiet (b : Browser) : Prop := tasks b = [] /\ pending (app b) = None.

(** The work that waits: a file still to be read takes two callbacks, an
    image to be decoded one, a waiting handler one. *)
Definition work (b : Browser) : nat :=
  sum_list_with task_weight (tasks b)
  + match pending (app b) with Some _ => 1 | None => 0 end.

(** The event of [App] a step delivers to the component, if any. *)
Definition delivered (b : Browser) (l : Label) : option Event :=
  match l with
  | User e => Some e
  | RunTask i =>
      match tasks b !! i with
      | Some (ImageLoad img) => Some (ImageLoaded img)
      | _ => None
      end
  | Timer => Some ProcessResumes
  | Choose _ | Download _ => None
  end.

Fixpoint deliveries (ls : list Label) (b : Browser) : list Event :=
  match ls with
  | [] => []
  | l :: ls =>
      match exec l b with
      | Some b' => option_list (delivered b l) ++ deliveries ls b'
      | None => []
      end
  end.

(** The component is idle: nothing waits and the busy flag is off. *)
Definition idle (b : Browser) : Prop := quiet b /\ isProcessing (ui (app b)) = false.

(** What holds in every state of the page. *)
Definition page_inv (b : Browser) : Prop :=
  sys_inv (app b) /\ settings_ok (ui (app b)) /\ decoded_ok (ui (app b)).

End Browser.

(** ** Pages used to run the theorems

    [page_after ls] is the page after the steps [ls] from the initial one,
    with nearest-neighbour drawing; [ready_page] has a 4 by 4 cover and the
    message "Hi"; in [busy_page] a second file is being read while
    [handleProcess] waits.  The files are at the paths "cover" and
    "other". *)
Definition page_after (ls : list Label) : Browser :=
  default initialBrowser (exec_all (H := nearest_platform) ls initialBrowser).

Definition cover_file : File :=
  {| path := [99; 111; 118; 101; 114]; decodes := Some (blank_image 4 4) |}.

Definition other_file : File :=
  {| path := [111; 116; 104; 101; 114]; decodes := Some (blank_image 2 2) |}.

(** The file at the path of [cover_file] after it was overwritten. *)
Definition edited_file : File :=
  {| path := path cover_file; decodes := Some (blank_image 2 2) |}.

Definition ready_labels : list Label :=
  [Choose (Some cover_file); RunTask 0; RunTask 0; User (TypeMessage [72; 105])].

Definition ready_page : Browser := page_after ready_labels.

Definition busy_labels : list Label :=
  ready_labels ++ [User ClickProcess; Choose (Some other_file)].

Definition busy_page : Browser := page_after busy_labels.

Section Steps.
Context `{Platform}.

(** ** Steps as a relation and as a function *)

Lemma step_exec b l b' : step b l b' <-> exec l b = Some b'.
Proof.
  split.
  - destruct 1 as [b e Hg He|b files Hf|b now Hr|b i file Ht|b i img Ht|b cl Hp]; cbn [exec].
    + by rewrite Hg, He.
    + by rewrite decide_False.
    + cbn [enabled]. unfold downloadButton. by rewrite bool_decide_eq_true_2.
    + by rewrite Ht.
    + by rewrite Ht.
    + by rewrite Hp.
  - destruct l as [e|files|now|i|]; cbn [exec].
    + destruct (gesture e) eqn:Hg, (enabled _ e) eqn:He; intros [= <-]. by constructor.
    + case_decide; intros [= <-]. by constructor.
    + destruct (enabled _ _) eqn:He; intros [= <-]. constructor.
      by apply bool_decide_eq_true in He.
    + destruct (tasks b !! i) as [[file|img]|] eqn:Ht; intros [= <-]; by constructor.
    + destruct (pending (app b)) as [cl|] eqn:Hp; intros [= <-]. by econstructor.
Qed.

Lemma step_deterministic b l b1 b2 : step b l b1 -> step b l b2 -> b1 = b2.
Proof. rewrite !step_exec. congruence. Qed.

Lemma steps_exec_all ls : forall b b', steps b ls b' <-> exec_all ls b = Some b'.
Proof.
  induction ls as [|l ls IH]; intros b b'; cbn [exec_all].
  - split; [by inversion 1 | intros [= <-]; constructor].
  - split.
    + inversion 1 as [|? ? bm ? ? Hs Hss]; subst.
      apply step_exec in Hs. rewrite Hs. by apply IH.
    + destruct (exec l b) as [bm|] eqn:He; [|done]. intros Hss%IH.
      apply step_exec in He. by econstructor.
Qed.

Lemma exec_all_cons l ls b : exec_all (l :: ls) b = exec l b ≫= exec_all ls.
Proof. cbn. by destruct (exec l b). Qed.

Lemma exec_all_split ls1 ls2 b b' :
  exec_all (ls1 ++ ls2) b = Some b' <->
  exists bm, exec_all ls1 b = Some bm /\ exec_all ls2 bm = Some b'.
Proof.
  revert b. induction ls1 as [|l ls1 IH]; intros b; cbn.
  - split; [by eexists | by intros (? & [= <-] & ?)].
  - destruct (exec l b); [apply IH|]. split; [done | by intros (? & ? & ?)].
Qed.

Lemma exec_all_app ls1 ls2 b :
  exec_all (ls1 ++ ls2) b = exec_all ls1 b ≫= exec_all ls2.
Proof.
  revert b. induction ls1 as [|l ls1 IH]; intros b; cbn; [done|].
  by destruct (exec l b).
Qed.

Lemma steps_app b ls1 b' ls2 b'' :
  steps b ls1 b' -> steps b' ls2 b'' -> steps b (ls1 ++ ls2) b''.
Proof. rewrite !steps_exec_all, exec_all_app. by intros ->. Qed.

(** ** The page refines the event model of the component *)

Lemma step_delivers b l b' :
  step b l b' ->
  app b' = from_option (fun e => dispatch e (app b)) (app b) (delivered b l)
  /\ from_option offered True (delivered b l).
Proof.
  destruct 1 as [b e Hg He|b [file|] Hf|b now Hr|b i file Ht|b i img Ht|b cl Hp];
    cbn [delivered from_option]; rewrite ?Ht; cbn [from_option].
  - split; [by destruct e | by eapply enabled_offered].
  - done.
  - done.
  - unfold downloadResult. by destruct (resultImage _).
  - unfold readerLoaded. by destruct (decodes file).
  - done.
  - done.
Qed.

Lemma steps_deliveries ls : forall b b',
  steps b ls b' ->
  app b' = run (deliveries ls b) (app b) /\ Forall offered (deliveries ls b).
Proof.
  induction ls as [|l ls IH]; intros b b'; inversion 1 as [|? ? bm ? ? Hs Hss]; subst;
    cbn [deliveries]; [done|].
  destruct (step_delivers _ _ _ Hs) as [Happ Hoff], (IH _ _ Hss) as [Hrun Hall].
  rewrite (proj1 (step_exec _ _ _) Hs). unfold run in *. rewrite fold_left_app, Forall_app.
  destruct (delivered b l) as [e|]; cbn in *; rewrite <- Happ; by auto.
Qed.

(** ** Invariants *)

Lemma page_inv_initial : page_inv initialBrowser.
Proof. split_and!; [apply sys_inv_initial | apply settings_ok_initial | done]. Qed.

Lemma page_inv_step b l b' : page_inv b -> step b l b' -> page_inv b'.
Proof.
  intros (Hs & Hset & Hd) Hstep. unfold page_inv.
  destruct (step_delivers _ _ _ Hstep) as [-> Hoff].
  destruct (delivered b l) as [e|]; cbn in *; [|done].
  split_and!; [by apply sys_inv_dispatch | by apply settings_ok_dispatch
              | by apply decoded_ok_dispatch].
Qed.

Lemma page_inv_steps b ls b' : page_inv b -> steps b ls b' -> page_inv b'.
Proof. intros Hb. induction 1; eauto using page_inv_step. Qed.

Lemma page_inv_visitable b : visitable b -> page_inv b.
Proof. intros [ls Hls]. by eapply page_inv_steps, Hls; apply page_inv_initial. Qed.

(** ** Waiting callbacks complete *)

Lemma weight_delete (ts : list Task) i t :
  ts !! i = Some t ->
  (sum_list_with task_weight (delete i ts) + task_weight t
   = sum_list_with task_weight ts)%nat.
Proof.
  revert i. induction ts as [|t' ts IH]; intros [|i] Hi; simplify_eq/=; [lia|].
  specialize (IH _ Hi). lia.
Qed.

Lemma weight_snoc (ts : list Task) t :
  sum_list_with task_weight (ts ++ [t])
  = (sum_list_with task_weight ts + task_weight t)%nat.
Proof. rewrite sum_list_with_app. cbn. lia. Qed.

Lemma settle_work b b' : settle b b' -> (work b' < work b)%nat.
Proof.
  intros (l & Hl & Hs). unfold work.
  destruct Hs as [| | |b i file Ht|b i img Ht|b cl Hp]; try done.
  - pose proof (weight_delete _ _ _ Ht) as Hw. unfold readerLoaded.
    destruct (decodes file); cbn in *; rewrite ?weight_snoc; cbn; lia.
  - pose proof (weight_delete _ _ _ Ht) as Hw. cbn in *. lia.
  - cbn. rewrite Hp. cbn. lia.
Qed.

Lemma settle_progress b : sys_inv (app b) -> idle b \/ exists b', settle b b'.
Proof.
  intros (_ & Hp & _). destruct (tasks b) as [|t ts] eqn:Ht.
  - destruct (pending (app b)) as [cl|] eqn:Hcl.
    + right. eexists. exists Timer. split; [done | by econstructor].
    + left. split; [done|]. destruct (isProcessing _); [|done].
      by destruct (proj1 Hp eq_refl).
  - right. assert (tasks b !! 0%nat = Some t) as H0 by by rewrite Ht.
    destruct t; eexists; exists (RunTask 0); (split; [done | by econstructor]).
Qed.

Lemma idle_stable b b' : idle b -> ~ settle b b'.
Proof.
  intros [[Ht Hp] _] (l & Hl & Hs).
  destruct Hs as [| | |b i file Hi|b i img Hi|b cl Hcl]; try done;
    [rewrite Ht in Hi..|]; by simplify_eq.
Qed.

(** ** Composite steps *)

Lemma exec_process b img :
  processDisabled (ui (app b)) = false -> originalImage (ui (app b)) = Some img ->
  exec_all [User ClickProcess; Timer] b
  = Some (withApp b {| ui := handleProcess (ui (app b)); pending := None |}).
Proof.
  intros Hd Himg. rewrite <- (process_enabled (app b) img Hd Himg). unfold process.
  cbn [exec_all exec gesture enabled andb afterGesture]. unfold processButton.
  cbn [render v_disabled].
  rewrite Hd. cbn [negb dispatch]. unfold clickProcess. rewrite Hd. unfold handleProcess_begin. by rewrite Himg.
Qed.

Lemma exec_upload b file img :
  decodes file = Some img -> selected (input b) <> Some (path file) -> tasks b = [] ->
  exec_all [Choose (Some file); RunTask 0; RunTask 0] b
  = Some {| app := dispatch (ImageLoaded img) (app b); input := Some file;
            tasks := []; saved := saved b |}.
Proof.
  intros Hf Hin Ht. cbn [exec_all exec]. rewrite decide_False by done.
  unfold handleImageUpload, setInput, setTasks. cbn [tasks app input saved].
  rewrite Ht. unfold withApp.
  repeat (cbn [tasks input saved app Datatypes.app lookup list_lookup delete list_delete
               runTask]; unfold readerLoaded, setTasks; rewrite ?Hf).
  done.
Qed.

Lemma exec_download b now url :
  resultImage (ui (app b)) = Some url -> mode (ui (app b)) = EncodeMode ->
  exec (Download now) b
  = Some {| app := app b; input := input b; tasks := tasks b;
            saved := saved b ++ [{| href := url; stamp := now |}] |}.
Proof.
  intros Hr Hm. cbn [exec enabled]. unfold downloadButton. cbn [render v_result].
  unfold resultPanel, downloadResult.
  by rewrite Hm, Hr.
Qed.

Lemma exec_reset b :
  exec (User ClickReset) b
  = Some {| app := dispatch ClickReset (app b); input := None; tasks := tasks b;
            saved := saved b |}.
Proof. done. Qed.

Lemma exec_reset_decode b :
  exec_all [User ClickReset; User (SwitchMode DecodeMode)] b
  = Some {| app := dispatch (SwitchMode DecodeMode) (dispatch ClickReset (app b));
            input := None; tasks := tasks b; saved := saved b |}.
Proof. done. Qed.

(** Back to the page with a saved file: reset, decode mode, choose the
    file, let it load, extract. *)
Lemma exec_return b file img m :
  decodes file = Some img -> tasks b = [] -> pending (app b) = None ->
  isProcessing (ui (app b)) = false -> processDecode (ui (app b)) img = Ok m ->
  exists b',
    exec_all [User ClickReset; User (SwitchMode DecodeMode); Choose (Some file);
              RunTask 0; RunTask 0; User ClickProcess; Timer] b = Some b'
    /\ saved b' = saved b /\ decodedMessage (ui (app b')) = Some m
    /\ mode (ui (app b')) = DecodeMode /\ error (ui (app b')) = None.
Proof.
  intros Hf Ht Hp Hbusy Hd.
  destruct (reset_decode_load (app b) img) as (Ho & Hi & Hm & Hk & Hb & Hpend).
  change (?l1 :: ?l2 :: ?l3 :: ?l4 :: ?l5 :: ?rest)
    with ([l1; l2] ++ [l3; l4; l5] ++ rest).
  rewrite exec_all_app, exec_reset_decode. cbn [mbind option_bind].
  rewrite exec_all_app, (exec_upload _ file img) by done. cbn [mbind option_bind].
  erewrite exec_process;
    [|eapply processDisabled_decode; cbn [app]; [exact Hi | by rewrite Hb | exact Hm]
     |exact Ho].
  eexists. split; [done|]. cbn [app withApp ui saved].
  rewrite (handleProcess_decode_ok _ img m); [done..|].
  by rewrite <- Hd; apply processDecode_bits.
Qed.

(** An upload of a file that is no image changes nothing but the
    selection: no error is shown. *)
Lemma exec_upload_undecodable b file :
  decodes file = None -> selected (input b) <> Some (path file) -> tasks b = [] ->
  exec_all [Choose (Some file); RunTask 0] b = Some (setInput (Some file) b).
Proof.
  intros Hf Hin Ht. cbn [exec_all exec]. rewrite decide_False by done.
  unfold handleImageUpload, setInput, setTasks. cbn [tasks app input saved].
  rewrite Ht. cbn [Datatypes.app lookup list_lookup delete list_delete runTask app tasks
                   input saved].
  unfold readerLoaded. by rewrite Hf.
Qed.

(** Two uploads whose callbacks run in the other order: the image of the
    first file replaces the image of the second, while the input shows the
    second. *)
Lemma exec_uploads_overtake b f1 i1 f2 i2 :
  decodes f1 = Some i1 -> decodes f2 = Some i2 -> path f1 <> path f2 ->
  selected (input b) <> Some (path f1) -> tasks b = [] ->
  exec_all [Choose (Some f1); Choose (Some f2); RunTask 1; RunTask 1; RunTask 0; RunTask 0] b
  = Some {| app := dispatch (ImageLoaded i1) (dispatch (ImageLoaded i2) (app b));
            input := Some f2; tasks := []; saved := saved b |}.
Proof.
  intros H1 H2 Hne Hin Ht. cbn [exec_all exec]. rewrite decide_False by done.
  unfold handleImageUpload, setInput, setTasks, withApp. cbn [tasks app input saved].
  rewrite decide_False by (cbn; congruence). rewrite Ht.
  repeat (cbn [tasks input saved app Datatypes.app lookup list_lookup delete list_delete
               runTask]; unfold readerLoaded, setTasks, withApp; rewrite ?H1, ?H2).
  done.
Qed.

(** ** A waiting handler *)

Lemma pending_persists b l b' cl :
  page_inv b -> pending (app b) = Some cl -> step b l b' -> l <> Timer ->
  pending (app b') = Some cl.
Proof.
  intros ((_ & Hp & _) & _) Hcl Hs Hl.
  assert (processDisabled (ui (app b)) = true) as Hd.
  { unfold processDisabled. rewrite (proj2 Hp) by by rewrite Hcl.
    by rewrite orb_true_r. }
  destruct Hs as [b e Hg He|b [file|]|b now|b i file|b i img|b cl']; try done.
  - destruct e; cbn in *; unfold editMessage, clickProcess in *; repeat case_match;
      by simplify_eq.
  - unfold downloadResult. by destruct (resultImage _).
  - unfold readerLoaded. by destruct (decodes file).
Qed.

Lemma timer_idles b b' :
  page_inv b -> step b Timer b' ->
  pending (app b') = None /\ isProcessing (ui (app b')) = false.
Proof.
  intros ((_ & _ & _ & Hcl) & _) Hs. inversion Hs as [| | | | |? cl Hp]; subst.
  destruct (Hcl cl Hp) as [_ [img Himg]]. cbn. rewrite Hp. cbn.
  unfold handleProcess_resume. by rewrite Himg.
Qed.

Lemma pending_persists_steps b ls b' cl :
  page_inv b -> pending (app b) = Some cl -> steps b ls b' ->
  Forall (fun l => l <> Timer) ls -> pending (app b') = Some cl /\ page_inv b'.
Proof.
  intros Hb Hcl Hs. induction Hs as [|b l bm ls b' Hs Hss IH]; [done|].
  intros [Hl Hls]%Forall_cons_1. apply IH; [by eapply page_inv_step| |done].
  by apply (pending_persists b l bm cl).
Qed.

(** Whatever happens while [handleProcess] waits (gestures, uploads that
    complete, downloads), the timer runs the continuation with the values
    it captured at the click, on the state current when it fires, and the
    busy flag is cleared. *)
Theorem handler_resumes_closure b ls b1 b2 cl :
  page_inv b -> pending (app b) = Some cl -> steps b ls b1 ->
  Forall (fun l => l <> Timer) ls -> step b1 Timer b2 ->
  ui (app b2) = handleProcess_resume cl (ui (app b1))
  /\ pending (app b2) = None /\ isProcessing (ui (app b2)) = false.
Proof.
  intros Hb Hcl Hs Hls Ht.
  destruct (pending_persists_steps _ _ _ _ Hb Hcl Hs Hls) as [Hcl1 Hb1].
  destruct (timer_idles _ _ Hb1 Ht) as [Hp Hi]. split_and!; [|done..].
  inversion Ht; subst. cbn. by rewrite Hcl1.
Qed.

(** ** Theorems *)

(** C22. The page refines the event model of the component: along every
    sequence of steps of the page (gestures the rendered view accepts,
    file selections, downloads, callbacks in any order, the timer), the
    state of the component is the one [run] computes from the events the
    steps deliver, every delivered event is one the view offers, and the
    invariants of the component (capacity up to date, busy flag set exactly
    while a handler waits, depth and scale within what the view offers, no
    empty decoded message) carry over. *)
Theorem page_refines_app b ls b' :
  page_inv b -> steps b ls b' ->
  app b' = run (deliveries ls b) (app b)
  /\ Forall offered (deliveries ls b) /\ page_inv b'.
Proof.
  intros Hb Hs. destruct (steps_deliveries _ _ _ Hs). split_and!; [done..|].
  by eapply page_inv_steps.
Qed.

(** C10. Waiting callbacks complete: from every state of the page a user can
    bring about, however the browser orders the callbacks that wait (file
    readers, image decoders, the timer of [handleProcess]), they all run
    after finitely many steps and leave the component idle: no callback
    waits and [isProcessing] is false, so the spinner never stays. *)
Theorem callbacks_complete b : visitable b -> eventually settle idle b.
Proof.
  intros Hb%page_inv_visitable. revert b Hb.
  apply (eventually_measure settle page_inv idle work). intros b Hb.
  destruct (settle_progress b) as [?|Hex]; [apply Hb | by left |]. right.
  split; [done|]. intros b' Hs. split; [|by apply settle_work].
  destruct Hs as (l & _ & Hs). by eapply page_inv_step.
Qed.

(** C2. The whole journey: on a page a user can bring about, with nothing
    waiting, an opaque image loaded, encode mode, whole scaled dimensions
    and a
    non-empty Latin-1 message within the capacity shown, the steps
    "generate, download, reset, switch to decode, choose the downloaded
    file, let it load, extract" are all offered, the download saves the
    result image, and the decode panel ends up showing exactly the message,
    with no error. *)
Theorem encode_download_upload_decode b img (W H' : nat) now :
  visitable b -> quiet b ->
  originalImage (ui (app b)) = Some img -> opaque_image img ->
  mode (ui (app b)) = EncodeMode ->
  whole_dims img (scale (ui (app b))) W H' ->
  latin1 (message (ui (app b))) -> message (ui (app b)) <> [] ->
  Z.of_nat (length (message (ui (app b)))) < 2 ^ 32 ->
  Z.of_nat (length (message (ui (app b)))) <= capacity (ui (app b)) ->
  has_context W H' = true ->
  exists url b',
    exec_all [User ClickProcess; Timer; Download now; User ClickReset;
              User (SwitchMode DecodeMode);
              Choose (Some (png {| href := url; stamp := now |}));
              RunTask 0; RunTask 0; User ClickProcess; Timer] b = Some b'
    /\ saved b' = saved b ++ [{| href := url; stamp := now |}]
    /\ v_decoded (render (ui (app b'))) = Some (DecodedText (message (ui (app b))))
    /\ error (ui (app b')) = None.
Proof.
  intros Hv [Ht Hp] Himg Hop Hmode Hs Hl Hne Hn Hcap Hctx.
  destruct (page_inv_visitable b Hv) as (Hinv & [Hk _] & _).
  destruct (processEncode_whole_dims (ui (app b)) img W H') as (url & He & Hd);
    [done | by apply (proj1 Hinv) | done | lia | done..|].
  pose proof (exec_process b img (sys_inv_enabled _ img Hinv Himg Hp Hne) Himg) as E1.
  rewrite (handleProcess_encode_ok _ img url) in E1 by done.
  destruct (exec_return
    {| app := {| ui := setIsProcessing false (setResultImage (Some url)
                         (setError None (setIsProcessing true (ui (app b)))));
                 pending := None |};
       input := input b; tasks := tasks b;
       saved := saved b ++ [{| href := url; stamp := now |}] |}
    (png {| href := url; stamp := now |}) url (message (ui (app b))))
    as (b' & E3 & Hsaved & Hdec & Hm & Herr); [done..|].
  exists url, b'. split_and!; [|done| |done].
  - change (?l1 :: ?l2 :: ?l3 :: ?rest) with ([l1; l2] ++ [l3] ++ rest).
    rewrite exec_all_app, E1. cbn [mbind option_bind exec_all Datatypes.app].
    by rewrite (exec_download _ now url).
  - by apply decodedPanel_shown.
Qed.

(** [resetAll] clears the selection of the file input.  While a file
    is selected, choosing the file at the same path again fires no change
    event, whatever it holds by now, so nothing is loaded; after a click
    on the reset button it can be chosen again, and once its callbacks
    have run its image is the one loaded. *)
Theorem reset_clears_selection b old file img :
  input b = Some old -> path old = path file -> decodes file = Some img -> tasks b = [] ->
  exec (Choose (Some file)) b = None
  /\ exists b',
       exec_all [User ClickReset; Choose (Some file); RunTask 0; RunTask 0] b = Some b'
       /\ originalImage (ui (app b')) = Some img /\ image (ui (app b')) = Some img
       /\ input b' = Some file /\ tasks b' = [].
Proof.
  intros Hin Hp Hf Ht. split; [cbn; rewrite decide_True; [done|by rewrite Hin, <- Hp]|].
  rewrite exec_all_cons, exec_reset. cbn [mbind option_bind].
  rewrite (exec_upload _ file img) by done. eexists. split; [done|].
  cbn [app input tasks].
  by destruct (dispatch_imageLoaded (dispatch ClickReset (app b)) img) as [-> ->].
Qed.

End Steps.

(** ** Races *)

(** An upload that completes while [handleProcess] waits: the handler
    resumes on the image it captured, so the result panel shows the stego
    image of the old cover (4 by 4, carrying the message) beside the
    preview of the new image (2 by 2). *)
Example upload_during_processing :
  let b := page_after (ready_labels ++ [User ClickProcess; Choose (Some other_file);
                                        RunTask 0; RunTask 0; Timer]) in
  image (ui (app b)) = Some (blank_image 2 2)
  /\ match v_result (render (ui (app b))) with
     | Some url =>
         img_width url = 4%nat
         /\ processDecode (H := nearest_platform) (ui (app b)) url = Ok [72; 105]
     | None => False
     end.
Proof. by vm_compute. Qed.

(** A reset while a file is being read does not cancel the upload: the
    image appears after the reset, with an empty file input. *)
Example reset_during_upload :
  let b := page_after [Choose (Some cover_file); User ClickReset; RunTask 0; RunTask 0] in
  image (ui (app b)) = Some (blank_image 4 4) /\ input b = None /\ tasks b = [].
Proof. by vm_compute. Qed.

(** ** Witnesses *)

Lemma ready_page_visitable : visitable (H := nearest_platform) ready_page.
Proof. exists ready_labels. apply steps_exec_all. by vm_compute. Qed.

Lemma page_refines_app_witness :
  app ready_page
  = run (H := nearest_platform)
      (deliveries (H := nearest_platform) ready_labels initialBrowser) initialSys
  /\ Forall offered (deliveries (H := nearest_platform) ready_labels initialBrowser)
  /\ page_inv ready_page.
Proof.
  apply (page_refines_app (H := nearest_platform) initialBrowser ready_labels ready_page).
  - apply page_inv_initial.
  - apply steps_exec_all. by vm_compute.
Defined.

Lemma callbacks_complete_witness :
  eventually (settle (H := nearest_platform)) idle busy_page.
Proof.
  apply (callbacks_complete (H := nearest_platform) busy_page).
  exists busy_labels. apply steps_exec_all. by vm_compute.
Defined.

Lemma encode_download_upload_decode_witness :
  exists url b',
    exec_all (H := nearest_platform)
      [User ClickProcess; Timer; Download 1700000000000; User ClickReset;
       User (SwitchMode DecodeMode);
       Choose (Some (png {| href := url; stamp := 1700000000000 |}));
       RunTask 0; RunTask 0; User ClickProcess; Timer] ready_page = Some b'
    /\ saved b' = saved ready_page ++ [{| href := url; stamp := 1700000000000 |}]
    /\ v_decoded (render (ui (app b')))
       = Some (DecodedText (message (ui (app ready_page))))
    /\ error (ui (app b')) = None.
Proof.
  apply (encode_download_upload_decode (H := nearest_platform) ready_page
           (blank_image 4 4) 4 4 1700000000000).
  - apply ready_page_visitable.
  - by vm_compute.
  - by vm_compute.
  - apply blank_image_opaque; lia.
  - by vm_compute.
  - by vm_compute.
  - vm_compute; repeat constructor; discriminate.
  - vm_compute; discriminate.
  - by vm_compute.
  - vm_compute; discriminate.
  - by vm_compute.
Defined.

Lemma reset_clears_selection_witness :
  exec (H := nearest_platform) (Choose (Some edited_file)) ready_page = None
  /\ exists b',
       exec_all (H := nearest_platform)
         [User ClickReset; Choose (Some edited_file); RunTask 0; RunTask 0] ready_page
       = Some b'
       /\ originalImage (ui (app b')) = Some (blank_image 2 2)
       /\ image (ui (app b')) = Some (blank_image 2 2)
       /\ input b' = Some edited_file /\ tasks b' = [].
Proof.
  apply (reset_clears_selection (H := nearest_platform) ready_page cover_file edited_file
           (blank_image 2 2)); by vm_compute.
Defined.
