(* ===== verification/Runs.v ===== *)
(** * Runs: what every fair run of the page brings about

    [Browser] shows that the callbacks that wait complete when the user
    leaves the page alone.  Here the user does not: a run is an infinite
    sequence of pages in which gestures, file selections and downloads
    arrive at any time, interleaved with the callbacks and with instants
    at which nothing happens.  Two fairness assumptions say what the
    browser owes the page: a timer that was set fires, and the callback at
    the head of the queue runs.  Under them a waiting [handleProcess]
    always resumes, with the values it captured, an encode run always
    ends with an image that decodes to the message typed at the click, a
    decode run with the message or the error of the decode path, and
    every file the user chooses is read and, when it is an image,
    loaded into the component. *)

From Stdlib Require Import ZArith Lia QArith List.
From stdpp Require Import base tactics list numbers option.
From S2P Require Import Prelude BinStr JsNum Canvas Encode Decode Roundtrip Resample App View Browser.

(** ** Runs *)

(** The page and the step taken at every instant; [None] is an instant at
    which nothing happens. *)
Record Run : Type := {
  page : nat -> Browser;
  label : nat -> option Label
}.

Section Runs.
Context `{Platform}.

Definition moves (l : option Label) (b b' : Browser) : Prop :=
  match l with
  | Some l => step b l b'
  | None => b' = b
  end.

Definition run_ok (r : Run) : Prop :=
  page r 0 = initialBrowser /\ forall n, moves (label r n) (page r n) (page r (S n)).

(** The timer is fair: a handler that waits at some instant resumes at
    that instant or later (or is found not to wait any more). *)
Definition timer_fair (r : Run) : Prop :=
  forall n, is_Some (pending (app (page r n))) ->
    exists m, (n <= m)%nat
      /\ (label r m = Some Timer \/ pending (app (page r m)) = None).

(** The queue is fair: while callbacks wait, the one at the head runs at
    some later instant (or the queue is found empty). *)
Definition queue_fair (r : Run) : Prop :=
  forall n, tasks (page r n) <> [] ->
    exists m, (n <= m)%nat
      /\ (label r m = Some (RunTask 0) \/ tasks (page r m) = []).

(** The callback [t] runs at instant [m]. *)
Definition runs_task (r : Run) (m : nat) (t : Task) : Prop :=
  exists i, label r m = Some (RunTask i) /\ tasks (page r m) !! i = Some t.

(** The run that takes the steps [ls] and then rests. *)
Definition run_of (ls : list Label) : Run :=
  {| page := fun n => default initialBrowser (exec_all (take n ls) initialBrowser);
     label := fun n => ls !! n |}.

End Runs.

(** A run used to apply the theorems: a cover is chosen and loaded, a
    message typed, the process button clicked; while the handler waits
    another file is chosen; then the timer fires and the file loads. *)
Definition busy_run : Run :=
  run_of (H := nearest_platform) (busy_labels ++ [Timer; RunTask 0; RunTask 0]).

(** A run in which the cover is decoded right after it was loaded. *)
Definition decode_labels : list Label :=
  [Choose (Some cover_file); RunTask 0; RunTask 0; User (SwitchMode DecodeMode);
   User ClickProcess; Timer].

Definition decode_run : Run := run_of (H := nearest_platform) decode_labels.

Section Fair.
Context `{Platform}.

(** ** Every page of a run is one a user can bring about *)

Lemma moves_inv l b b' : page_inv b -> moves l b b' -> page_inv b'.
Proof. destruct l; cbn; [by apply page_inv_step | by intros ? ->]. Qed.

Lemma run_inv r n : run_ok r -> page_inv (page r n).
Proof.
  intros [H0 Hn]. induction n as [|n IH]; [rewrite H0; apply page_inv_initial|].
  by eapply moves_inv, Hn.
Qed.

(** ** The timer *)

Lemma moves_pending l b b' cl :
  page_inv b -> pending (app b) = Some cl -> moves l b b' -> l <> Some Timer ->
  pending (app b') = Some cl.
Proof.
  intros Hb Hcl Hm Hl. destruct l as [l|]; cbn in Hm; [|by subst].
  apply (pending_persists b l b' cl); [done..|]. by intros ->.
Qed.

Lemma pending_until_timer r cl :
  run_ok r ->
  forall d n, pending (app (page r n)) = Some cl ->
    label r (n + d) = Some Timer \/ pending (app (page r (n + d))) = None ->
    exists m, (n <= m <= n + d)%nat /\ label r m = Some Timer
      /\ forall i, (n <= i <= m)%nat -> pending (app (page r i)) = Some cl.
Proof.
  intros Hr. induction d as [|d IH]; intros n Hcl Hd.
  - rewrite Nat.add_0_r in Hd. destruct Hd as [Hd|Hd]; [|congruence].
    exists n. split_and!; [lia..|done|]. intros i Hi. by replace i with n by lia.
  - destruct (label r n) as [[e|f|now|j|]|] eqn:Hl;
      try (destruct (IH (S n)) as (m & Hm & Ht & Hall);
           [eapply moves_pending; [by apply run_inv|done|apply Hr|by rewrite Hl]
           |by rewrite Nat.add_succ_comm|];
           exists m; split_and!; [lia..|done|]; intros i Hi;
           destruct (decide (i = n)) as [->|]; [done | apply Hall; lia]).
    exists n. split_and!; [lia..|done|]. intros i Hi. by replace i with n by lia.
Qed.

(** ** The queue *)

Lemma step_task_position b l b' p t :
  step b l b' -> tasks b !! p = Some t ->
  l = RunTask p
  \/ exists q, (q <= p)%nat /\ tasks b' !! q = Some t /\ (l = RunTask 0 -> (q < p)%nat).
Proof.
  assert (forall i ts, i <> p -> tasks b !! p = Some t ->
            exists q, (q <= p)%nat /\ (delete i (tasks b) ++ ts) !! q = Some t
                      /\ (RunTask i = RunTask 0 -> (q < p)%nat)) as Hdel.
  { intros i ts Hi Hp. destruct (decide (i < p)%nat).
    - exists (p - 1)%nat. split_and!; [lia| |lia].
      apply lookup_app_l_Some. rewrite list_lookup_delete_ge by lia.
      by replace (S (p - 1)) with p by lia.
    - exists p. split_and!; [lia| |intros [= ->]; lia].
      apply lookup_app_l_Some. by rewrite list_lookup_delete_lt by lia. }
  intros Hs Hp.
  destruct Hs as [b e|b [file|]|b now|b i file Hi|b i img Hi|b cl];
    try (right; exists p; split_and!; [lia| |done]).
  - by destruct e.
  - by apply lookup_app_l_Some.
  - done.
  - unfold downloadResult. by destruct (resultImage _).
  - destruct (decide (i = p)) as [->|Hne]; [by left | right].
    unfold readerLoaded. destruct (decodes file); cbn [tasks setTasks]; [by apply Hdel|].
    rewrite <- (app_nil_r (delete i _)). by apply Hdel.
  - destruct (decide (i = p)) as [->|Hne]; [by left | right].
    cbn [tasks withApp setTasks]. rewrite <- (app_nil_r (delete i _)). by apply Hdel.
  - done.
Qed.

Lemma task_walk r t :
  run_ok r ->
  forall d n p, tasks (page r n) !! p = Some t ->
    (exists m, (n <= m < n + d)%nat /\ runs_task r m t)
    \/ exists q, (q <= p)%nat /\ tasks (page r (n + d)) !! q = Some t.
Proof.
  intros Hr. induction d as [|d IH]; intros n p Hp.
  - right. exists p. by rewrite Nat.add_0_r.
  - destruct (IH n p Hp) as [(m & Hm & Hrun)|(q & Hq & Hlook)];
      [left; exists m; split; [lia | done]|].
    rewrite Nat.add_succ_r. pose proof (proj2 Hr (n + d)%nat) as Hmove.
    destruct (label r (n + d)) as [l|] eqn:Hl; cbn in Hmove.
    + destruct (step_task_position _ _ _ _ _ Hmove Hlook) as [->|(q' & Hq' & Hlook' & _)].
      * left. exists (n + d)%nat. split; [lia|]. by exists q.
      * right. exists q'. split; [lia | done].
    + right. exists q. by rewrite Hmove.
Qed.

Lemma task_runs r :
  run_ok r -> queue_fair r ->
  forall p n t, tasks (page r n) !! p = Some t ->
    exists m, (n <= m)%nat /\ runs_task r m t.
Proof.
  intros Hr Hfair p. induction (lt_wf p) as [p _ IH]. intros n t Hp.
  destruct (Hfair n) as (m & Hm & Hhead); [by intros E; rewrite E in Hp|].
  destruct (task_walk r t Hr (m - n) n p Hp) as [(m' & Hm' & Hrun)|(q & Hq & Hlook)];
    [by exists m'; split; [lia|]|].
  replace (n + (m - n))%nat with m in Hlook by lia.
  destruct Hhead as [Hl|E]; [|by rewrite E in Hlook].
  pose proof (proj2 Hr m) as Hmove. rewrite Hl in Hmove. cbn in Hmove.
  destruct (step_task_position _ _ _ _ _ Hmove Hlook) as [[= <-]|(q' & _ & Hlook' & Hlt)].
  - exists m. split; [done|]. by exists 0%nat.
  - destruct (IH q' ltac:(specialize (Hlt eq_refl); lia) (S m) t Hlook') as (m' & Hm' & Hrun).
    exists m'. split; [lia | done].
Qed.

Lemma runs_task_step r m t :
  run_ok r -> runs_task r m t ->
  exists i, tasks (page r m) !! i = Some t
    /\ page r (S m) = runTask t (setTasks (delete i (tasks (page r m))) (page r m)).
Proof.
  intros Hr (i & Hl & Hi). exists i. split; [done|].
  pose proof (proj2 Hr m) as Hmove. rewrite Hl in Hmove.
  apply step_exec in Hmove. cbn in Hmove. rewrite Hi in Hmove. by inv Hmove.
Qed.

(** ** Runs that rest *)

Lemma run_of_page ls b n :
  exec_all ls initialBrowser = Some b ->
  exists bn, exec_all (take n ls) initialBrowser = Some bn /\ exec_all (drop n ls) bn = Some b.
Proof. intros Hb. apply exec_all_split. by rewrite take_drop. Qed.

Lemma run_of_rest ls b n :
  exec_all ls initialBrowser = Some b -> (length ls <= n)%nat -> page (run_of ls) n = b.
Proof. intros Hb Hn. cbn. by rewrite take_ge, Hb. Qed.

Lemma run_of_ok ls b : exec_all ls initialBrowser = Some b -> run_ok (run_of ls).
Proof.
  intros Hb. split; [done|]. intros n. cbn [label page run_of].
  destruct (ls !! n) as [l|] eqn:Hl; cbn [moves].
  - destruct (run_of_page ls b n Hb) as (bn & Hn & Hrest).
    rewrite (drop_S _ _ _ Hl), exec_all_cons in Hrest.
    destruct (exec l bn) as [bn'|] eqn:He; [|done].
    rewrite (take_S_r _ _ _ Hl), exec_all_app, Hn. cbn. rewrite He. cbn.
    by apply step_exec.
  - apply lookup_ge_None in Hl. by rewrite !take_ge by lia.
Qed.

Lemma run_of_timer_fair ls b :
  exec_all ls initialBrowser = Some b -> pending (app b) = None -> timer_fair (run_of ls).
Proof.
  intros Hb Hp n _. exists (Nat.max n (length ls)). split; [lia | right].
  by rewrite (run_of_rest ls b) by (done || lia).
Qed.

Lemma run_of_queue_fair ls b :
  exec_all ls initialBrowser = Some b -> tasks b = [] -> queue_fair (run_of ls).
Proof.
  intros Hb Hp n _. exists (Nat.max n (length ls)). split; [lia | right].
  by rewrite (run_of_rest ls b) by (done || lia).
Qed.

(** ** Theorems *)

(** A waiting handler resumes in every fair run: whatever the user does
    meanwhile (gestures, file selections, downloads) and whatever callbacks
    run, a [handleProcess] that waits at instant [n] with the captured
    values [cl] keeps waiting with them until the timer fires; the timer
    does fire, the continuation then runs on the state current at that
    instant, and the busy flag is cleared. *)
Lemma handler_resumes r n cl :
  run_ok r -> timer_fair r -> pending (app (page r n)) = Some cl ->
  exists m, (n <= m)%nat /\ label r m = Some Timer
    /\ (forall i, (n <= i <= m)%nat -> pending (app (page r i)) = Some cl)
    /\ ui (app (page r (S m))) = handleProcess_resume cl (ui (app (page r m)))
    /\ pending (app (page r (S m))) = None
    /\ isProcessing (ui (app (page r (S m)))) = false.
Proof.
  intros Hr Hf Hcl. destruct (Hf n) as (m0 & Hm0 & Hd); [by rewrite Hcl|].
  destruct (pending_until_timer r cl Hr (m0 - n) n Hcl) as (m & Hm & Hl & Hall).
  { by replace (n + (m0 - n))%nat with m0 by lia. }
  exists m. pose proof (proj2 Hr m) as Hmove. rewrite Hl in Hmove. cbn in Hmove.
  destruct (timer_idles _ _ (run_inv r m Hr) Hmove) as [Hp Hi].
  split_and!; [lia|done..| |done|done].
  apply step_exec in Hmove. cbn in Hmove. rewrite (Hall m) in Hmove by lia.
  by inv Hmove.
Qed.

(** A click on the process button that the page accepts starts the handler:
    the button was enabled, and the values of that instant are captured. *)
Lemma click_captures r n :
  run_ok r -> label r n = Some (User ClickProcess) ->
  processDisabled (ui (app (page r n))) = false
  /\ pending (app (page r (S n))) = Some (ui (app (page r n))).
Proof.
  intros Hr Hl. pose proof (proj2 Hr n) as Hmove. rewrite Hl in Hmove.
  destruct (run_inv r n Hr) as ((_ & _ & Him & _) & _).
  apply step_exec in Hmove. cbn in Hmove. unfold processButton in Hmove. cbn in Hmove.
  destruct (processDisabled (ui (app (page r n)))) eqn:Hd; [done|]. split; [done|].
  assert (is_Some (originalImage (ui (app (page r n))))) as [img Himg].
  { rewrite <- Him. unfold processDisabled in Hd.
    destruct (image (ui (app (page r n)))); [by eexists | done]. }
  inv Hmove. cbn. unfold clickProcess, handleProcess_begin. by rewrite Hd, Himg.
Qed.

(** Every accepted click on the process button completes in every fair
    run: the handler resumes at some later instant [m], having waited with
    the values captured at the click whatever the user did and whatever
    callbacks ran in between; it then applies the outcome computed from the
    captured values to the state current at [m] and clears the busy flag. *)
Theorem process_completes_fair r n :
  run_ok r -> timer_fair r -> label r n = Some (User ClickProcess) ->
  exists m, (n < m)%nat /\ label r m = Some Timer
    /\ (forall i, (n < i <= m)%nat -> isProcessing (ui (app (page r i))) = true)
    /\ ui (app (page r (S m)))
       = handleProcess_resume (ui (app (page r n))) (ui (app (page r m)))
    /\ isProcessing (ui (app (page r (S m)))) = false.
Proof.
  intros Hr Hf Hl. destruct (click_captures r n Hr Hl) as [_ Hcl].
  destruct (handler_resumes r (S n) _ Hr Hf Hcl) as (m & Hm & Ht & Hall & Hui & _ & Hi).
  exists m. split_and!; [lia|done| |done|done].
  intros i Hi'. destruct (run_inv r i Hr) as ((_ & Hbusy & _) & _).
  apply Hbusy. rewrite Hall by lia. by eexists.
Qed.

(** C9. Encoding completes in every fair run: when the user clicks the
    process button in encode mode on an opaque cover, with a scale that
    makes the scaled dimensions whole and a Latin-1 message within the
    capacity shown, then
    at some later instant the component holds a result image from which the
    decode path recovers the message typed at the click, whatever the user
    did in between (typing, moving the controls, choosing another file). *)
Theorem encode_completes_fair r n img (W H' : nat) :
  run_ok r -> timer_fair r -> label r n = Some (User ClickProcess) ->
  originalImage (ui (app (page r n))) = Some img -> opaque_image img ->
  mode (ui (app (page r n))) = EncodeMode ->
  whole_dims img (scale (ui (app (page r n)))) W H' -> has_context W H' = true ->
  latin1 (message (ui (app (page r n)))) ->
  (Z.of_nat (length (message (ui (app (page r n))))) < 2 ^ 32)%Z ->
  (Z.of_nat (length (message (ui (app (page r n))))) <= capacity (ui (app (page r n))))%Z ->
  exists m url, (n < m)%nat
    /\ resultImage (ui (app (page r (S m)))) = Some url
    /\ processDecode (ui (app (page r n))) url = Ok (message (ui (app (page r n)))).
Proof.
  intros Hr Hf Hl Himg Hop Hmode Hd Hctx Hlat Hlen Hcap.
  destruct (click_captures r n Hr Hl) as [Hdis Hcl].
  destruct (run_inv r n Hr) as ((Hc & _) & [Hk _] & _).
  assert (message (ui (app (page r n))) <> []) as Hne.
  { intros Hm. unfold processDisabled in Hdis. rewrite Hmode, Hm in Hdis.
    by rewrite orb_true_r in Hdis. }
  destruct (processEncode_whole_dims _ img W H' Hop (Hc img Himg) Hd) as (url & He & Hdec);
    [lia | done..|].
  destruct (handler_resumes r (S n) _ Hr Hf Hcl) as (m & Hm & _ & _ & Hui & _).
  exists m, url. split_and!; [lia| |done].
  rewrite Hui. unfold handleProcess_resume. by rewrite Himg, Hmode, He.
Qed.

(** C39. A decode run always ends: in every fair run a click on the process
    button in decode mode is followed by an instant at which the handler
    is idle again and the component holds the outcome of the decode path
    on the image and the depth captured at the click, the decoded message
    or the error. *)
Theorem decode_completes_fair r n img :
  run_ok r -> timer_fair r -> label r n = Some (User ClickProcess) ->
  originalImage (ui (app (page r n))) = Some img ->
  mode (ui (app (page r n))) = DecodeMode ->
  exists m, (n < m)%nat
    /\ isProcessing (ui (app (page r (S m)))) = false
    /\ match processDecode (ui (app (page r n))) img with
       | Ok decoded => decodedMessage (ui (app (page r (S m)))) = Some decoded
       | Throw e => error (ui (app (page r (S m)))) = Some e
       end.
Proof.
  intros Hr Hf Hl Himg Hmode. destruct (click_captures r n Hr Hl) as [_ Hcl].
  destruct (handler_resumes r (S n) _ Hr Hf Hcl) as (m & Hm & _ & _ & Hui & _ & Hi).
  exists m. split_and!; [lia|done|].
  rewrite Hui. unfold handleProcess_resume. rewrite Himg, Hmode.
  by destruct (processDecode _ img).
Qed.

(** C23. Every upload completes in every fair run: when the user chooses a
    file that is an image, then, whatever else happens, at some later
    instant its [img.onload] runs and the component holds that image, as
    preview and as source of the next run of [handleProcess]. *)
Theorem upload_completes_fair r n file img :
  run_ok r -> queue_fair r ->
  label r n = Some (Choose (Some file)) -> decodes file = Some img ->
  exists m, (n < m)%nat /\ runs_task r m (ImageLoad img)
    /\ originalImage (ui (app (page r (S m)))) = Some img
    /\ image (ui (app (page r (S m)))) = Some img.
Proof.
  intros Hr Hf Hl Hfile. pose proof (proj2 Hr n) as Hmove. rewrite Hl in Hmove.
  apply step_exec in Hmove. cbn in Hmove. case_decide; [done|]. inv Hmove.
  destruct (task_runs r Hr Hf (length (tasks (page r n))) (S n) (ReaderLoad file))
    as (m1 & Hm1 & Hrun1).
  { rewrite <- H2. cbn. by rewrite lookup_app_r, Nat.sub_diag. }
  destruct (runs_task_step r m1 _ Hr Hrun1) as (i & Hi & Hpage). cbn in Hpage.
  unfold readerLoaded in Hpage. rewrite Hfile in Hpage. cbn in Hpage.
  destruct (task_runs r Hr Hf (length (delete i (tasks (page r m1)))) (S m1) (ImageLoad img))
    as (m2 & Hm2 & Hrun2).
  { rewrite Hpage. cbn. by rewrite lookup_app_r, Nat.sub_diag. }
  destruct (runs_task_step r m2 _ Hr Hrun2) as (j & Hj & Hpage2). cbn in Hpage2.
  exists m2. rewrite Hpage2. cbn [app withApp].
  split_and!; [lia | done | apply dispatch_imageLoaded..].
Qed.

End Fair.

(** ** Witnesses *)

Lemma busy_run_ok : run_ok (H := nearest_platform) busy_run.
Proof.
  apply (run_of_ok _ (page_after (busy_labels ++ [Timer; RunTask 0; RunTask 0]))).
  by vm_compute.
Qed.

Lemma busy_run_timer_fair : timer_fair busy_run.
Proof.
  apply (run_of_timer_fair _ (page_after (busy_labels ++ [Timer; RunTask 0; RunTask 0])));
    by vm_compute.
Qed.

Lemma process_completes_fair_witness :
  exists m, (4 < m)%nat /\ label busy_run m = Some Timer
    /\ (forall i, (4 < i <= m)%nat -> isProcessing (ui (app (page busy_run i))) = true)
    /\ ui (app (page busy_run (S m)))
       = handleProcess_resume (H := nearest_platform) (ui (app (page busy_run 4)))
           (ui (app (page busy_run m)))
    /\ isProcessing (ui (app (page busy_run (S m)))) = false.
Proof.
  apply (process_completes_fair (H := nearest_platform) busy_run 4).
  - apply busy_run_ok.
  - apply busy_run_timer_fair.
  - by vm_compute.
Defined.

Lemma encode_completes_fair_witness :
  exists m url, (4 < m)%nat
    /\ resultImage (ui (app (page busy_run (S m)))) = Some url
    /\ processDecode (H := nearest_platform) (ui (app (page busy_run 4))) url
       = Ok (message (ui (app (page busy_run 4)))).
Proof.
  apply (encode_completes_fair (H := nearest_platform) busy_run 4 (blank_image 4 4) 4 4).
  - apply busy_run_ok.
  - apply busy_run_timer_fair.
  - by vm_compute.
  - by vm_compute.
  - apply blank_image_opaque; lia.
  - by vm_compute.
  - by vm_compute.
  - by vm_compute.
  - vm_compute; repeat constructor; discriminate.
  - by vm_compute.
  - vm_compute; discriminate.
Defined.

Lemma upload_completes_fair_witness :
  exists m, (5 < m)%nat /\ runs_task busy_run m (ImageLoad (blank_image 2 2))
    /\ originalImage (ui (app (page busy_run (S m)))) = Some (blank_image 2 2)
    /\ image (ui (app (page busy_run (S m)))) = Some (blank_image 2 2).
Proof.
  apply (upload_completes_fair (H := nearest_platform) busy_run 5 other_file).
  - apply busy_run_ok.
  - apply (run_of_queue_fair _ (page_after (busy_labels ++ [Timer; RunTask 0; RunTask 0])));
      by vm_compute.
  - by vm_compute.
  - done.
Defined.

Lemma decode_run_ok : run_ok (H := nearest_platform) decode_run.
Proof. apply (run_of_ok _ (page_after decode_labels)). by vm_compute. Qed.

Lemma decode_run_timer_fair : timer_fair decode_run.
Proof. apply (run_of_timer_fair _ (page_after decode_labels)); by vm_compute. Qed.

Lemma decode_completes_fair_witness :
  exists m, (4 < m)%nat
    /\ isProcessing (ui (app (page decode_run (S m)))) = false
    /\ match processDecode (H := nearest_platform) (ui (app (page decode_run 4)))
               (blank_image 4 4) with
       | Ok decoded => decodedMessage (ui (app (page decode_run (S m)))) = Some decoded
       | Throw e => error (ui (app (page decode_run (S m)))) = Some e
       end.
Proof.
  apply (decode_completes_fair (H := nearest_platform) decode_run 4 (blank_image 4 4));
    [apply decode_run_ok | apply decode_run_timer_fair | by vm_compute..].
Defined.
