(* ===== verification/Text.v ===== *)
(** * Text: the error texts the program produces and shows

    Elsewhere an error is identified by the statement that raised it.  Here
    the errors get the messages the source gives them: the four texts of
    the codec, the template of the capacity check with the capacity printed
    in it, the message of the exception the browser raises on an empty
    canvas ([domMessage], the browser's own text), and the fallback that
    [handleProcess] stores when a message is empty.  The theorems show that
    nothing is lost by identifying a message with its error, that the
    banner never hides an error, and when the fallback can appear.

    String literals and template literals are those of [JsString]. *)

From Stdlib Require Import ZArith Lia QArith Qround List String Ascii.
From stdpp Require Import base tactics list numbers pretty.
From coqutil Require Import Byte.
From S2P Require Import Prelude BinStr JsNum Canvas JsString Encode Decode Roundtrip Resample App View Browser.

#[local] Open Scope Z_scope.

(** ** Error messages *)

Definition fallbackMessage : jsstring := units "An error occurred during processing.".

Section Messages.
Context (domMessage : jsstring).

(** [err.message] of what the codec and [scaleImage] throw. *)
Definition errorMessage (e : Error) : jsstring :=
  match e with
  | NoCanvasContext => units "Could not get canvas context"
  | IndexSizeError => domMessage
  | ImageTooSmall => units "Image is too small to contain a message."
  | NoValidMessage =>
      units "No valid message found. Make sure you are using the correct Bit-Depth and the image was not compressed."
  | EndedPrematurely => units "Image data ended prematurely. Message might be corrupted."
  end.

(** [err.message] of what reaches the [catch] of [handleProcess]. *)
Definition appErrorMessage (e : AppError) : jsstring :=
  match e with
  | CodecError e => errorMessage e
  | MessageTooLong capacity =>
      units "Message too long for current capacity (" ++ decimal capacity ++ units " bytes)."
  end.

(** [err.message || 'An error occurred during processing.']. *)
Definition caught (e : AppError) : jsstring :=
  if truthy (appErrorMessage e) then appErrorMessage e else fallbackMessage.

(** The [error] state as the string the component stores. *)
Definition errorString (st : State) : option jsstring :=
  match error st with
  | Some e => Some (caught e)
  | None => None
  end.

(** [{error && <p>{error}</p>}]: the text of the banner. *)
Definition bannerText (st : State) : option jsstring :=
  match errorString st with
  | Some s => if truthy s then Some s else None
  | None => None
  end.

(** The first seven code units tell the program's own messages apart. *)
Definition own_prefix (e : AppError) : jsstring :=
  match e with
  | CodecError NoCanvasContext => units "Could n"
  | CodecError IndexSizeError => take 7 domMessage
  | CodecError ImageTooSmall => units "Image i"
  | CodecError NoValidMessage => units "No vali"
  | CodecError EndedPrematurely => units "Image d"
  | MessageTooLong _ => units "Message"
  end.

(** The browser's message is none of the program's own. *)
Definition foreign : Prop :=
  forall e, e <> CodecError IndexSizeError ->
    caught e <> caught (CodecError IndexSizeError).

End Messages.

(** The message of Chromium for [getImageData] on a canvas without width. *)
Definition chromiumMessage : jsstring :=
  units "Failed to execute 'getImageData' on 'CanvasRenderingContext2D': The source width is 0.".

(** ** Lemmas on strings *)

#[export] Instance AppError_eq_dec : EqDecision AppError.
Proof. solve_decision. Defined.

(** ** Lemmas on messages *)

Section MessageLemmas.
Context (domMessage : jsstring).

Lemma take_appErrorMessage e : take 7 (appErrorMessage domMessage e) = own_prefix domMessage e.
Proof.
  by destruct e as [[]|capacity].
Qed.

Lemma own_nonempty e :
  e <> CodecError IndexSizeError -> truthy (appErrorMessage domMessage e) = true.
Proof.
  intros He. pose proof (take_appErrorMessage e) as Ht.
  destruct (appErrorMessage domMessage e) eqn:Hm; [|done].
  by destruct e as [[]|capacity].
Qed.

Lemma caught_own e :
  e <> CodecError IndexSizeError -> caught domMessage e = appErrorMessage domMessage e.
Proof. intros He. unfold caught. by rewrite own_nonempty. Qed.

Lemma caught_truthy e : truthy (caught domMessage e) = true.
Proof.
  unfold caught. destruct (truthy (appErrorMessage domMessage e)) eqn:Ht; done.
Qed.

Lemma own_inj e1 e2 :
  e1 <> CodecError IndexSizeError -> e2 <> CodecError IndexSizeError ->
  appErrorMessage domMessage e1 = appErrorMessage domMessage e2 -> e1 = e2.
Proof.
  intros H1 H2 Hm. pose proof (f_equal (take 7) Hm) as Hp.
  rewrite !take_appErrorMessage in Hp.
  destruct e1 as [[]|c1], e2 as [[]|c2]; try done.
  cbn [appErrorMessage] in Hm. by apply app_inv_head, app_inv_tail, (inj decimal) in Hm as ->.
Qed.

End MessageLemmas.

(** ** Theorems *)

Section MessageTheorems.
Context (domMessage : jsstring).

(** Messages identify errors: when the browser's message for an empty
    canvas is none of the program's own, two errors that leave the same
    string in the [error] state are the same error, with the same
    capacity printed; so nothing is lost by keeping the error instead of
    its message. *)
Theorem caught_identifies e1 e2 :
  foreign domMessage -> caught domMessage e1 = caught domMessage e2 -> e1 = e2.
Proof.
  intros Hf Hc.
  destruct (decide (e1 = CodecError IndexSizeError)) as [->|H1],
           (decide (e2 = CodecError IndexSizeError)) as [->|H2]; [done|..].
  - by destruct (Hf e2 H2).
  - by destruct (Hf e1 H1).
  - rewrite !caught_own in Hc by done. by apply (own_inj domMessage).
Qed.

(** C32. The banner never hides an error, and the fallback text appears
    only for an exception of the browser without a message: whatever
    [handleProcess] catches, the string it stores is not empty, so the
    truthiness test of the banner shows it; for every error the program
    itself throws the string is the message of that error. *)
Theorem banner_shows_error st e :
  error st = Some e ->
  bannerText domMessage st = Some (caught domMessage e)
  /\ (e <> CodecError IndexSizeError -> caught domMessage e = appErrorMessage domMessage e)
  /\ (caught domMessage e = fallbackMessage ->
      e = CodecError IndexSizeError /\ (domMessage = [] \/ domMessage = fallbackMessage)).
Proof.
  intros He. unfold bannerText, errorString. rewrite He, caught_truthy.
  split_and!; [done | apply caught_own |]. intros Hc.
  destruct (decide (e = CodecError IndexSizeError)) as [->|Hne].
  - split; [done|]. unfold caught in Hc. cbn [appErrorMessage errorMessage] in Hc.
    destruct domMessage; [by left | by right].
  - rewrite caught_own in Hc by done. apply (f_equal (take 7)) in Hc.
    rewrite take_appErrorMessage in Hc. by destruct e as [[]|capacity].
Qed.

End MessageTheorems.

(** ** Witnesses *)

Lemma chromium_foreign : foreign chromiumMessage.
Proof.
  intros e He Hc. rewrite caught_own in Hc by done.
  apply (f_equal (take 7)) in Hc. rewrite take_appErrorMessage in Hc.
  by destruct e as [[]|capacity].
Qed.

Lemma caught_identifies_witness :
  MessageTooLong 26 = MessageTooLong 26.
Proof.
  apply (caught_identifies chromiumMessage (MessageTooLong 26) (MessageTooLong 26)
           chromium_foreign eq_refl).
Defined.

Lemma banner_shows_error_witness :
  bannerText chromiumMessage (ui (process (H := nearest_platform) long_sys))
  = Some (caught chromiumMessage (MessageTooLong 2))
  /\ (MessageTooLong 2 <> CodecError IndexSizeError ->
      caught chromiumMessage (MessageTooLong 2) = appErrorMessage chromiumMessage (MessageTooLong 2))
  /\ (caught chromiumMessage (MessageTooLong 2) = fallbackMessage ->
      MessageTooLong 2 = CodecError IndexSizeError
      /\ (chromiumMessage = [] \/ chromiumMessage = fallbackMessage)).
Proof.
  apply (banner_shows_error chromiumMessage (ui (process (H := nearest_platform) long_sys))).
  by vm_compute.
Defined.

