(* ===== verification/Doubles.v ===== *)
(** * Doubles: the numbers of the program as IEEE 754 binary64 values

    Every number of the source is a double.  [JsNum] and [App] compute with
    integers and rationals; this file holds the arithmetic the engine
    performs, on the binary64 format of the standard library ([SpecFloat],
    precision 53, maximal exponent 1024, rounding to nearest even), and the
    lemmas that say when it is exact:
    - [double] is the type of numbers; [dyadic N t] is the double nearest to
      [N * 2^t] and [ofZ z] the one nearest to the integer [z];
    - [num_mul], [num_div], [num_sub] and [num_gt] are the operators [*],
      [/], [-] and [>];
    - [Math_floor] and [Math_max] are the two library functions the
      capacity effect calls;
    - [toInteger] and [toUint32] are the conversion applied when a number
      is assigned to [canvas.width] (an [unsigned long]).

    [canonical N t] is the normal form of [N * 2^t] written out: the
    significand shifted to 53 bits and the matching exponent.  The lemmas
    show that [dyadic] computes it for every [N] below [2^53]
    ([dyadic_canonical]) and that each operation maps canonical operands to
    the canonical form of the exact result whenever that result has at most
    53 significant bits ([num_mul_exact], [num_div_pow2], [num_sub_exact],
    [Math_floor_exact], [Math_max_zero], [toInteger_exact],
    [num_gt_exact]).  [normal_exp] bounds the exponents so that no result
    is subnormal or infinite; the program's exponents lie between -5 and
    0.  [num_mul_rounds] shows a product that is rounded. *)

From Stdlib Require Import ZArith Lia List SpecFloat.
From stdpp Require Import base tactics numbers.
From S2P Require Import Prelude.

#[local] Open Scope Z_scope.

(** ** Numbers and operators *)

(** A JavaScript number. *)
Definition double : Type := spec_float.

(** The double nearest to [N * 2^t]. *)
Definition dyadic (N t : Z) : double := binary_normalize 53 1024 N t false.

(** The number an integer literal or an integer property denotes. *)
Definition ofZ (z : Z) : double := dyadic z 0.

(** The operators [*], [/] and [-]. *)
Definition num_mul : double -> double -> double := SFmul 53 1024.

Definition num_div : double -> double -> double := SFdiv 53 1024.

Definition num_sub : double -> double -> double := SFsub 53 1024.

(** [x > y]; false when either operand is NaN. *)
Definition num_gt (x y : double) : bool := SFltb y x.

(** [Math.floor]: NaN, the zeros and the infinities are returned as they
    are, and so is a finite number without fractional bits. *)
Definition Math_floor (x : double) : double :=
  match x with
  | S754_finite s m e =>
      if 0 <=? e then x
      else binary_normalize 53 1024 (cond_Zopp s (Zpos m) / 2 ^ (- e)) 0 s
  | _ => x
  end.

(** [Math.max] of two arguments: NaN when the operands do not compare, and
    [+0] above [-0]. *)
Definition Math_max (x y : double) : double :=
  match SFcompare x y with
  | None => S754_nan
  | Some Lt => y
  | Some Gt => x
  | Some Eq => match x with S754_zero true => y | _ => x end
  end.

(** The integer part of a number, towards zero; 0 for NaN and the
    infinities. *)
Definition toInteger (x : double) : Z :=
  match x with
  | S754_finite s m e =>
      cond_Zopp s (if 0 <=? e then Zpos m * 2 ^ e else Zpos m / 2 ^ (- e))
  | _ => 0
  end.

(** The conversion to [unsigned long]. *)
Definition toUint32 (x : double) : Z := toInteger x mod 2 ^ 32.

(** ** The normal form *)

(** The number of bits of [z]. *)
Definition digits (z : Z) : Z := Z.log2 (Z.abs z) + 1.

(** The significand of [N] shifted to 53 bits. *)
Definition mantissa (N : Z) : positive := Z.to_pos (Z.abs N * 2 ^ (53 - digits N)).

Definition canonical (N t : Z) : double :=
  match N with
  | 0 => S754_zero false
  | Zpos _ => S754_finite false (mantissa N) (t + digits N - 53)
  | Zneg _ => S754_finite true (mantissa N) (t + digits N - 53)
  end.

(** Exponents for which every significand below [2^53] gives a normal
    number. *)
Definition normal_exp (e : Z) : Prop := -1021 <= e <= 918.

(** ** Rounding a significand that fits *)

(** The bit count of the library is the binary logarithm plus one. *)
Lemma Zdigits2_log2 z : 0 < z -> Zdigits2 z = Z.log2 z + 1.
Proof.
  destruct z as [|p|p]; [lia| |lia]. intros _. cbn [Zdigits2].
  induction p as [p IH|p IH|]; cbn [digits2_pos]; [| |done].
  - rewrite Pos2Z.inj_succ, IH. change (Z.pos p~1) with (2 * Z.pos p + 1).
    rewrite Z.log2_succ_double by lia. lia.
  - rewrite Pos2Z.inj_succ, IH. change (Z.pos p~0) with (2 * Z.pos p).
    rewrite Z.log2_double by lia. lia.
Qed.

(** Shifting right: [n] steps remove [n] zero bits and leave both sticky
    bits clear. *)
Lemma iter_pos_nat {A} (f : A -> A) p x : SpecFloat.iter_pos f p x = Nat.iter (Pos.to_nat p) f x.
Proof.
  revert x. induction p as [p IH|p IH|]; intros x; cbn [SpecFloat.iter_pos]; [| |done].
  - rewrite !IH, Pos2Nat.inj_xI, Nat.iter_succ_r.
    replace (2 * Pos.to_nat p)%nat with (Pos.to_nat p + Pos.to_nat p)%nat by lia.
    by rewrite Nat.iter_add.
  - rewrite !IH, Pos2Nat.inj_xO.
    replace (2 * Pos.to_nat p)%nat with (Pos.to_nat p + Pos.to_nat p)%nat by lia.
    by rewrite Nat.iter_add.
Qed.

Lemma shr_1_exact m :
  0 < m -> shr_1 {| shr_m := 2 * m; shr_r := false; shr_s := false |}
         = {| shr_m := m; shr_r := false; shr_s := false |}.
Proof. by destruct m. Qed.

Lemma shr_exact (n : nat) m :
  0 < m ->
  Nat.iter n shr_1 {| shr_m := m * 2 ^ Z.of_nat n; shr_r := false; shr_s := false |}
  = {| shr_m := m; shr_r := false; shr_s := false |}.
Proof.
  intros Hm. induction n as [|n IH]; [by rewrite Z.mul_1_r|].
  rewrite Nat.iter_succ_r, Nat2Z.inj_succ, Z.pow_succ_r by lia.
  replace (m * (2 * 2 ^ Z.of_nat n)) with (2 * (m * 2 ^ Z.of_nat n)) by ring.
  rewrite shr_1_exact; [done|]. apply Z.mul_pos_pos; [done|]. apply Z.pow_pos_nonneg; lia.
Qed.

Lemma shr_exact_pos n m e :
  0 < m -> 0 <= n ->
  shr {| shr_m := m * 2 ^ n; shr_r := false; shr_s := false |} e n
  = ({| shr_m := m; shr_r := false; shr_s := false |}, e + n).
Proof.
  intros Hm Hn. destruct n as [|p|p]; [by rewrite Z.mul_1_r, Z.add_0_r| |lia].
  cbn [shr]. rewrite iter_pos_nat, <- (positive_nat_Z p) at 1. by rewrite shr_exact.
Qed.

(** A 53-bit significand followed by [n] zero bits is rounded to itself. *)
Lemma round_aux_exact s m n e :
  2 ^ 52 <= m < 2 ^ 53 -> 0 <= n -> -1074 <= e + n <= 971 ->
  binary_round_aux 53 1024 s (m * 2 ^ n) e loc_Exact = S754_finite s (Z.to_pos m) (e + n).
Proof.
  intros Hm Hn He.
  assert (forall e', -1074 <= e' <= 971 ->
    shr_fexp 53 1024 m e' loc_Exact = ({| shr_m := m; shr_r := false; shr_s := false |}, e')) as Hfix.
  { intros e' He'. unfold shr_fexp, fexp, emin.
    rewrite Zdigits2_log2, (Z.log2_unique _ 52) by lia.
    replace (Z.max (52 + 1 + e' - 53) (3 - 1024 - 53) - e') with 0 by lia. done. }
  unfold binary_round_aux.
  assert (shr_fexp 53 1024 (m * 2 ^ n) e loc_Exact
          = ({| shr_m := m; shr_r := false; shr_s := false |}, e + n)) as ->.
  { unfold shr_fexp, fexp, emin.
    assert (0 < m * 2 ^ n) as Hpos by (apply Z.mul_pos_pos; [lia|by apply Z.pow_pos_nonneg]).
    rewrite Zdigits2_log2, Z.log2_mul_pow2, (Z.log2_unique m 52) by lia.
    replace (Z.max (n + 52 + 1 + e - 53) (3 - 1024 - 53) - e) with n by lia.
    cbn [shr_record_of_loc]. apply shr_exact_pos; lia. }
  cbn [shr_m loc_of_shr_record round_nearest_even]. rewrite Hfix by done.
  cbn [shr_m]. destruct m as [|p|p]; try lia.
  destruct (Z.leb_spec (e + n) (1024 - 53)); [done|lia].
Qed.

(** Shifting left, as the alignment of operands does it. *)
Lemma iter_xO m q : Zpos (Pos.iter xO m q) = Zpos m * 2 ^ Zpos q.
Proof.
  induction q as [|q IH] using Pos.peano_ind; [cbn; lia|].
  rewrite Pos.iter_succ, Pos2Z.inj_xO, IH, Pos2Z.inj_succ, Z.pow_succ_r by lia. ring.
Qed.

Lemma shl_align_spec mx ex ex' :
  shl_align mx ex ex'
  = (Z.to_pos (Zpos mx * 2 ^ (ex - Z.min ex ex')), Z.min ex ex').
Proof.
  unfold shl_align. destruct (ex' - ex) as [|d|d] eqn:E.
  - replace (Z.min ex ex') with ex by lia. rewrite Z.sub_diag, Z.mul_1_r. done.
  - replace (Z.min ex ex') with ex by lia. rewrite Z.sub_diag, Z.mul_1_r. done.
  - replace (Z.min ex ex') with ex' by lia. replace (ex - ex') with (Zpos d) by lia.
    by rewrite <- iter_xO.
Qed.

(** ** The normal form of a number below [2^53] *)

Lemma digits_bounds N : N <> 0 -> Z.abs N < 2 ^ 53 -> 1 <= digits N <= 53.
Proof.
  intros HN Hlt. unfold digits. pose proof (Z.log2_nonneg (Z.abs N)).
  assert (Z.log2 (Z.abs N) < 53) by (apply Z.log2_lt_pow2; lia). lia.
Qed.

Lemma mantissa_normal N :
  N <> 0 -> Z.abs N < 2 ^ 53 -> 2 ^ 52 <= Z.abs N * 2 ^ (53 - digits N) < 2 ^ 53.
Proof.
  intros HN Hlt. unfold digits.
  assert (0 < Z.abs N) as Hpos by lia.
  pose proof (Z.log2_spec _ Hpos) as [Hlo Hhi].
  assert (Z.log2 (Z.abs N) < 53) as Hd by (apply Z.log2_lt_pow2; lia).
  pose proof (Z.log2_nonneg (Z.abs N)) as H0.
  set (l := Z.log2 (Z.abs N)) in *.
  replace (53 - (l + 1)) with (52 - l) by lia.
  replace (2 ^ 52) with (2 ^ l * 2 ^ (52 - l)) by (rewrite <- Z.pow_add_r by lia; f_equal; lia).
  replace (2 ^ 53) with (2 ^ Z.succ l * 2 ^ (52 - l)) by (rewrite <- Z.pow_add_r by lia; f_equal; lia).
  assert (0 < 2 ^ (52 - l)) by (apply Z.pow_pos_nonneg; lia). nia.
Qed.

(** Normalisation is exact on [K * 2^j] when [K] has at most 53 bits. *)
Lemma binary_round_exact s K j t :
  0 < K < 2 ^ 53 -> 0 <= j -> -1021 <= t + j <= 918 ->
  binary_round 53 1024 s (Z.to_pos (K * 2 ^ j)) t
  = S754_finite s (mantissa K) (t + j + digits K - 53).
Proof.
  intros HK Hj Ht. unfold binary_round, mantissa.
  pose proof (mantissa_normal K ltac:(lia) ltac:(lia)) as Hm.
  assert (0 < 2 ^ j) as H2j by (by apply Z.pow_pos_nonneg).
  assert (0 < K * 2 ^ j) as Hpos by nia.
  pose proof (digits_bounds K ltac:(lia) ltac:(lia)) as Hd.
  change (Zpos (digits2_pos ?p)) with (Zdigits2 (Zpos p)).
  rewrite shl_align_spec, (Z2Pos.id (K * 2 ^ j)), Zdigits2_log2, Z.log2_mul_pow2 by lia.
  unfold fexp, emin. rewrite (Z.abs_eq K) in * by lia. fold (digits K) in *.
  replace (Z.log2 K) with (digits K - 1) by (unfold digits; rewrite Z.abs_eq; lia).
  set (d := digits K) in *.
  replace (Z.max (j + (d - 1) + 1 + t - 53) (3 - 1024 - 53)) with (j + d + t - 53) by lia.
  set (e := Z.min t (j + d + t - 53)).
  rewrite Z2Pos.id by (assert (0 < 2 ^ (t - e)) by (apply Z.pow_pos_nonneg; lia); nia).
  replace (K * 2 ^ j * 2 ^ (t - e)) with (K * 2 ^ (53 - d) * 2 ^ (t + j + d - 53 - e)).
  2:{ rewrite <- !Z.mul_assoc, <- !Z.pow_add_r by lia. do 2 f_equal. lia. }
  rewrite round_aux_exact by lia. f_equal. lia.
Qed.

Lemma digits_opp N : digits (- N) = digits N.
Proof. unfold digits. by rewrite Z.abs_opp. Qed.

Lemma mantissa_opp N : mantissa (- N) = mantissa N.
Proof. unfold mantissa. by rewrite Z.abs_opp, digits_opp. Qed.

Lemma mantissa_abs K : 0 < K -> mantissa K = Z.to_pos (K * 2 ^ (53 - digits K)).
Proof. intros. unfold mantissa. by rewrite Z.abs_eq by lia. Qed.

(** [dyadic] computes the normal form, whichever way the value is split
    between significand and exponent. *)
Lemma dyadic_shift N j t :
  Z.abs N < 2 ^ 53 -> 0 <= j -> normal_exp (t + j) ->
  dyadic (N * 2 ^ j) t = canonical N (t + j).
Proof.
  intros HN Hj Ht. assert (0 < 2 ^ j) as H2j by (by apply Z.pow_pos_nonneg).
  unfold dyadic, binary_normalize, canonical.
  destruct N as [|p|p]; [done|..].
  - destruct (Z.pos p * 2 ^ j) as [|q|q] eqn:E; [nia| |nia].
    rewrite <- (Pos2Z.id q), <- E. apply binary_round_exact; [lia|done..].
  - destruct (Z.neg p * 2 ^ j) as [|q|q] eqn:E; [nia|nia|].
    replace q with (Z.to_pos (Z.pos p * 2 ^ j)) by nia.
    change (Z.neg p) with (- Z.pos p). rewrite mantissa_opp, digits_opp.
    apply binary_round_exact; [lia|done..].
Qed.

Lemma dyadic_canonical N t :
  Z.abs N < 2 ^ 53 -> normal_exp t -> dyadic N t = canonical N t.
Proof.
  intros HN Ht. rewrite <- (Z.mul_1_r N) at 1. change 1 with (2 ^ 0).
  rewrite dyadic_shift, ?Z.add_0_r; [done..|lia|by rewrite Z.add_0_r].
Qed.

(** ** Exact operations *)

Lemma mantissa_Z N :
  N <> 0 -> Z.abs N < 2 ^ 53 -> Zpos (mantissa N) = Z.abs N * 2 ^ (53 - digits N).
Proof. intros HN Hlt. unfold mantissa. pose proof (mantissa_normal N HN Hlt). rewrite Z2Pos.id; lia. Qed.

Lemma digits_mul N M :
  0 < N -> 0 < M -> digits N + digits M - 1 <= digits (N * M).
Proof.
  intros HN HM. unfold digits. rewrite !Z.abs_eq by nia.
  pose proof (Z.log2_mul_below N M HN HM). lia.
Qed.

Lemma canonical_pos K t :
  0 < K -> canonical K t = S754_finite false (mantissa K) (t + digits K - 53).
Proof. by destruct K. Qed.

(** A product of at most 53 bits is exact. *)
Lemma num_mul_exact N t M u :
  0 <= N < 2 ^ 53 -> 0 <= M < 2 ^ 53 -> N * M < 2 ^ 53 ->
  normal_exp t -> normal_exp u -> normal_exp (t + u) ->
  num_mul (dyadic N t) (dyadic M u) = dyadic (N * M) (t + u).
Proof.
  intros HN HM Hlt Ht Hu Htu.
  destruct (decide (N = 0)) as [->|HN0].
  { rewrite (dyadic_canonical M) by (done || lia). destruct M; [done..|lia]. }
  destruct (decide (M = 0)) as [->|HM0].
  { rewrite (dyadic_canonical N), Z.mul_0_r by (done || lia). destruct N; [done..|lia]. }
  assert (Z.abs N < 2 ^ 53 /\ Z.abs M < 2 ^ 53 /\ Z.abs (N * M) < 2 ^ 53) as (HaN & HaM & HaNM) by nia.
  rewrite !dyadic_canonical by done.
  pose proof (mantissa_Z N HN0 HaN) as EN. pose proof (mantissa_Z M HM0 HaM) as EM.
  pose proof (mantissa_Z (N * M) ltac:(nia) HaNM) as ENM.
  pose proof (mantissa_normal (N * M) ltac:(nia) HaNM) as HmNM.
  pose proof (digits_mul N M ltac:(lia) ltac:(lia)) as Hd.
  pose proof (digits_bounds N HN0 HaN). pose proof (digits_bounds M HM0 HaM).
  pose proof (digits_bounds (N * M) ltac:(nia) HaNM).
  rewrite !canonical_pos by nia. cbn [num_mul SFmul xorb].
  rewrite Pos2Z.inj_mul, EN, EM, !Z.abs_eq by lia. rewrite Z.abs_eq in ENM, HmNM by nia.
  replace (N * 2 ^ (53 - digits N) * (M * 2 ^ (53 - digits M)))
    with (N * M * 2 ^ (53 - digits (N * M)) * 2 ^ (53 + digits (N * M) - digits N - digits M)).
  2:{ rewrite <- !Z.mul_assoc. f_equal. rewrite (Z.mul_comm (2 ^ _) (M * _)), <- !Z.mul_assoc. f_equal.
      rewrite <- !Z.pow_add_r by lia. f_equal. lia. }
  unfold normal_exp in *. rewrite round_aux_exact, <- ENM, Pos2Z.id by lia. f_equal. lia.
Qed.

Lemma mantissa_digits N :
  N <> 0 -> Z.abs N < 2 ^ 53 -> Zdigits2 (Zpos (mantissa N)) = 53.
Proof.
  intros HN Hlt. pose proof (mantissa_normal N HN Hlt) as Hm.
  rewrite Zdigits2_log2, mantissa_Z, (Z.log2_unique _ 52); lia.
Qed.

(** Division by a power of two only changes the exponent. *)
Lemma digits_pow2 p : 0 <= p -> digits (2 ^ p) = p + 1.
Proof.
  intros Hp. unfold digits.
  by rewrite Z.abs_eq, Z.log2_pow2 by (done || apply Z.pow_nonneg; lia).
Qed.

Lemma pow2_canonical p :
  0 <= p <= 52 -> canonical (2 ^ p) 0 = S754_finite false 4503599627370496 (p - 52).
Proof.
  intros Hp. assert (0 < 2 ^ p) by (apply Z.pow_pos_nonneg; lia).
  rewrite canonical_pos, mantissa_abs, digits_pow2, <- Z.pow_add_r by lia.
  replace (p + (53 - (p + 1))) with 52 by lia. f_equal. lia.
Qed.

Lemma div_eucl_exact q d : 0 < d -> Z.div_eucl (d * q) d = (q, 0).
Proof.
  intros Hd. rewrite (surjective_pairing (Z.div_eucl _ _)).
  change (fst (Z.div_eucl (d * q) d)) with (d * q / d).
  change (snd (Z.div_eucl (d * q) d)) with ((d * q) mod d).
  by rewrite Z.mul_comm, Z.div_mul, Z.mod_mul by lia.
Qed.

Lemma num_div_pow2 N t p :
  0 <= N < 2 ^ 53 -> 0 <= p <= 52 -> normal_exp t -> normal_exp (t - p) ->
  num_div (dyadic N t) (ofZ (2 ^ p)) = dyadic N (t - p).
Proof.
  intros HN Hp Ht Htp. assert (0 < 2 ^ p < 2 ^ 53) by (split; [apply Z.pow_pos_nonneg|apply Z.pow_lt_mono_r]; lia).
  assert (Z.abs (2 ^ p) < 2 ^ 53) by lia.
  unfold ofZ. rewrite !dyadic_canonical, pow2_canonical by (done || lia).
  destruct (decide (N = 0)) as [->|HN0]; [done|].
  assert (Z.abs N < 2 ^ 53) as HaN by lia.
  pose proof (mantissa_normal N HN0 HaN) as Hm. rewrite <- mantissa_Z in Hm by done.
  pose proof (digits_bounds N HN0 HaN) as Hd.
  rewrite !canonical_pos by lia. cbn [num_div SFdiv xorb]. unfold SFdiv_core_binary.
  rewrite mantissa_digits by done. change (Zdigits2 4503599627370496) with 53.
  unfold fexp, emin, normal_exp in *. set (e := t + digits N - 53) in *.
  replace (Z.min (Z.max (53 + e - (53 + (p - 52)) - 53) (3 - 1024 - 53)) (e - (p - 52)))
    with (e - p - 1) by lia.
  replace (e - (p - 52) - (e - p - 1)) with 53 by lia.
  rewrite Z.shiftl_mul_pow2 by lia.
  replace (Z.pos (mantissa N) * 2 ^ 53)
    with (4503599627370496 * (Z.pos (mantissa N) * 2 ^ 1)) by lia.
  rewrite div_eucl_exact by done. change (new_location 4503599627370496 0) with loc_Exact.
  rewrite round_aux_exact, Pos2Z.id by lia. f_equal. lia.
Qed.

(** [Math.floor] and the integer part drop the fractional bits. *)
Lemma mantissa_quotient N t :
  0 < N < 2 ^ 53 -> t <= 0 ->
  Zpos (mantissa N) / 2 ^ (- (t + digits N - 53)) = N / 2 ^ (- t).
Proof.
  intros HN Ht. pose proof (digits_bounds N ltac:(lia) ltac:(lia)).
  rewrite mantissa_Z, Z.abs_eq by lia.
  replace (- (t + digits N - 53)) with (- t + (53 - digits N)) by lia.
  rewrite Z.pow_add_r, Z.div_mul_cancel_r by lia; [done|apply Z.pow_nonzero; lia..].
Qed.

Lemma Math_floor_exact N t :
  0 <= N < 2 ^ 53 -> t <= 0 -> normal_exp t ->
  Math_floor (dyadic N t) = ofZ (N / 2 ^ (- t)).
Proof.
  intros HN Ht Hn. destruct (decide (N = 0)) as [->|HN0]; [done|].
  pose proof (digits_bounds N ltac:(lia) ltac:(lia)) as Hd.
  rewrite dyadic_canonical, canonical_pos by (done || lia). cbn [Math_floor cond_Zopp].
  destruct (Z.leb_spec 0 (t + digits N - 53)) as [He|He].
  - replace t with 0 by lia. rewrite Z.div_1_r. unfold ofZ.
    by rewrite dyadic_canonical, canonical_pos by (done || lia).
  - by rewrite mantissa_quotient by lia.
Qed.

Lemma toInteger_exact N t :
  0 <= N < 2 ^ 53 -> t <= 0 -> normal_exp t ->
  toInteger (dyadic N t) = N / 2 ^ (- t).
Proof.
  intros HN Ht Hn. destruct (decide (N = 0)) as [->|HN0]; [done|].
  pose proof (digits_bounds N ltac:(lia) ltac:(lia)) as Hd.
  rewrite dyadic_canonical, canonical_pos by (done || lia). cbn [toInteger cond_Zopp].
  destruct (Z.leb_spec 0 (t + digits N - 53)) as [He|He].
  - replace t with 0 by lia. replace (0 + digits N - 53) with 0 by lia.
    rewrite Z.div_1_r, mantissa_Z, Z.abs_eq by lia. replace (53 - digits N) with 0 by lia. lia.
  - by rewrite mantissa_quotient by lia.
Qed.

(** An integer below [2^53] is read back from its double, so distinct
    integers are distinct numbers. *)
Lemma toInteger_ofZ z : 0 <= z < 2 ^ 53 -> toInteger (ofZ z) = z.
Proof. intros Hz. unfold ofZ. rewrite toInteger_exact by done. apply Z.div_1_r. Qed.

Lemma ofZ_inj a b : 0 <= a < 2 ^ 53 -> 0 <= b < 2 ^ 53 -> ofZ a = ofZ b -> a = b.
Proof. intros Ha Hb E. by rewrite <- (toInteger_ofZ a), <- (toInteger_ofZ b), E. Qed.

Lemma Math_max_zero K :
  Z.abs K < 2 ^ 53 -> Math_max (ofZ 0) (ofZ K) = ofZ (Z.max 0 K).
Proof.
  intros HK. unfold ofZ. rewrite (dyadic_canonical K) by (done || lia).
  destruct K as [|p|p]; [done| |done].
  change (Z.max 0 (Z.pos p)) with (Z.pos p). by rewrite (dyadic_canonical (Z.pos p)).
Qed.

(** A difference of integers is exact if it has at most 53 bits. *)
Lemma canonical_nonzero N t :
  N <> 0 -> canonical N t = S754_finite (N <? 0) (mantissa N) (t + digits N - 53).
Proof. by destruct N. Qed.

Lemma aligned N ez :
  N <> 0 -> Z.abs N < 2 ^ 53 -> ez <= digits N - 53 ->
  cond_Zopp (N <? 0) (Zpos (fst (shl_align (mantissa N) (0 + digits N - 53) ez))) = N * 2 ^ (- ez).
Proof.
  intros HN Hlt He. pose proof (digits_bounds N HN Hlt) as Hd.
  pose proof (mantissa_normal N HN Hlt) as Hm.
  rewrite shl_align_spec. cbn [fst]. rewrite Z.min_r, mantissa_Z by lia.
  assert (0 < 2 ^ (0 + digits N - 53 - ez)) by (apply Z.pow_pos_nonneg; lia).
  rewrite Z2Pos.id, <- Z.mul_assoc, <- Z.pow_add_r by nia.
  replace (53 - digits N + (0 + digits N - 53 - ez)) with (- ez) by lia.
  destruct (Z.ltb_spec N 0); cbn [cond_Zopp]; nia.
Qed.

Lemma num_sub_exact N M :
  Z.abs N < 2 ^ 53 -> Z.abs M < 2 ^ 53 -> Z.abs (N - M) < 2 ^ 53 ->
  num_sub (ofZ N) (ofZ M) = ofZ (N - M).
Proof.
  intros HN HM HNM. unfold ofZ. rewrite !dyadic_canonical by done.
  destruct (decide (M = 0)) as [->|HM0]; [rewrite Z.sub_0_r; by destruct N|].
  destruct (decide (N = 0)) as [->|HN0].
  { rewrite Z.sub_0_l. destruct M as [|m|m]; [done|..]; cbn [canonical num_sub SFsub negb].
    - by rewrite <- mantissa_opp, <- digits_opp.
    - by rewrite <- mantissa_opp, <- digits_opp. }
  rewrite (canonical_nonzero N), (canonical_nonzero M) by done. cbn [num_sub SFsub].
  pose proof (digits_bounds N HN0 HN). pose proof (digits_bounds M HM0 HM).
  set (ez := Z.min _ _). rewrite !aligned by lia.
  replace (N * 2 ^ (- ez) - M * 2 ^ (- ez)) with ((N - M) * 2 ^ (- ez)) by ring.
  fold (dyadic ((N - M) * 2 ^ (- ez)) ez).
  rewrite dyadic_shift; [by replace (ez + - ez) with 0 by lia|done|lia|].
  by replace (ez + - ez) with 0 by lia.
Qed.

(** Comparison of non-negative integers. *)
Lemma digits_mono N M : 0 < N <= M -> digits N <= digits M.
Proof. intros H. unfold digits. rewrite !Z.abs_eq by lia. pose proof (Z.log2_le_mono N M). lia. Qed.

Lemma SFcompare_exact N M :
  0 <= N < 2 ^ 53 -> 0 <= M < 2 ^ 53 ->
  SFcompare (ofZ N) (ofZ M) = Some (N ?= M).
Proof.
  intros HN HM. unfold ofZ. rewrite !dyadic_canonical by (done || lia).
  destruct (decide (N = 0)) as [->|HN0]; [by destruct M|].
  destruct (decide (M = 0)) as [->|HM0]; [by destruct N|].
  rewrite !canonical_pos by lia. cbn [SFcompare]. f_equal.
  pose proof (mantissa_Z N HN0 ltac:(lia)) as EN. pose proof (mantissa_Z M HM0 ltac:(lia)) as EM.
  rewrite Z.abs_eq in EN, EM by lia.
  pose proof (digits_bounds N HN0 ltac:(lia)). pose proof (digits_bounds M HM0 ltac:(lia)).
  destruct (Z.compare_spec (0 + digits N - 53) (0 + digits M - 53)) as [E|E|E].
  - fold (Pos.compare (mantissa N) (mantissa M)). rewrite Pos2Z.inj_compare, EN, EM.
    replace (digits M) with (digits N) by lia.
    assert (0 < 2 ^ (53 - digits N)) by (apply Z.pow_pos_nonneg; lia).
    destruct (Z.compare_spec N M), (Z.compare_spec (N * 2 ^ (53 - digits N)) (M * 2 ^ (53 - digits N)));
      done || nia.
  - symmetry. apply Z.compare_lt_iff. destruct (Z.lt_ge_cases N M) as [|Hge]; [done|].
    pose proof (digits_mono M N). lia.
  - symmetry. apply Z.compare_gt_iff. destruct (Z.lt_ge_cases M N) as [|Hge]; [done|].
    pose proof (digits_mono N M). lia.
Qed.

Lemma num_gt_exact N M :
  0 <= N < 2 ^ 53 -> 0 <= M < 2 ^ 53 -> num_gt (ofZ N) (ofZ M) = (M <? N).
Proof. intros HN HM. unfold num_gt, SFltb, Z.ltb. rewrite SFcompare_exact by done. by destruct (M ?= N). Qed.

(** ** Rounding

    The hypotheses on the size of the results are needed: the square of
    [2^27 + 1] has 55 bits and loses its last one. *)
Example num_mul_rounds :
  num_mul (ofZ (2 ^ 27 + 1)) (ofZ (2 ^ 27 + 1)) = ofZ ((2 ^ 27 + 1) * (2 ^ 27 + 1) - 1).
Proof. by vm_compute. Qed.
