(* ===== verification/Numbers.v ===== *)
(** * Numbers: the arithmetic of the program, as the engine performs it

    [App] computes the capacity with rationals and [Resample] the canvas
    dimensions with [Qfloor]; the program computes both with doubles.  This
    file writes the computations of the source with the operations
    of [Doubles]:
    - [sliderDouble] is [parseFloat(e.target.value)] at a position of the
      scaling slider;
    - [capacityDouble] is the body of the capacity effect of [App.tsx];
    - [canvasDimDouble] is the assignment of [img.width * scale] to
      [canvas.width] in [scaleImage];
    - [tooLongDouble] is the comparison [message.length > capacity] of
      [handleProcess].
    The theorems show that for every setting the controls offer and every
    image of fewer than [2^20] pixels each way the doubles are the values
    of the model, so the guard the program evaluates is the guard of
    [processEncode] and the [capacity] of every reachable state is the
    number the component holds; [capacityDouble_rounds] shows an image
    size at which doubles and model differ. *)

From Stdlib Require Import ZArith Lia QArith Qround List SpecFloat.
From stdpp Require Import base tactics list numbers.
From S2P Require Import Prelude JsNum Canvas Resample App Doubles.

#[local] Open Scope Z_scope.

(** ** The computations of the source *)

(** The number the slider reports at position [n] of its half steps: the
    double nearest to [n / 2]. *)
Definition sliderDouble (n : nat) : double := num_div (ofZ (Z.of_nat n)) (ofZ 2).

(** The capacity effect. *)
Definition capacityDouble (width height scale bitsPerChannel : double) : double :=
  let pixels := num_mul (num_mul width scale) (num_mul height scale) in
  let totalBits := num_mul (num_mul pixels (ofZ 3)) bitsPerChannel in
  let bytes := num_sub (Math_floor (num_div totalBits (ofZ 8))) (ofZ 4) in
  Math_max (ofZ 0) bytes.

(** [canvas.width = img.width * scale]: the product, converted to
    [unsigned long]. *)
Definition canvasDimDouble (n : nat) (scale : double) : nat :=
  Z.to_nat (toUint32 (num_mul (ofZ (Z.of_nat n)) scale)).

(** [message.length > capacity]. *)
Definition tooLongDouble (message : jsstring) (capacity : double) : bool :=
  num_gt (ofZ (Z.of_nat (length message))) capacity.

(** The bounds under which the computations are exact: a position of the
    slider, a bit depth of at most 8 and fewer than [2^20] pixels each
    way. *)
Definition in_bounds (img : Image) (n k : nat) : Prop :=
  (2 <= n <= 8)%nat /\ (k <= 8)%nat
  /\ Z.of_nat (img_width img) < 2 ^ 20 /\ Z.of_nat (img_height img) < 2 ^ 20.

(** ** Exactness *)

Lemma sliderDouble_dyadic n : (n <= 8)%nat -> sliderDouble n = dyadic (Z.of_nat n) (-1).
Proof.
  intros Hn. unfold sliderDouble, ofZ at 1. change (ofZ 2) with (ofZ (2 ^ 1)).
  rewrite num_div_pow2; [done|lia..|done|done].
Qed.

Lemma dim_bound W N : 0 <= W < 2 ^ 20 -> 0 <= N <= 8 -> 0 <= W * N < 2 ^ 23.
Proof. change (2 ^ 20) with 1048576. change (2 ^ 23) with 8388608. nia. Qed.

Section Exact.
Context (W H' N K : Z).
Context (HW : 0 <= W < 2 ^ 20) (HH : 0 <= H' < 2 ^ 20) (HN : 0 <= N <= 8) (HK : 0 <= K <= 8).

Lemma pixels_bound : 0 <= W * N < 2 ^ 23 /\ 0 <= H' * N < 2 ^ 23 /\ 0 <= W * N * (H' * N) < 2 ^ 46.
Proof.
  pose proof (dim_bound W N HW HN) as H1. pose proof (dim_bound H' N HH HN) as H2.
  split_and!; try lia. change (2 ^ 23) with 8388608 in *.
  change (2 ^ 46) with (8388608 * 8388608). nia.
Qed.

Lemma bits_bound : 0 <= W * N * (H' * N) * 3 * K < 2 ^ 51.
Proof.
  destruct pixels_bound as (_ & _ & HP). change (2 ^ 46) with 70368744177664 in HP.
  change (2 ^ 51) with (70368744177664 * 32). nia.
Qed.

(** A scaled dimension, before it is converted. *)
Lemma scaled_dim_exact : num_mul (ofZ W) (dyadic N (-1)) = dyadic (W * N) (-1).
Proof.
  pose proof (dim_bound W N HW HN) as H1. unfold ofZ.
  rewrite num_mul_exact; [done|first [done | lia]..].
Qed.

Lemma totalBits_exact :
  num_mul (num_mul (num_mul (num_mul (ofZ W) (dyadic N (-1))) (num_mul (ofZ H') (dyadic N (-1))))
                   (ofZ 3)) (ofZ K)
  = dyadic (W * N * (H' * N) * 3 * K) (-2).
Proof.
  pose proof bits_bound as HB. destruct pixels_bound as (H1 & H2 & HP).
  unfold ofZ. rewrite !num_mul_exact; [done|first [done | lia | nia]..].
Qed.

Lemma capacityDouble_value :
  capacityDouble (ofZ W) (ofZ H') (dyadic N (-1)) (ofZ K)
  = ofZ (Z.max 0 (W * N * (H' * N) * 3 * K / 32 - 4)).
Proof.
  pose proof bits_bound as HB. unfold capacityDouble. cbn zeta. rewrite totalBits_exact.
  set (B := W * N * (H' * N) * 3 * K) in *.
  assert (0 <= B / 32 < 2 ^ 51) as Hq
    by (split; [apply Z.div_pos; lia | apply Z.div_lt_upper_bound; lia]).
  change (ofZ 8) with (ofZ (2 ^ 3)). rewrite num_div_pow2, Math_floor_exact by (done || lia).
  change (2 ^ (- (-2 - 3))) with 32. rewrite num_sub_exact, Math_max_zero; [done|lia..].
Qed.

End Exact.

(** C18. The capacity the program computes in doubles is the capacity of the
    model: at every position of the slider, for a bit depth of at most 8
    and an image of fewer than [2^20] pixels each way, no product,
    quotient or difference of the capacity effect is rounded. *)
Theorem capacityDouble_exact img (n k : nat) :
  in_bounds img n k ->
  capacityDouble (ofZ (Z.of_nat (img_width img))) (ofZ (Z.of_nat (img_height img)))
                 (sliderDouble n) (ofZ (Z.of_nat k))
  = ofZ (appCapacity img (Z.of_nat n # 2) k).
Proof.
  intros (Hn & Hk & Hw & Hh).
  rewrite sliderDouble_dyadic, capacityDouble_value, appCapacity_half; [done|lia..].
Qed.

(** C24. The dimension [scaleImage] assigns to the canvas is the one of the
    model: the product of a width below [2^20] and a slider position is
    exact, and its conversion to [unsigned long] drops the half. *)
Theorem canvasDimDouble_exact (w n : nat) :
  Z.of_nat w < 2 ^ 20 -> (n <= 8)%nat ->
  canvasDimDouble w (sliderDouble n) = canvas_dim w (Z.of_nat n # 2).
Proof.
  intros Hw Hn. unfold canvasDimDouble, toUint32.
  pose proof (dim_bound (Z.of_nat w) (Z.of_nat n)) as H1.
  rewrite sliderDouble_dyadic, scaled_dim_exact, toInteger_exact, canvas_dim_half
    by (done || lia).
  change (2 ^ (- -1)) with 2. f_equal. apply Z.mod_small.
  split; [apply Z.div_pos; lia | apply Z.div_lt_upper_bound; lia].
Qed.

(** C25. The guard of [handleProcess] evaluated in doubles is the guard of
    [processEncode]: the message is refused exactly when it has more
    characters than the capacity of the model. *)
Theorem tooLongDouble_exact img (n k : nat) (message : jsstring) :
  in_bounds img n k -> Z.of_nat (length message) < 2 ^ 53 ->
  tooLongDouble message
    (capacityDouble (ofZ (Z.of_nat (img_width img))) (ofZ (Z.of_nat (img_height img)))
                    (sliderDouble n) (ofZ (Z.of_nat k)))
  = (Z.of_nat (length message) >? appCapacity img (Z.of_nat n # 2) k).
Proof.
  intros (Hn & Hk & Hw & Hh) Hlen.
  pose proof (bits_bound (Z.of_nat (img_width img)) (Z.of_nat (img_height img))
                (Z.of_nat n) (Z.of_nat k)) as HB.
  rewrite sliderDouble_dyadic, capacityDouble_value, appCapacity_half by lia.
  set (B := _ * Z.of_nat k) in *. unfold tooLongDouble.
  assert (0 <= B / 32 < 2 ^ 51) as Hq
    by (split; [apply Z.div_pos; lia | apply Z.div_lt_upper_bound; lia]).
  rewrite num_gt_exact, Z.gtb_ltb; [done|lia..].
Qed.

(** ** The capacity in the state *)

Section Reachable.
Context `{Platform}.

(** The number the component holds is the capacity of the model: in
    every state reached through inputs the view offers, with an image of
    fewer than [2^20] pixels each way, the scale is a position of the
    slider and the capacity effect, run in doubles on the dimensions of
    the image, that scale and the bit depth of the state, returns the
    double of the [capacity] of the state. *)
Theorem state_capacity_double events s img :
  Forall offered events -> s = run events initialSys ->
  originalImage (ui s) = Some img ->
  Z.of_nat (img_width img) < 2 ^ 20 -> Z.of_nat (img_height img) < 2 ^ 20 ->
  exists n : nat,
    (scale (ui s) == Z.of_nat n # 2)%Q
    /\ capacityDouble (ofZ (Z.of_nat (img_width img))) (ofZ (Z.of_nat (img_height img)))
                      (sliderDouble n) (ofZ (Z.of_nat (bitsPerChannel (ui s))))
       = ofZ (capacity (ui s)).
Proof.
  intros Hev -> Himg Hw Hh.
  destruct (settings_ok_run events _ Hev settings_ok_initial) as [Hk (n & Hn & Hq)].
  destruct (sys_inv_reachable (run events initialSys)) as (Hc & _); [by exists events|].
  exists n. split; [done|].
  rewrite (Hc img Himg), Hq, sliderDouble_dyadic, capacityDouble_value, appCapacity_half;
    [done|lia..].
Qed.

End Reachable.

(** ** Beyond the bounds *)

(** The bound on the image is needed: for a square image of [2^28 + 3]
    pixels each way at scale 1 and depth 1 the number of pixels has 57
    bits, the product is rounded up, and the capacity the program computes
    exceeds the exact one, [floor (3 * pixels / 8) - 4], by five bytes. *)
Example capacityDouble_rounds :
  let w := 2 ^ 28 + 3 in
  toInteger (capacityDouble (ofZ w) (ofZ w) (sliderDouble 2) (ofZ 1))
  = Z.max 0 (w * w * 3 * 1 / 8 - 4) + 5.
Proof. by vm_compute. Qed.

(** ** Witnesses *)

Lemma sample_in_bounds : in_bounds (blank_image 10 10) 3 2.
Proof. repeat split; cbn; lia. Qed.

Lemma capacityDouble_exact_witness :
  capacityDouble (ofZ 10) (ofZ 10) (sliderDouble 3) (ofZ 2) = ofZ 164.
Proof. exact (capacityDouble_exact (blank_image 10 10) 3 2 sample_in_bounds). Defined.

Lemma canvasDimDouble_exact_witness : canvasDimDouble 5 (sliderDouble 3) = 7%nat.
Proof. apply (canvasDimDouble_exact 5 3); [done|lia]. Defined.

Lemma tooLongDouble_exact_witness :
  tooLongDouble (replicate 165 65)
    (capacityDouble (ofZ 10) (ofZ 10) (sliderDouble 3) (ofZ 2)) = true.
Proof.
  apply (tooLongDouble_exact (blank_image 10 10) 3 2 (replicate 165 65) sample_in_bounds).
  by vm_compute.
Defined.

Lemma state_capacity_double_witness :
  exists n : nat,
    (scale (ui overfull_sys) == Z.of_nat n # 2)%Q
    /\ capacityDouble (ofZ (Z.of_nat (img_width (blank_image 3 3))))
                      (ofZ (Z.of_nat (img_height (blank_image 3 3))))
                      (sliderDouble n) (ofZ (Z.of_nat (bitsPerChannel (ui overfull_sys))))
       = ofZ (capacity (ui overfull_sys)).
Proof.
  apply (state_capacity_double (H := nearest_platform) overfull_events); [|done..].
  unfold overfull_events. repeat apply Forall_cons; try apply Forall_nil; try exact I.
  - exists 3%nat. split; [lia | reflexivity].
  - cbn [offered]. lia.
Defined.
